(** * sina_blog_backup: a shallow embedding of the crawl and extraction pipeline

    The development follows [src/sina_blog_backup.py] function by function.
    Python [str] values are sequences of Unicode code points, the parsed
    page is a tree of tags and strings as BeautifulSoup builds it, sets and
    dictionaries are finite sets and maps, and the effects of the image
    localizer (file system, network) are threaded through an explicit world.
    The libraries the program calls (soupsieve, the HTML parser, requests,
    urllib, hashlib) and the order in which the interpreter iterates a set
    are an interface, [Library], over which the program and its theorems
    are stated; small implementations of them run the program on the pages
    of the examples. The one exception the extractor can meet, a selector
    that soupsieve cannot compile, is modelled in [Checked]. *)

From Stdlib Require Import String NArith Lia Bool.
From stdpp Require Import base option list gmap sets.

Local Open Scope N_scope.

(** ** Python strings *)

(** A Python [str]: a sequence of code points. [len] is [length]. *)
Definition pystr := list N.

Module Py.

(** UTF-8 decoding, by which the literals below are read. *)
Fixpoint utf8 (bs : list N) : pystr :=
  match bs with
  | [] => []
  | b :: r =>
      if b <? 128 then b :: utf8 r
      else match r with
           | [] => [b]
           | b1 :: r1 =>
               if b <? 224 then ((b - 192) * 64 + (b1 - 128)) :: utf8 r1
               else match r1 with
                    | [] => [b]
                    | b2 :: r2 =>
                        if b <? 240
                        then ((b - 224) * 4096 + (b1 - 128) * 64 + (b2 - 128)) :: utf8 r2
                        else match r2 with
                             | [] => [b]
                             | b3 :: r3 =>
                                 ((b - 240) * 262144 + (b1 - 128) * 4096
                                  + (b2 - 128) * 64 + (b3 - 128)) :: utf8 r3
                             end
                    end
           end
  end.

(** [str.isspace] for one character; the same set is [\s] of [re]. *)
Definition isspace (c : N) : bool :=
  ((9 <=? c) && (c <=? 13)) || ((28 <=? c) && (c <=? 32))
  || (c =? 133) || (c =? 160) || (c =? 5760)
  || ((8192 <=? c) && (c <=? 8202))
  || (c =? 8232) || (c =? 8233) || (c =? 8239) || (c =? 8287) || (c =? 12288).

Fixpoint lstrip (s : pystr) : pystr :=
  match s with
  | c :: r => if isspace c then lstrip r else s
  | [] => []
  end.

Definition rstrip (s : pystr) : pystr := reverse (lstrip (reverse s)).

(** [s.strip()] *)
Definition strip (s : pystr) : pystr := rstrip (lstrip s).

Definition is_upper_ascii (c : N) : bool := (65 <=? c) && (c <=? 90).

(** One character of [s.lower()]. Only the ASCII letters are folded; the
    two non-ASCII characters whose lower case contains an ASCII letter
    (U+0130, U+212A) yield no letter sequence that the patterns of this
    program search for. *)
Definition lower_char (c : N) : N := if is_upper_ascii c then c + 32 else c.

(** [s.lower()] *)
Definition lower (s : pystr) : pystr := map lower_char s.

Definition eqb (a b : pystr) : bool := bool_decide (a = b).

(** [s.startswith(p)] *)
Fixpoint startswith (p s : pystr) : bool :=
  match p, s with
  | [], _ => true
  | _ :: _, [] => false
  | a :: p', b :: s' => (a =? b) && startswith p' s'
  end.

(** [p in s] for strings *)
Fixpoint contains (p s : pystr) : bool :=
  startswith p s || match s with [] => false | _ :: s' => contains p s' end.

(** [s.replace(old, new)] for a non-empty [old]: the characters of a
    replaced occurrence are skipped, [skip] counts those still to drop. *)
Fixpoint replace_go (old new : pystr) (skip : nat) (s : pystr) : pystr :=
  match s with
  | [] => []
  | c :: r =>
      match skip with
      | S k => replace_go old new k r
      | O => if startswith old s
             then new ++ replace_go old new (pred (length old)) r
             else c :: replace_go old new O r
      end
  end.

Definition replace (old new s : pystr) : pystr := replace_go old new O s.

(** [sep.join(parts)] *)
Fixpoint join (sep : pystr) (parts : list pystr) : pystr :=
  match parts with
  | [] => []
  | [p] => p
  | p :: rest => p ++ sep ++ join sep rest
  end.

(** [s.split(sep, 1)] for a one-character separator: the part before the
    first separator and, when there is one, the part after it. *)
Fixpoint split1 (sep : N) (s : pystr) : pystr * option pystr :=
  match s with
  | [] => ([], None)
  | c :: r => if c =? sep then ([], Some r)
              else let '(a, b) := split1 sep r in (c :: a, b)
  end.

(** The maximal runs of characters that are not white space: [s.split()],
    and how the HTML parser splits a multi-valued attribute. *)
Fixpoint words_go (cur : pystr) (s : pystr) : list pystr :=
  match s with
  | [] => match cur with [] => [] | _ => [reverse cur] end
  | c :: r =>
      if isspace c
      then match cur with [] => words_go [] r | _ => reverse cur :: words_go [] r end
      else words_go (c :: cur) r
  end.

Definition words (s : pystr) : list pystr := words_go [] s.

(** Truthiness of a string. *)
Definition truthy (s : pystr) : bool := match s with [] => false | _ => true end.

(** [a or b] on strings. *)
Definition or_else (a b : pystr) : pystr := if truthy a then a else b.

(** An ASCII digit, as the class [[0-9]] and the conversions [%d] write it. *)
Definition is_digit (c : N) : bool := (48 <=? c) && (c <=? 57).

(** The zero of every run of ten decimal digits (category [Nd]) of the
    Unicode data of the interpreter, 14.0 in CPython 3.11: ASCII,
    Arabic-Indic, Devanagari, the full-width forms and the others. The
    digits of a run follow its zero in order. *)
Definition DECIMAL_ZEROS : list N :=
  [48; 1632; 1776; 1984; 2406; 2534; 2662; 2790; 2918; 3046; 3174; 3302; 3430; 3558;
   3664; 3792; 3872; 4160; 4240; 6112; 6160; 6470; 6608; 6784; 6800; 6992; 7088; 7232;
   7248; 42528; 43216; 43264; 43472; 43504; 43600; 44016; 65296; 66720; 68912; 69734;
   69872; 69942; 70096; 70384; 70736; 70864; 71248; 71360; 71472; 71904; 72016; 72784;
   73040; 73120; 92768; 92864; 93008; 120782; 120792; 120802; 120812; 120822; 123200;
   123632; 125264; 130032].

Definition in_run (c z : N) : bool := (z <=? c) && (c <=? z + 9).

(** [c.isdecimal()]; the same set is the class [\d] of [re] on a [str]. *)
Definition is_decimal (c : N) : bool := existsb (in_run c) DECIMAL_ZEROS.

(** The value of a decimal digit, as [int] and [unicodedata.decimal] read
    it. *)
Definition digit_value (c : N) : N :=
  match List.find (in_run c) DECIMAL_ZEROS with
  | Some z => c - z
  | None => 0
  end.

(** Decimal digits of a number, most significant first, and the same
    padded with zeros to [width] places ([{n:04d}], [%m], [%d]). *)
Fixpoint digits_go (fuel : nat) (n : N) (acc : pystr) : pystr :=
  match fuel with
  | O => acc
  | S f => if n <? 10 then (48 + n) :: acc
           else digits_go f (n / 10) ((48 + n mod 10) :: acc)
  end.

Definition digits (n : N) : pystr := digits_go (S (N.to_nat (N.log2 n))) n [].

Definition zero_pad (width : nat) (n : N) : pystr :=
  let d := digits n in replicate (width - length d) 48 ++ d.

(** [int(s)] on a string of decimal digits of any script. *)
Definition int_of (s : pystr) : N := fold_left (fun acc c => acc * 10 + digit_value c) s 0.

End Py.

(** [py "..."] writes a Python string literal: the literal is decoded when
    it is read, the term is the list of its code points. *)
Inductive literal : Set := LNil | LCons (c : N) (r : literal).

Fixpoint to_literal (s : pystr) : literal :=
  match s with
  | [] => LNil
  | c :: r => LCons c (to_literal r)
  end.

Definition parse_literal (bs : list Byte.byte) : literal :=
  to_literal (Py.utf8 (Byte.to_N <$> bs)).

Fixpoint print_ascii (l : literal) : option (list Byte.byte) :=
  match l with
  | LNil => Some []
  | LCons c r =>
      if c <? 128
      then match Byte.of_N c, print_ascii r with
           | Some b, Some bs => Some (b :: bs)
           | _, _ => None
           end
      else None
  end.

(** Only a non-empty ASCII string is displayed as a literal. *)
Definition print_literal (l : literal) : option (list Byte.byte) :=
  match l with
  | LNil => None
  | LCons _ _ => print_ascii l
  end.

Declare Scope py_scope.
Delimit Scope py_scope with py.
#[warning="-via-type-remapping,-via-type-mismatch"]
String Notation pystr parse_literal print_literal
  (via literal mapping [[nil] => LNil, [cons] => LCons]) : py_scope.

Notation "'py' s" := (s%py) (at level 1, s at level 0, only parsing).

(** ** Regular expressions

    The patterns of the program use literals, character classes, greedy
    bounded and unbounded repetition of a class, optional parts, alternation
    and capturing groups. [Re.run] is a backtracking matcher in
    continuation-passing style with Python's priorities: a greedy repetition
    takes the longest run first and gives characters back one at a time, an
    alternation tries its left branch first. *)

Module Re.

Inductive t : Type :=
| Eps
| Chr (p : N -> bool)
| Rep (p : N -> bool) (lo : nat) (hi : option nat)
| Lazy (p : N -> bool) (lo : nat)
| Seq (r1 r2 : t)
| Alt (r1 r2 : t)
| Opt (r : t)
| Grp (r : t).

(** Groups captured so far and the input that is left. *)
Definition result : Type := list pystr * pystr.

Definition orelse {A} (a b : option A) : option A :=
  match a with Some x => Some x | None => b end.

Definition hi_open (hi : option nat) : bool :=
  match hi with Some O => false | _ => true end.

Fixpoint rep (p : N -> bool) (lo : nat) (hi : option nat) (s : pystr)
    (k : pystr -> option result) : option result :=
  let stop := match lo with O => k s | S _ => None end in
  match s with
  | c :: s' =>
      if p c && hi_open hi
      then orelse (rep p (pred lo) (pred <$> hi) s' k) stop
      else stop
  | [] => stop
  end.

(** The lazy repetition [p{lo,}?] takes the shortest run first. *)
Fixpoint rep_lazy (p : N -> bool) (lo : nat) (s : pystr)
    (k : pystr -> option result) : option result :=
  let more := match s with
              | c :: s' => if p c then rep_lazy p (pred lo) s' k else None
              | [] => None
              end in
  match lo with
  | O => orelse (k s) more
  | S _ => more
  end.

Fixpoint run (r : t) (s : pystr) (g : list pystr)
    (k : list pystr -> pystr -> option result) : option result :=
  match r with
  | Eps => k g s
  | Chr p => match s with c :: s' => if p c then k g s' else None | [] => None end
  | Rep p lo hi => rep p lo hi s (k g)
  | Lazy p lo => rep_lazy p lo s (k g)
  | Seq r1 r2 => run r1 s g (fun g' s' => run r2 s' g' k)
  | Alt r1 r2 => orelse (run r1 s g k) (run r2 s g k)
  | Opt r1 => orelse (run r1 s g k) (k g s)
  | Grp r1 => run r1 s g (fun g' s' => k (g' ++ [take (length s - length s') s]) s')
  end.

(** A match anchored at the start of [s]: the groups and the rest. *)
Definition match_at (r : t) (s : pystr) : option result :=
  run r s [] (fun g rest => Some (g, rest)).

(** What [re.search] finds. *)
Record found := Found { start : nat; group0 : pystr; groups : list pystr }.

Fixpoint search_from (r : t) (i : nat) (s : pystr) : option found :=
  match match_at r s with
  | Some (g, rest) => Some (Found i (take (length s - length rest) s) g)
  | None => match s with
            | [] => None
            | _ :: s' => search_from r (S i) s'
            end
  end.

(** [re.search(r, s)] *)
Definition search (r : t) (s : pystr) : option found := search_from r O s.

(** [re.search(r, s) is not None] *)
Definition test (r : t) (s : pystr) : bool := bool_decide (is_Some (search r s)).

(** [m.group(1)] *)
Definition group1 (m : found) : pystr := default [] (head (groups m)).

(** [re.sub(r, repl, s)] for a pattern that matches no empty string:
    the matches are found left to right and do not overlap. *)
Fixpoint sub_go (r : t) (repl : pystr) (skip : nat) (s : pystr) : pystr :=
  match s with
  | [] => []
  | c :: s' =>
      match skip with
      | S n => sub_go r repl n s'
      | O => match match_at r s with
             | Some (_, rest) => repl ++ sub_go r repl (pred (length s - length rest)) s'
             | None => c :: sub_go r repl O s'
             end
      end
  end.

Definition sub (r : t) (repl s : pystr) : pystr := sub_go r repl O s.

(** [re.findall(r, s)] for a pattern with one group that matches no
    empty string: the group of every match. *)
Fixpoint findall_go (r : t) (skip : nat) (s : pystr) : list pystr :=
  match s with
  | [] => []
  | _ :: s' =>
      match skip with
      | S n => findall_go r n s'
      | O => match match_at r s with
             | Some (g, rest) =>
                 default [] (head g) :: findall_go r (pred (length s - length rest)) s'
             | None => findall_go r O s'
             end
      end
  end.

Definition findall (r : t) (s : pystr) : list pystr := findall_go r O s.

(** [re.split(r, s)] for a pattern without groups that matches no empty
    string; [cur] is the piece being read, in reverse. *)
Fixpoint split_go (r : t) (skip : nat) (cur : pystr) (s : pystr) : list pystr :=
  match s with
  | [] => [reverse cur]
  | c :: s' =>
      match skip with
      | S n => split_go r n cur s'
      | O => match match_at r s with
             | Some (_, rest) =>
                 reverse cur :: split_go r (pred (length s - length rest)) [] s'
             | None => split_go r O (c :: cur) s'
             end
      end
  end.

Definition split (r : t) (s : pystr) : list pystr := split_go r O [] s.

(** *** Building blocks *)

Definition one (c : N) : N -> bool := N.eqb c.

Definition among (cs : pystr) : N -> bool := fun c => bool_decide (c ∈ cs).

Definition range (a b : N) : N -> bool := fun c => (a <=? c) && (c <=? b).

Definition either (p q : N -> bool) : N -> bool := fun c => p c || q c.

Definition non (p : N -> bool) : N -> bool := fun c => negb (p c).

(** Simple case folding of [re.IGNORECASE]: the ASCII letters and the
    four other letters that fold onto one of them. *)
Definition fold_case (c : N) : N :=
  if Py.is_upper_ascii c then c + 32
  else if (c =? 304) || (c =? 305) then 105
  else if c =? 383 then 115
  else if c =? 8490 then 107
  else c.

(** A class under [re.I]. *)
Definition ci (p : N -> bool) : N -> bool := fun c => p c || p (fold_case c).

(** A literal string, and the same under [re.I]. *)
Definition lit (s : pystr) : t := foldr (fun c r => Seq (Chr (one c)) r) Eps s.

Definition lit_ci (s : pystr) : t :=
  foldr (fun c r => Seq (Chr (fun x => fold_case x =? fold_case c)) r) Eps s.

Definition plus (p : N -> bool) : t := Rep p 1 None.
Definition star (p : N -> bool) : t := Rep p 0 None.
Definition times (p : N -> bool) (lo hi : nat) : t := Rep p lo (Some hi).

(** [r1 | r2 | ...] *)
Definition alts (rs : list t) : t :=
  match rs with
  | [] => Eps
  | r :: rest => fold_left Alt rest r
  end.

Definition seqs (rs : list t) : t := foldr Seq Eps rs.

End Re.

(** ** The parsed page

    [BeautifulSoup(markup, "html.parser")] yields a tree of tags and strings.
    The attributes of a tag are a dictionary in the order of the markup,
    with the values as written there; the parser's split of a multi-valued
    attribute ([class], [rel], ...) into a list of tokens is taken when the
    attribute is read. The soup object itself is the root tag, named
    [[document]]. *)

#[local] Set Warnings "-register-all".

(** A dictionary with string keys that keeps insertion order. *)
Definition dict (V : Type) : Type := list (pystr * V).

Module Dict.

Fixpoint get {V} (d : dict V) (key : pystr) : option V :=
  match d with
  | [] => None
  | (k, v) :: d' => if bool_decide (k = key) then Some v else get d' key
  end.

(** [d[key] = v]: a present key keeps its place. *)
Fixpoint set {V} (d : dict V) (key : pystr) (v : V) : dict V :=
  match d with
  | [] => [(key, v)]
  | (k, w) :: d' =>
      if bool_decide (k = key) then (k, v) :: d' else (k, w) :: set d' key v
  end.

End Dict.

Inductive strkind : Type :=
| KText | KCData | KComment | KScript | KStylesheet | KTemplate | KDeclaration.

Inductive node : Type :=
| Str (kind : strkind) (s : pystr)
| Tag (name : pystr) (attrs : dict pystr) (children : list node).

Module Bs.

Definition is_tag (n : node) : bool :=
  match n with Tag _ _ _ => true | Str _ _ => false end.

Definition name (n : node) : pystr :=
  match n with Tag nm _ _ => nm | Str _ _ => [] end.

(** [node.get(key)] as written in the markup *)
Definition get (n : node) (key : pystr) : option pystr :=
  match n with Tag _ a _ => Dict.get a key | Str _ _ => None end.

(** The attributes the parser splits on white space, per tag name. *)
Definition multi_valued (tag key : pystr) : bool :=
  bool_decide (key ∈ [py "class"; py "accesskey"; py "dropzone"])
  || (bool_decide (tag ∈ [py "a"; py "link"]) && bool_decide (key ∈ [py "rel"; py "rev"]))
  || (bool_decide (tag ∈ [py "td"; py "th"]) && Py.eqb key (py "headers"))
  || (Py.eqb tag (py "form") && Py.eqb key (py "accept-charset"))
  || (Py.eqb tag (py "object") && Py.eqb key (py "archive"))
  || (Py.eqb tag (py "area") && Py.eqb key (py "rel"))
  || (Py.eqb tag (py "icon") && Py.eqb key (py "sizes"))
  || (Py.eqb tag (py "iframe") && Py.eqb key (py "sandbox"))
  || (Py.eqb tag (py "output") && Py.eqb key (py "for")).

(** [node.get("class", [])] *)
Definition get_class (n : node) : list pystr :=
  match get n (py "class") with
  | Some raw => Py.words raw
  | None => []
  end.

(** The tags below [n] in document order: [n.descendants] without the strings. *)
Fixpoint descendants (n : node) : list node :=
  match n with
  | Str _ _ => []
  | Tag _ _ cs =>
      (fix go (l : list node) : list node :=
         match l with
         | [] => []
         | c :: l' => (if is_tag c then [c] else []) ++ descendants c ++ go l'
         end) cs
  end.

(** The string classes [get_text] keeps below a tag of the given name. *)
Definition interesting (tag : pystr) (k : strkind) : bool :=
  if Py.eqb tag (py "script") then match k with KScript => true | _ => false end
  else if Py.eqb tag (py "style") then match k with KStylesheet => true | _ => false end
  else if Py.eqb tag (py "template") then match k with KTemplate => true | _ => false end
  else match k with KText | KCData => true | _ => false end.

(** The strings below [n] in document order, of the classes [keep]. *)
Fixpoint strings (keep : strkind -> bool) (n : node) : list pystr :=
  match n with
  | Str k s => if keep k then [s] else []
  | Tag _ _ cs =>
      (fix go (l : list node) : list pystr :=
         match l with
         | [] => []
         | c :: l' => strings keep c ++ go l'
         end) cs
  end.

(** [n.get_text(sep, strip=True)]: every string is stripped, the empty
    ones are dropped. *)
Definition get_text (sep : pystr) (n : node) : pystr :=
  Py.join sep
    (filter (fun s => s ≠ []) (Py.strip <$> strings (interesting (name n)) n)).

(** How [find] compares an attribute with a string: a multi-valued
    attribute matches by one of its tokens or by the tokens joined, and
    a missing attribute matches only the empty string. The last is
    BeautifulSoup up to 4.12; from 4.13 on a missing attribute matches no
    string. The two differ for the empty string alone, which [pick_text]
    asks for only on the chain entry [meta:]. *)
Definition attr_is (n : node) (key want : pystr) : bool :=
  match get n key with
  | None => negb (Py.truthy want)
  | Some raw =>
      if multi_valued (name n) key
      then bool_decide (want ∈ Py.words raw) || Py.eqb (Py.join (py " ") (Py.words raw)) want
      else Py.eqb raw want
  end.

(** How [find] compares an attribute with a compiled pattern. *)
Definition attr_search (n : node) (key : pystr) (r : Re.t) : bool :=
  match get n key with
  | None => false
  | Some raw =>
      if multi_valued (name n) key
      then existsb (Re.test r) (Py.words raw) || Re.test r (Py.join (py " ") (Py.words raw))
      else Re.test r raw
  end.

(** [n.find_all(p)] for a test [p] on tags, and [n.find(p)] *)
Definition find_all (p : node -> bool) (n : node) : list node :=
  filter (fun d => p d = true) (descendants n).

Definition find (p : node -> bool) (n : node) : option node := head (find_all p n).

Definition named (nm : pystr) (n : node) : bool := Py.eqb (name n) nm.

End Bs.

(** ** CSS selectors

    [Css.select] evaluates the selectors the program itself writes: a type,
    [#id], [.class] and [[attr='value']] tests in one compound, compounds
    chained by the descendant combinator, and comma-separated alternatives.
    The extractor below is stated over an arbitrary selector engine, of
    which this is the instance used on concrete pages. *)

Module Css.

Record compound : Type := Compound {
  c_tag : option pystr;
  c_ids : list pystr;
  c_classes : list pystr;
  c_attrs : list (pystr * pystr)
}.

Definition anything : compound := Compound None [] [] [].

Definition is_anything (c : compound) : bool :=
  match c with
  | Compound None [] [] [] => true
  | _ => false
  end.

(** A chain of compounds, outermost first, and its alternatives. *)
Definition complex : Type := list compound.
Definition selector : Type := list complex.

(** *** Reading a selector *)

Inductive mode : Type :=
| InTag | InId | InClass | InAttrName
| AfterEq (key : pystr)
| InValue (key : pystr) (quote : option N)
| AfterValue (key value : pystr).

Record pstate : Type := PState {
  p_done : selector;
  p_chain : complex;
  p_cur : compound;
  p_mode : mode;
  p_buf : pystr;
  p_ok : bool
}.

Definition ident_char (c : N) : bool :=
  Re.range 97 122 c || Re.range 65 90 c || Py.is_digit c
  || (c =? 95) || (c =? 45) || (128 <=? c).

(** Close the token being read and add it to the current compound. *)
Definition commit (st : pstate) : pstate :=
  let b := reverse (p_buf st) in
  let c := p_cur st in
  let c' :=
    match p_mode st, b with
    | _, [] => c
    | InTag, _ => Compound (Some (Py.lower b)) (c_ids c) (c_classes c) (c_attrs c)
    | InId, _ => Compound (c_tag c) (c_ids c ++ [b]) (c_classes c) (c_attrs c)
    | InClass, _ => Compound (c_tag c) (c_ids c) (c_classes c ++ [b]) (c_attrs c)
    | _, _ => c
    end in
  PState (p_done st) (p_chain st) c' InTag [] (p_ok st).

Definition end_compound (st : pstate) : pstate :=
  let st := commit st in
  if is_anything (p_cur st) then st
  else PState (p_done st) (p_chain st ++ [p_cur st]) anything InTag [] (p_ok st).

Definition end_complex (st : pstate) : pstate :=
  let st := end_compound st in
  PState (p_done st ++ [p_chain st]) [] anything InTag [] (p_ok st && bool_decide (p_chain st ≠ [])).

Definition with_mode (m : mode) (st : pstate) : pstate :=
  PState (p_done st) (p_chain st) (p_cur st) m [] (p_ok st).

Definition push (c : N) (st : pstate) : pstate :=
  PState (p_done st) (p_chain st) (p_cur st) (p_mode st) (c :: p_buf st) (p_ok st).

Definition failed (st : pstate) : pstate :=
  PState (p_done st) (p_chain st) (p_cur st) (p_mode st) (p_buf st) false.

Definition add_attr (key value : pystr) (st : pstate) : pstate :=
  let c := p_cur st in
  PState (p_done st) (p_chain st)
    (Compound (c_tag c) (c_ids c) (c_classes c) (c_attrs c ++ [(Py.lower key, value)]))
    InTag [] (p_ok st).

Definition is_quote (c : N) : bool := (c =? 39) || (c =? 34).

Definition step (st : pstate) (c : N) : pstate :=
  match p_mode st with
  | InAttrName =>
      if c =? 61 then with_mode (AfterEq (reverse (p_buf st))) st
      else if ident_char c then push c st else failed st
  | AfterEq key =>
      if is_quote c then with_mode (InValue key (Some c)) st
      else if ident_char c then push c (with_mode (InValue key None) st)
      else failed st
  | InValue key (Some q) =>
      if c =? q then with_mode (AfterValue key (reverse (p_buf st))) st
      else push c st
  | InValue key None =>
      if c =? 93 then add_attr key (reverse (p_buf st)) st
      else if ident_char c then push c st else failed st
  | AfterValue key value =>
      if c =? 93 then add_attr key value st else failed st
  | InTag | InId | InClass =>
      if c =? 35 then with_mode InId (commit st)
      else if c =? 46 then with_mode InClass (commit st)
      else if c =? 91 then with_mode InAttrName (commit st)
      else if c =? 44 then end_complex st
      else if Py.isspace c then end_compound st
      else if ident_char c then push c st
      else failed st
  end.

Definition closed (m : mode) : bool :=
  match m with InTag | InId | InClass => true | _ => false end.

(** The selector written [s], when [s] is in the fragment. *)
Definition parse (s : pystr) : option selector :=
  let st := fold_left step s (PState [] [] anything InTag [] true) in
  let fin := end_complex st in
  if p_ok fin && closed (p_mode st) then Some (p_done fin) else None.

(** *** Matching *)

(** The value an attribute test compares: the tokens of a multi-valued
    attribute are joined by one space. *)
Definition attr_value (n : node) (key : pystr) : option pystr :=
  match Bs.get n key with
  | Some raw =>
      Some (if Bs.multi_valued (Bs.name n) key
            then Py.join (py " ") (Py.words raw) else raw)
  | None => None
  end.

Definition matches_compound (c : compound) (n : node) : bool :=
  Bs.is_tag n
  && match c_tag c with Some t => Py.eqb (Bs.name n) t | None => true end
  && forallb (fun i => bool_decide (Bs.get n (py "id") = Some i)) (c_ids c)
  && forallb (fun k => bool_decide (k ∈ Bs.get_class n)) (c_classes c)
  && forallb (fun kv => bool_decide (attr_value n kv.1 = Some kv.2)) (c_attrs c).

(** [outer] are the compounds still to be found among the ancestors,
    innermost first; [anc] are the ancestors, nearest first. *)
Fixpoint matches_above (outer : list compound) (anc : list node) : bool :=
  match outer with
  | [] => true
  | c :: outer' =>
      (fix up (l : list node) : bool :=
         match l with
         | [] => false
         | a :: l' => (matches_compound c a && matches_above outer' l') || up l'
         end) anc
  end.

Definition matches_complex (cx : complex) (anc : list node) (n : node) : bool :=
  match reverse cx with
  | [] => false
  | c :: outer => matches_compound c n && matches_above outer anc
  end.

Definition matches (sel : selector) (anc : list node) (n : node) : bool :=
  existsb (fun cx => matches_complex cx anc n) sel.

(** The tags below [n] that match, in document order. *)
Fixpoint select_below (sel : selector) (anc : list node) (n : node) : list node :=
  match n with
  | Str _ _ => []
  | Tag _ _ cs =>
      (fix go (l : list node) : list node :=
         match l with
         | [] => []
         | c :: l' =>
             (if matches sel anc c then [c] else [])
               ++ select_below sel (c :: anc) c ++ go l'
         end) cs
  end.

(** [root.select(s)] *)
Definition select (s : pystr) (root : node) : list node :=
  match parse s with
  | Some sel => select_below sel [] root
  | None => []
  end.

End Css.

(** ** The libraries and collaborators the program calls

    These are not code of the repository. The program is stated over any
    implementation of them; [Css.select] and the other instances given
    further down serve to run it on concrete pages. *)

Class Library : Type := {
  (** [tag.select(selector)] of BeautifulSoup and soupsieve, for a selector
      that soupsieve compiles, and whether it compiles: on one it cannot
      read, [select] and [select_one] raise [SelectorSyntaxError] *)
  select : pystr -> node -> list node;
  selector_ok : pystr -> bool;
  (** [BeautifulSoup(markup, "html.parser")] and [str(tag)] *)
  html_parse : pystr -> node;
  html_str : node -> pystr;
  (** [requests.utils.get_encodings_from_content] *)
  get_encodings_from_content : pystr -> list pystr;
  (** the detector behind [response.apparent_encoding] *)
  detect_encoding : list Byte.byte -> option pystr;
  (** [re.search(pattern, s) is not None] for a pattern of the configuration *)
  re_search : pystr -> pystr -> bool;
  (** [urllib.parse.urljoin] and [urllib.parse.urlparse(url).path], for the
      URLs on which they return; on a URL with an unbalanced bracket in
      its host they raise [ValueError], which the program does not catch *)
  urljoin : pystr -> pystr -> pystr;
  urlparse_path : pystr -> pystr;
  (** [hashlib.sha1(s.encode("utf-8")).hexdigest()] *)
  sha1_hexdigest : pystr -> pystr;
  (** [response.text]: the content decoded with the given encoding *)
  decode_text : option pystr -> list Byte.byte -> pystr;
  (** the order in which the interpreter iterates the set of links of the
      listing page of the given number; it is some order of the elements,
      and varies with the hash seed of the process *)
  set_iter : nat -> gset pystr -> list pystr;
  set_iter_perm : forall page links, set_iter page links ≡ₚ elements links
}.

(** [soup.select_one(sel)] *)
Definition select_one `{Library} (sel : pystr) (soup : node) : option node :=
  head (select sel soup).

(** ** Configuration *)

Record selectors : Type := Selectors {
  sel_list_link : pystr;
  sel_title : list pystr;
  sel_time : list pystr;
  sel_category : list pystr;
  sel_tags : list pystr;
  sel_content : list pystr
}.

Record config : Type := Config {
  cfg_selectors : selectors;
  cfg_article_url_regex : pystr
}.

(** [config.get("selectors", {})] with every entry missing *)
Definition no_selectors : selectors := Selectors [] [] [] [] [] [].

(** ** Encoding resolver *)

Record response : Type := Response {
  encoding : option pystr;
  content : list Byte.byte
}.

(** [bytes.decode("ascii", errors="ignore")] *)
Definition decode_ascii_ignore (bs : list Byte.byte) : pystr :=
  filter (fun c => c < 128) (Byte.to_N <$> bs).

(** The pattern of [normalize_encoding] under [re.I]: the letters
    [charset=], an optional single or double quote, and in a group one or
    more of [a-zA-Z0-9_-]. *)
Definition CHARSET_RE : Re.t :=
  Re.seqs [Re.lit_ci (py "charset=");
           Re.Opt (Re.Chr (Re.among [39; 34]));
           Re.Grp (Re.plus (Re.ci (Re.either (Re.range 97 122) (Re.either (Re.range 65 90)
                     (Re.either (Re.range 48 57) (Re.among [95; 45]))))))].

(** The test that opens [normalize_encoding]: a declared encoding other
    than the placeholder. *)
Definition declared (r : response) : bool :=
  match encoding r with
  | Some e => Py.truthy e && negb (Py.eqb (Py.lower e) (py "iso-8859-1"))
  | None => false
  end.

(** [response.apparent_encoding or "utf-8"] *)
Definition apparent_or_default `{Library} (r : response) : pystr :=
  match detect_encoding (content r) with
  | Some e => Py.or_else e (py "utf-8")
  | None => py "utf-8"
  end.

(** [normalize_encoding] assigns [response.encoding] in place; the
    response after the call is returned. *)
Definition normalize_encoding `{Library} (r : response) : response :=
  if declared r then r
  else
    let content_head := decode_ascii_ignore (take 4096 (content r)) in
    match Re.search CHARSET_RE content_head with
    | Some m => Response (Some (Re.group1 m)) (content r)
    | None =>
        match get_encodings_from_content content_head with
        | e :: _ => Response (Some e) (content r)
        | [] => Response (Some (apparent_or_default r)) (content r)
        end
    end.

(** ** Link discovery *)

Definition ARTICLE_PATH : pystr := py "blog.sina.com.cn/s/blog_".

(** [blog\.sina\.com\.cn/s/blog_[0-9a-z]+\.html] *)
Definition ARTICLE_RE : Re.t :=
  Re.seqs [Re.lit (py "blog.sina.com.cn/s/blog_");
           Re.plus (Re.either (Re.range 48 57) (Re.range 97 122));
           Re.lit (py ".html")].

(** [regex_pattern] is [None] for the default argument. *)
Definition is_article_url `{Library} (url : pystr) (regex_pattern : option pystr) : bool :=
  if Py.truthy (default [] regex_pattern) then re_search (default [] regex_pattern) url
  else if Py.contains ARTICLE_PATH url then true
  else Re.test ARTICLE_RE url.

(** One turn of either loop of [extract_article_links], on the value of
    the [href] attribute. *)
Definition add_link `{Library} (base_url regex_pattern : pystr)
    (links : gset pystr) (href : pystr) : gset pystr :=
  let href := Py.strip href in
  if negb (Py.truthy href) then links
  else
    let full := urljoin base_url href in
    if is_article_url full (Some regex_pattern) then {[full]} ∪ links else links.

Definition has_attr (key : pystr) (n : node) : bool :=
  bool_decide (is_Some (Bs.get n key)).

Definition extract_article_links `{Library} (list_html base_url : pystr) (cfg : config)
    : gset pystr :=
  let soup := html_parse list_html in
  let selector := sel_list_link (cfg_selectors cfg) in
  let regex_pattern := cfg_article_url_regex cfg in
  if Py.truthy selector
  then foldl (fun links a => add_link base_url regex_pattern links
                               (default [] (Bs.get a (py "href"))))
         ∅ (select selector soup)
  else foldl (fun links a => add_link base_url regex_pattern links
                               (default [] (Bs.get a (py "href"))))
         ∅ (Bs.find_all (fun a => Bs.named (py "a") a && has_attr (py "href") a) soup).

(** ** Content extractor *)

(** [soup.find("meta", attrs={"property": prop}) or
     soup.find("meta", attrs={"name": prop})]; a tag is always truthy. *)
Definition find_meta (soup : node) (prop : pystr) : option node :=
  match Bs.find (fun n => Bs.named (py "meta") n && Bs.attr_is n (py "property") prop) soup with
  | Some n => Some n
  | None => Bs.find (fun n => Bs.named (py "meta") n && Bs.attr_is n (py "name") prop) soup
  end.

(** [sel.split(":", 1)[1]] for a [sel] that starts with [meta:] *)
Definition meta_prop (sel : pystr) : pystr := default [] (Py.split1 58 sel).2.

Fixpoint pick_text `{Library} (soup : node) (selectors : list pystr) : pystr :=
  match selectors with
  | [] => []
  | sel :: rest =>
      if negb (Py.truthy sel) then pick_text soup rest
      else if Py.startswith (py "meta:") sel then
        match find_meta soup (meta_prop sel) with
        | Some node =>
            match Bs.get node (py "content") with
            | Some c => if Py.truthy c then Py.strip c else pick_text soup rest
            | None => pick_text soup rest
            end
        | None => pick_text soup rest
        end
      else
        match select_one sel soup with
        | Some node =>
            let text := Bs.get_text (py " ") node in
            if Py.truthy text then text else pick_text soup rest
        | None => pick_text soup rest
        end
  end.

Fixpoint pick_html `{Library} (soup : node) (selectors : list pystr) : option node :=
  match selectors with
  | [] => None
  | sel :: rest =>
      if negb (Py.truthy sel) then pick_html soup rest
      else match select_one sel soup with
           | Some node => Some node
           | None => pick_html soup rest
           end
  end.

Definition BRAND_SUFFIX : pystr := py "- 新浪博客".

Definition guess_title `{Library} (soup : node) : pystr :=
  let title := pick_text soup
    [py "h2.titName"; py "h1"; py "meta:og:title"; py "meta:title"; py "title"] in
  if Py.truthy title then Py.strip (Py.replace BRAND_SUFFIX [] title) else [].

Definition DATE_SEP : N -> bool := Re.among (py "-/.").

(** [\d{4}[-/.]\d{1,2}[-/.]\d{1,2}]; on a [str] the class [\d] holds the
    decimal digits of every script. *)
Definition DATE_RE : Re.t :=
  Re.seqs [Re.times Py.is_decimal 4 4; Re.Chr DATE_SEP; Re.times Py.is_decimal 1 2;
           Re.Chr DATE_SEP; Re.times Py.is_decimal 1 2].

(** [DATE_RE] followed by [(?:\s+\d{1,2}:\d{2}(?::\d{2})?)?] *)
Definition DATE_TIME_RE : Re.t :=
  Re.Seq DATE_RE
    (Re.Opt (Re.seqs [Re.plus Py.isspace; Re.times Py.is_decimal 1 2; Re.Chr (Re.one 58);
                      Re.times Py.is_decimal 2 2;
                      Re.Opt (Re.seqs [Re.Chr (Re.one 58); Re.times Py.is_decimal 2 2])])).

Definition guess_time `{Library} (soup : node) : pystr :=
  let text := pick_text soup
    [py "span.time"; py "span.time SG_txtc"; py "meta:article:published_time";
     py "meta:og:pubdate"] in
  let text :=
    if negb (Py.truthy text) then
      let body_text := Bs.get_text [10] soup in
      match Re.search DATE_TIME_RE body_text with
      | Some m => Re.group0 m
      | None => text
      end
    else text in
  Py.strip text.

(** The ASCII colon and the full-width colon U+FF1A. *)
Definition COLON : N -> bool := Re.among [58; 65306].

(** [分类[:：]\s*([^\s]+)] *)
Definition CATEGORY_RE : Re.t :=
  Re.seqs [Re.lit (py "分类"); Re.Chr COLON; Re.star Py.isspace;
           Re.Grp (Re.plus (Re.non Py.isspace))].

Definition guess_category `{Library} (soup : node) : pystr :=
  let category := pick_text soup
    [py "a[rel='category tag']"; py "a.blogCategory"; py "span.category"] in
  if Py.truthy category then category
  else
    let raw := Bs.get_text (py " ") soup in
    match Re.search CATEGORY_RE raw with
    | Some m => Re.group1 m
    | None => []
    end.

(** [标签[:：]\s*([^\n]+)] *)
Definition TAGS_RE : Re.t :=
  Re.seqs [Re.lit (py "标签"); Re.Chr COLON; Re.star Py.isspace;
           Re.Grp (Re.plus (Re.non (Re.one 10)))].

(** [[,\s]+] *)
Definition TAG_SPLIT_RE : Re.t := Re.plus (Re.either (Re.one 44) Py.isspace).

(** The loop body shared by [guess_tags] and [parse_article]: append the
    stripped text of [a] unless it is empty or already there. *)
Definition add_tag (tags : list pystr) (a : node) : list pystr :=
  let text := Bs.get_text [] a in
  if Py.truthy text && negb (bool_decide (text ∈ tags)) then tags ++ [text] else tags.

Definition guess_tags `{Library} (soup : node) : list pystr :=
  let tags := foldl add_tag [] (select (py "a[rel='tag'], .blog_tag a, .tag a") soup) in
  match tags with
  | _ :: _ => tags
  | [] =>
      let raw := Bs.get_text (py " ") soup in
      match Re.search TAGS_RE raw with
      | Some m =>
          let segment := Py.strip (Re.group1 m) in
          if (length segment <=? 120)%nat
          then filter (fun p => p ≠ []) (Re.split TAG_SPLIT_RE segment)
          else []
      | None => []
      end
  end.

(** [(blog_tag|blog_class)] under [re.I] *)
Definition TAG_CLASS_RE : Re.t :=
  Re.Grp (Re.Alt (Re.lit_ci (py "blog_tag")) (Re.lit_ci (py "blog_class"))).

Definition is_tag_block (node : node) : bool :=
  let classes := Py.join (py " ") (Bs.get_class node) in
  if Py.contains (py "articalTag") classes then true
  else if bool_decide (is_Some (Bs.find (fun n => Bs.attr_search n (py "class") TAG_CLASS_RE) node))
  then true
  else
    let text := Bs.get_text (py " ") node in
    if Py.contains (py "标签") text && Py.contains (py "分类") text
       && (length text <? 300)%nat
    then true
    else false.

Definition NOISE_WORDS : list pystr :=
  [py "nav"; py "menu"; py "footer"; py "foot"; py "side"; py "comment"; py "share";
   py "recommend"].

(** [(nav|menu|footer|foot|side|comment|share|recommend)] *)
Definition NOISE_ID_RE : Re.t := Re.Grp (Re.alts (Re.lit <$> NOISE_WORDS)).

(** the same with [articaltag] as a last alternative *)
Definition NOISE_CLASS_RE : Re.t :=
  Re.Grp (Re.alts (Re.lit <$> NOISE_WORDS ++ [py "articaltag"])).

Definition is_noise_node (node : node) : bool :=
  let node_id := Py.lower (default [] (Bs.get node (py "id"))) in
  if Re.test NOISE_ID_RE node_id then true
  else
    let classes := Py.lower (Py.join (py " ") (Bs.get_class node)) in
    if Re.test NOISE_CLASS_RE classes then true else false.

(** [candidates.sort(key=..., reverse=True)]: a stable sort, the candidates
    of equal key keep their order. *)
Fixpoint insert_desc {A} (key : A -> nat) (x : A) (l : list A) : list A :=
  match l with
  | [] => [x]
  | y :: l' => if (key x <? key y)%nat then y :: insert_desc key x l' else x :: l
  end.

Definition sort_desc {A} (key : A -> nat) (l : list A) : list A :=
  foldr (insert_desc key) [] l.

Definition CONTENT_SELECTORS : list pystr :=
  [py "div#sina_keyword_ad_area2"; py "div.articalContent"; py "div#articlebody";
   py "div#artibody"].

(** The first loop of [guess_content_node]. *)
Fixpoint first_content `{Library} (soup : node) (sels : list pystr) : option node :=
  match sels with
  | [] => None
  | sel :: rest =>
      match select_one sel soup with
      | Some node => if negb (is_tag_block node) then Some node else first_content soup rest
      | None => first_content soup rest
      end
  end.

(** [sina_keyword_ad_area] and [(articalContent|article|post|content)],
    both under [re.I] *)
Definition AD_AREA_RE : Re.t := Re.lit_ci (py "sina_keyword_ad_area").

Definition CONTENT_CLASS_RE : Re.t :=
  Re.Grp (Re.alts (Re.lit_ci <$> [py "articalContent"; py "article"; py "post"; py "content"])).

Definition is_div : node -> bool := Bs.named (py "div").

(** The last resort of [guess_content_node]. *)
Definition largest_div (soup : node) : option node :=
  let candidates := Bs.find_all is_div soup in
  match candidates with
  | [] => None
  | _ =>
      let candidates := filter (fun c => is_noise_node c = false) candidates in
      match candidates with
      | [] => None
      | _ => head (sort_desc (fun x => length (Bs.get_text (py " ") x)) candidates)
      end
  end.

(** [node if node and not is_tag_block(node)] *)
Definition unless_tag_block (found : option node) : option node :=
  match found with
  | Some node => if negb (is_tag_block node) then Some node else None
  | None => None
  end.

Definition guess_content_node `{Library} (soup : node) (selectors : list pystr) : option node :=
  match pick_html soup selectors with
  | Some node => Some node
  | None =>
      match first_content soup CONTENT_SELECTORS with
      | Some node => Some node
      | None =>
          match unless_tag_block
                  (Bs.find (fun n => is_div n && Bs.attr_search n (py "id") AD_AREA_RE) soup) with
          | Some node => Some node
          | None =>
              match unless_tag_block
                      (Bs.find (fun n => is_div n && Bs.attr_search n (py "class") CONTENT_CLASS_RE)
                         soup) with
              | Some node => Some node
              | None => largest_div soup
              end
          end
      end
  end.

(** ** Content sanitizer *)

(** [tag.decompose()] for every tag below [n] that satisfies [p]: the tag
    and all it contains leave the tree. *)
Fixpoint decompose_all (p : node -> bool) (n : node) : node :=
  match n with
  | Str _ _ => n
  | Tag nm a cs =>
      Tag nm a
        ((fix go (l : list node) : list node :=
            match l with
            | [] => []
            | c :: l' => if p c then go l' else decompose_all p c :: go l'
            end) cs)
  end.

Definition SCRIPT_TAGS : list pystr := [py "script"; py "style"; py "noscript"; py "iframe"].

Definition is_script_tag (n : node) : bool :=
  Bs.is_tag n && bool_decide (Bs.name n ∈ SCRIPT_TAGS).

Definition CLEAN_SELECTOR : pystr :=
  py ".articalTag, .blog_tag, .blog_class, .share, .shareBtn, #share, .comment, #comment".

(** Whether [node.select(s)] lists the tag [n]; for a selector without
    combinators, as [CLEAN_SELECTOR] is, this is decided on the tag alone. *)
Definition selected_by (s : pystr) (n : node) : bool :=
  match Css.parse s with
  | Some sel => Css.matches sel [] n
  | None => false
  end.

Definition clean_content (nd : node) : node :=
  let nd := decompose_all is_script_tag nd in
  decompose_all (selected_by CLEAN_SELECTOR) nd.

(** [CLEAN_SELECTOR] as [Css.parse] reads it: eight alternatives of one
    compound each. *)
Definition CLEAN_PARSED : Css.selector :=
  Eval vm_compute in default [] (Css.parse CLEAN_SELECTOR).

(** ** File names *)

(** The characters of the class in the first substitution of
    [safe_filename]: backslash, slash, colon, star, question mark, double
    quote, the angle brackets and the bar. *)
Definition RESERVED : N -> bool := Re.among [92; 47; 58; 42; 63; 34; 60; 62; 124].

Definition safe_filename (name fallback : pystr) : pystr :=
  let name := Py.or_else (Py.strip name) fallback in
  let name := Re.sub (Re.Chr RESERVED) (py "_") name in
  let name := Py.strip (Re.sub (Re.plus Py.isspace) (py " ") name) in
  if negb (Py.truthy name) then fallback else name.

(** ** Articles *)

Record article : Type := Article {
  title : pystr;
  published_at : pystr;
  category : pystr;
  tags : list pystr;
  url : pystr;
  content_html : pystr
}.

Definition parse_article `{Library} (html_text url : pystr) (cfg : config) : article :=
  let soup := html_parse html_text in
  let selectors := cfg_selectors cfg in
  let title := Py.or_else (pick_text soup (sel_title selectors)) (guess_title soup) in
  let published_at := Py.or_else (pick_text soup (sel_time selectors)) (guess_time soup) in
  let category := Py.or_else (pick_text soup (sel_category selectors)) (guess_category soup) in
  let tags :=
    match sel_tags selectors with
    | _ :: _ =>
        foldl (fun tag_list sel => foldl add_tag tag_list (select sel soup)) []
          (sel_tags selectors)
    | [] => guess_tags soup
    end in
  let content_node := guess_content_node soup (sel_content selectors) in
  let content_html :=
    match content_node with
    | Some node => html_str (clean_content node)
    | None => []
    end in
  Article title published_at category tags url content_html.

(** ** Selector errors

    soupsieve compiles a selector when it is asked for its matches and
    raises [SelectorSyntaxError] on one it cannot read; nothing in
    [parse_article] catches it. The functions of the extractor that hand a
    selector to soupsieve are given again with that error, [None] standing
    for the exception. The functions above are their values when nothing
    raises. *)

(** The chains the guessers try, and the selector of [guess_tags]. *)
Definition TITLE_SELECTORS : list pystr :=
  [py "h2.titName"; py "h1"; py "meta:og:title"; py "meta:title"; py "title"].

Definition TIME_SELECTORS : list pystr :=
  [py "span.time"; py "span.time SG_txtc"; py "meta:article:published_time";
   py "meta:og:pubdate"].

Definition CATEGORY_SELECTORS : list pystr :=
  [py "a[rel='category tag']"; py "a.blogCategory"; py "span.category"].

Definition TAG_SELECTOR : pystr := py "a[rel='tag'], .blog_tag a, .tag a".

Module Checked.

(** [soup.select(sel)] *)
Definition selected `{Library} (sel : pystr) (soup : node) : option (list node) :=
  if selector_ok sel then Some (select sel soup) else None.

Fixpoint pick_text `{Library} (soup : node) (selectors : list pystr) : option pystr :=
  match selectors with
  | [] => Some []
  | sel :: rest =>
      if negb (Py.truthy sel) then pick_text soup rest
      else if Py.startswith (py "meta:") sel then
        match find_meta soup (meta_prop sel) with
        | Some node =>
            match Bs.get node (py "content") with
            | Some c => if Py.truthy c then Some (Py.strip c) else pick_text soup rest
            | None => pick_text soup rest
            end
        | None => pick_text soup rest
        end
      else
        found ← selected sel soup;
        match head found with
        | Some node =>
            let text := Bs.get_text (py " ") node in
            if Py.truthy text then Some text else pick_text soup rest
        | None => pick_text soup rest
        end
  end.

Fixpoint pick_html `{Library} (soup : node) (selectors : list pystr) : option (option node) :=
  match selectors with
  | [] => Some None
  | sel :: rest =>
      if negb (Py.truthy sel) then pick_html soup rest
      else
        found ← selected sel soup;
        match head found with
        | Some node => Some (Some node)
        | None => pick_html soup rest
        end
  end.

Definition guess_title `{Library} (soup : node) : option pystr :=
  title ← pick_text soup TITLE_SELECTORS;
  Some (if Py.truthy title then Py.strip (Py.replace BRAND_SUFFIX [] title) else []).

Definition guess_time `{Library} (soup : node) : option pystr :=
  text ← pick_text soup TIME_SELECTORS;
  let text :=
    if negb (Py.truthy text) then
      let body_text := Bs.get_text [10] soup in
      match Re.search DATE_TIME_RE body_text with
      | Some m => Re.group0 m
      | None => text
      end
    else text in
  Some (Py.strip text).

Definition guess_category `{Library} (soup : node) : option pystr :=
  category ← pick_text soup CATEGORY_SELECTORS;
  if Py.truthy category then Some category
  else
    let raw := Bs.get_text (py " ") soup in
    Some (match Re.search CATEGORY_RE raw with
          | Some m => Re.group1 m
          | None => []
          end).

Definition guess_tags `{Library} (soup : node) : option (list pystr) :=
  found ← selected TAG_SELECTOR soup;
  let tags := foldl add_tag [] found in
  Some (match tags with
        | _ :: _ => tags
        | [] =>
            let raw := Bs.get_text (py " ") soup in
            match Re.search TAGS_RE raw with
            | Some m =>
                let segment := Py.strip (Re.group1 m) in
                if (length segment <=? 120)%nat
                then filter (fun p => p ≠ []) (Re.split TAG_SPLIT_RE segment)
                else []
            | None => []
            end
        end).

(** The loop of [parse_article] over the configured tag selectors. *)
Fixpoint configured_tags `{Library} (soup : node) (sels : list pystr)
    (tag_list : list pystr) : option (list pystr) :=
  match sels with
  | [] => Some tag_list
  | sel :: rest =>
      found ← selected sel soup;
      configured_tags soup rest (foldl add_tag tag_list found)
  end.

Fixpoint first_content `{Library} (soup : node) (sels : list pystr) : option (option node) :=
  match sels with
  | [] => Some None
  | sel :: rest =>
      found ← selected sel soup;
      match head found with
      | Some node =>
          if negb (is_tag_block node) then Some (Some node) else first_content soup rest
      | None => first_content soup rest
      end
  end.

Definition guess_content_node `{Library} (soup : node) (selectors : list pystr)
    : option (option node) :=
  picked ← pick_html soup selectors;
  match picked with
  | Some node => Some (Some node)
  | None =>
      first ← first_content soup CONTENT_SELECTORS;
      Some
        match first with
        | Some node => Some node
        | None =>
            match unless_tag_block
                    (Bs.find (fun n => is_div n && Bs.attr_search n (py "id") AD_AREA_RE)
                       soup) with
            | Some node => Some node
            | None =>
                match unless_tag_block
                        (Bs.find
                           (fun n => is_div n && Bs.attr_search n (py "class") CONTENT_CLASS_RE)
                           soup) with
                | Some node => Some node
                | None => largest_div soup
                end
            end
        end
  end.

(** [pick_text(soup, chain) or guess(soup)]: the guesser runs only when
    the chain yields the empty text. *)
Definition text_field `{Library} (soup : node) (chain : list pystr) (guess : option pystr)
    : option pystr :=
  picked ← pick_text soup chain;
  if Py.truthy picked then Some picked else guess.

Definition parse_article `{Library} (html_text url : pystr) (cfg : config) : option article :=
  let soup := html_parse html_text in
  let selectors := cfg_selectors cfg in
  title ← text_field soup (sel_title selectors) (guess_title soup);
  published_at ← text_field soup (sel_time selectors) (guess_time soup);
  category ← text_field soup (sel_category selectors) (guess_category soup);
  tags ← match sel_tags selectors with
         | _ :: _ => configured_tags soup (sel_tags selectors) []
         | [] => guess_tags soup
         end;
  content_node ← guess_content_node soup (sel_content selectors);
  let content_html :=
    match content_node with
    | Some node => html_str (clean_content node)
    | None => []
    end in
  Some (Article title published_at category tags url content_html).

End Checked.

(** *** The name of the written post, as [main] derives it *)

(** The pattern [datetime.strptime] compiles for [%Y-%m-%d]: a year
    [\d\d\d\d], a month [1[0-2]|0[1-9]|[1-9]] and a day
    [3[0-1]|[1-2]\d|0[1-9]|[1-9]| [1-9]], each in a group. The class [\d]
    holds the decimal digits of every script, the ranges only the ASCII
    ones. *)
Definition STRPTIME_RE : Re.t :=
  let d := Re.Chr Py.is_decimal in
  let d19 := Re.Chr (Re.range 49 57) in
  Re.seqs [Re.Grp (Re.seqs [d; d; d; d]); Re.Chr (Re.one 45);
           Re.Grp (Re.alts [Re.Seq (Re.Chr (Re.one 49)) (Re.Chr (Re.range 48 50));
                            Re.Seq (Re.Chr (Re.one 48)) d19; d19]);
           Re.Chr (Re.one 45);
           Re.Grp (Re.alts [Re.Seq (Re.Chr (Re.one 51)) (Re.Chr (Re.range 48 49));
                            Re.Seq (Re.Chr (Re.range 49 50)) d;
                            Re.Seq (Re.Chr (Re.one 48)) d19; d19;
                            Re.Seq (Re.Chr (Re.one 32)) d19])].

Definition is_leap (y : N) : bool :=
  ((y mod 4 =? 0) && negb (y mod 100 =? 0)) || (y mod 400 =? 0).

Definition days_in_month (y m : N) : N :=
  if m =? 2 then (if is_leap y then 29 else 28)
  else if bool_decide (m ∈ [4; 6; 9; 11]) then 30 else 31.

(** [datetime.strptime(s, "%Y-%m-%d")]: the date, or [None] for [ValueError]. *)
Definition strptime_ymd (s : pystr) : option (N * N * N) :=
  match Re.match_at STRPTIME_RE s with
  | Some ([y; m; d], []) =>
      let y := Py.int_of y in
      let m := Py.int_of m in
      let d := Py.int_of (Py.strip d) in
      if (1 <=? y) && (1 <=? m) && (m <=? 12) && (1 <=? d) && (d <=? days_in_month y m)
      then Some (y, m, d) else None
  | _ => None
  end.

(** [d.strftime("%Y%m%d")] as the C library of Linux writes it: the year
    without leading zeros, the month and the day on two places. (A C
    library that pads [%Y] writes a year below 1000 on four places.) *)
Definition strftime_ymd (d : N * N * N) : pystr :=
  let '(y, m, d) := d in Py.digits y ++ Py.zero_pad 2 m ++ Py.zero_pad 2 d.

(** [date_part] in [main] *)
Definition date_part (published_at : pystr) : pystr :=
  if Py.truthy published_at then
    match Re.search DATE_RE published_at with
    | Some m =>
        let date_part := Py.replace (py ".") (py "-") (Py.replace (py "/") (py "-") (Re.group0 m)) in
        match strptime_ymd date_part with
        | Some d => strftime_ymd d
        | None => []
        end
    | None => []
    end
  else [].

(** [base_name] in [main] for the article at position [idx] *)
Definition base_name (a : article) (idx : N) : pystr :=
  let date_part := date_part (published_at a) in
  let base_name := safe_filename (title a) (py "post_" ++ Py.zero_pad 4 idx) in
  if Py.truthy date_part then date_part ++ py "_" ++ base_name else base_name.

(** ** Image localizer *)

(** [session.get(url, ...)] followed by [raise_for_status()]: the response,
    or [None] when either raises [requests.RequestException]. *)
Definition session : Type := pystr -> option response.

(** What the localizer reads and writes outside the page: the files on
    disk with their content, and the requests sent so far, oldest first. *)
Record world : Type := World {
  files : gmap pystr (list Byte.byte);
  requests : list pystr
}.

(** [os.path.exists(path)] *)
Definition path_exists (w : world) (path : pystr) : bool :=
  bool_decide (is_Some (files w !! path)).

(** [os.path.join(a, b)] with the separator [/] *)
Definition path_join (a b : pystr) : pystr :=
  if Py.startswith (py "/") b then b
  else if negb (Py.truthy a) || Py.startswith (py "/") (reverse a) then a ++ b
  else a ++ py "/" ++ b.

(** The longest prefix of [s] without [c]. *)
Fixpoint before_first (c : N) (s : pystr) : pystr :=
  match s with
  | [] => []
  | x :: s' => if x =? c then [] else x :: before_first c s'
  end.

(** The part of [s] after the last [c], and whether there is a [c]. *)
Definition after_last (c : N) (s : pystr) : pystr * bool :=
  (reverse (before_first c (reverse s)), bool_decide (c ∈ s)).

(** [os.path.splitext(p)[1]]: from the last dot of the last path component
    on, unless only dots come before it in that component. *)
Definition splitext_ext (p : pystr) : pystr :=
  let base := (after_last 47 p).1 in
  let '(ext, has_dot) := after_last 46 base in
  let stem := take (length base - length ext - 1) base in
  if has_dot && existsb (fun c => negb (c =? 46)) stem then 46 :: ext else [].

(** [a or b or c or ""] over the values [img.get] returns *)
Definition first_truthy (vals : list (option pystr)) : pystr :=
  default [] (head (filter (fun s => s ≠ []) (omap id vals))).

Definition img_src (img : node) : pystr :=
  Py.strip (first_truthy [Bs.get img (py "src"); Bs.get img (py "data-src");
                          Bs.get img (py "data-original")]).

(** [filename] in [download_images] *)
Definition image_filename `{Library} (full_url : pystr) : pystr :=
  let filename_hash := take 12 (sha1_hexdigest full_url) in
  let ext := splitext_ext (urlparse_path full_url) in
  let ext := if negb (Py.truthy ext) || (5 <? length ext)%nat then py ".jpg" else ext in
  filename_hash ++ ext.

(** [img["src"] = value] *)
Definition set_src (img : node) (value : pystr) : node :=
  match img with
  | Tag nm a cs => Tag nm (Dict.set a (py "src") value) cs
  | Str _ _ => img
  end.

(** The state of the loop of [download_images]. *)
Record loop_state : Type := LoopState {
  st_world : world;
  st_cache : gmap pystr pystr
}.

(** The body of the loop for one [img] tag: the state after it and the tag
    as it leaves it. *)
Definition localize_img `{Library} (get : session) (article_url images_dir : pystr)
    (st : loop_state) (img : node) : loop_state * node :=
  let src := img_src img in
  if negb (Py.truthy src) then (st, img)
  else
    let full_url := urljoin article_url src in
    match st_cache st !! full_url with
    | Some cached => (st, set_src img cached)
    | None =>
        let filename := image_filename full_url in
        let file_path := path_join images_dir filename in
        let rel_path := Py.replace [92] (py "/") (path_join (py "images") filename) in
        let w := st_world st in
        if path_exists w file_path
        then (LoopState w (<[full_url := rel_path]> (st_cache st)), set_src img rel_path)
        else
          match get full_url with
          | Some resp =>
              (LoopState (World (<[file_path := content resp]> (files w))
                            (requests w ++ [full_url]))
                 (<[full_url := rel_path]> (st_cache st)),
               set_src img rel_path)
          | None => (LoopState (World (files w) (requests w ++ [full_url])) (st_cache st), img)
          end
    end.

Definition is_img : node -> bool := Bs.named (py "img").

(** A loop body run over a list of nodes, the state threaded through. *)
Definition thread {S : Type} (f : S -> node -> S * node) : S -> list node -> S * list node :=
  fix go (st : S) (l : list node) : S * list node :=
    match l with
    | [] => (st, [])
    | c :: l' =>
        let '(st1, c') := f st c in
        let '(st2, l'') := go st1 l' in
        (st2, c' :: l'')
    end.

(** The loop on a tag and on what it contains, in document order. The
    body changes the attributes of the tag only. *)
Fixpoint localize_tree `{Library} (get : session) (article_url images_dir : pystr)
    (st : loop_state) (n : node) : loop_state * node :=
  match n with
  | Str _ _ => (st, n)
  | Tag nm a cs =>
      let '(st1, n1) :=
        if is_img n then localize_img get article_url images_dir st n else (st, n) in
      let '(st2, cs') := thread (localize_tree get article_url images_dir) st1 cs in
      (st2, Tag nm (match n1 with Tag _ a1 _ => a1 | Str _ _ => a end) cs')
  end.

(** [for img in soup.find_all("img")]: the tags below the root are visited
    in document order and changed in place. *)
Definition localize_all `{Library} (get : session) (article_url images_dir : pystr)
    (st : loop_state) (soup : node) : loop_state * node :=
  match soup with
  | Str _ _ => (st, soup)
  | Tag nm a cs =>
      let '(st', cs') := thread (localize_tree get article_url images_dir) st cs in
      (st', Tag nm a cs')
  end.

(** [download_images]: the markup returned and the world it leaves. *)
Definition download_images `{Library} (content_html article_url : pystr) (get : session)
    (output_dir : pystr) (w : world) : pystr * world :=
  let soup := html_parse content_html in
  let images_dir := path_join output_dir (py "images") in
  let '(st, soup') := localize_all get article_url images_dir (LoopState w ∅) soup in
  (html_str soup', st_world st).

(** ** Crawl orchestrator: collecting the links *)

(** [fetch_text]: the page text, or [None] for [requests.RequestException]. *)
Definition fetch_text `{Library} (get : session) (url : pystr) : option pystr :=
  match get url with
  | Some resp =>
      let resp := normalize_encoding resp in
      Some (decode_text (encoding resp) (content resp))
  | None => None
  end.

(** The first loop of [main] over the page numbers still to visit.
    [list_url page] is [list_url_template.format(uid=uid, page=page)]. The
    loop ends at the first page that cannot be fetched or brings no new
    link. The links of a page are a set; [iter page links] is the order in
    which the interpreter iterates it. *)
Fixpoint collect_links_in `{Library} (iter : nat -> gset pystr -> list pystr)
    (get : session) (list_url : nat -> pystr) (cfg : config)
    (pages : list nat) (seen : gset pystr) (article_urls : list pystr)
    : gset pystr * list pystr :=
  match pages with
  | [] => (seen, article_urls)
  | page :: rest =>
      match fetch_text get (list_url page) with
      | None => (seen, article_urls)
      | Some html_text =>
          let links := extract_article_links html_text (list_url page) cfg in
          let new_links := filter (fun link => link ∉ seen) (iter page links) in
          match new_links with
          | [] => (seen, article_urls)
          | _ =>
              collect_links_in iter get list_url cfg rest
                (foldl (fun s link => {[link]} ∪ s) seen new_links)
                (article_urls ++ new_links)
          end
      end
  end.

(** [article_urls] when the first loop of [main] is over, for a given
    order of iteration. *)
Definition discover_in `{Library} (iter : nat -> gset pystr -> list pystr)
    (get : session) (list_url : nat -> pystr) (cfg : config) (max_pages : nat)
    : list pystr :=
  (collect_links_in iter get list_url cfg (seq 1 max_pages) ∅ []).2.

(** The loop in the order of the running interpreter. *)
Definition collect_links `{Library} (get : session) (list_url : nat -> pystr) (cfg : config)
    (pages : list nat) (seen : gset pystr) (article_urls : list pystr)
    : gset pystr * list pystr :=
  collect_links_in set_iter get list_url cfg pages seen article_urls.

(** [article_urls] when the first loop of [main] is over. *)
Definition discover `{Library} (get : session) (list_url : nat -> pystr) (cfg : config)
    (max_pages : nat) : list pystr :=
  (collect_links get list_url cfg (seq 1 max_pages) ∅ []).2.

(** ** Rendering

    The post page and the index. [render_progress_html] and
    [print_progress] compute a percentage by a division in binary floating
    point and are left out, and with them [write_progress]. *)

Definition dq : pystr := [34].
Definition nl : pystr := [10].

(** [html.escape(s)], quotes included: the ampersand first, then the
    angle brackets, then the two quotes. *)
Definition html_escape (s : pystr) : pystr :=
  let s := Py.replace (py "&") (py "&amp;") s in
  let s := Py.replace (py "<") (py "&lt;") s in
  let s := Py.replace (py ">") (py "&gt;") s in
  let s := Py.replace dq (py "&quot;") s in
  Py.replace (py "'") (py "&#x27;") s.

(** [tags_html] of both renderers *)
Definition render_tags (tags : list pystr) : pystr :=
  Py.join (py " ")
    ((fun t => py "<span class='tag'>" ++ html_escape t ++ py "</span>") <$> tags).

(** [render_post_html]; the page is written as its lines. *)
Definition render_post_html (a : article) : pystr :=
  let title := html_escape (Py.or_else (title a) (py "Untitled")) in
  let published_at := html_escape (published_at a) in
  let category := html_escape (category a) in
  let tags_html := render_tags (tags a) in
  let content := content_html a in
  let meta_line :=
    Py.join (py " ")
      (List.filter Py.truthy
         [ if Py.truthy published_at then py "<span>" ++ published_at ++ py "</span>" else [];
           if Py.truthy category then py "<span>分类: " ++ category ++ py "</span>" else [] ]) in
  Py.join nl [
    py "<!doctype html>";
    py "<html lang=" ++ dq ++ py "zh-CN" ++ dq ++ py ">";
    py "<head>";
    py "  <meta charset=" ++ dq ++ py "utf-8" ++ dq ++ py " />";
    py "  <meta name=" ++ dq ++ py "viewport" ++ dq ++ py " content=" ++ dq ++ py "width=device-width, initial-scale=1" ++ dq ++ py " />";
    py "  <title>" ++ title ++ py "</title>";
    py "  <style>";
    py "    body { font-family: " ++ dq ++ py "Segoe UI" ++ dq ++ py ", " ++ dq ++ py "PingFang SC" ++ dq ++ py ", sans-serif; margin: 0; background: #f6f7fb; color: #1f2430; }";
    py "    .wrap { max-width: 920px; margin: 40px auto; background: #fff; padding: 32px 40px; border-radius: 16px; box-shadow: 0 10px 24px rgba(15, 18, 30, 0.08); }";
    py "    h1 { margin: 0 0 12px; font-size: 28px; }";
    py "    .meta { color: #5c667a; font-size: 14px; display: flex; gap: 16px; flex-wrap: wrap; }";
    py "    .tags { margin-top: 12px; }";
    py "    .tag { display: inline-block; padding: 4px 8px; margin-right: 6px; margin-bottom: 6px; background: #eef1f7; border-radius: 999px; font-size: 12px; color: #4b5563; }";
    py "    .content { margin-top: 24px; line-height: 1.8; font-size: 16px; }";
    py "    .content img { max-width: 100%; height: auto; }";
    py "    a { color: #3366ff; }";
    py "  </style>";
    py "</head>";
    py "<body>";
    py "  <div class=" ++ dq ++ py "wrap" ++ dq ++ py ">";
    py "    <h1>" ++ title ++ py "</h1>";
    py "    <div class=" ++ dq ++ py "meta" ++ dq ++ py ">" ++ meta_line ++ py "</div>";
    py "    <div class=" ++ dq ++ py "tags" ++ dq ++ py ">" ++ tags_html ++ py "</div>";
    py "    <div class=" ++ dq ++ py "content" ++ dq ++ py ">" ++ content ++ py "</div>";
    py "    <p><a href=" ++ dq ++ html_escape (url a) ++ dq ++ py " target=" ++ dq ++ py "_blank" ++ dq ++ py ">原文链接</a></p>";
    py "  </div>";
    py "</body>";
    py "</html>"
  ].

(** An entry of the list [articles] of [main]. *)
Record item : Type := Item {
  item_title : pystr;
  item_published_at : pystr;
  item_category : pystr;
  item_tags : list pystr;
  item_file : pystr
}.

(** The card of one entry in [render_index_html]. *)
Definition render_card (item : item) : pystr :=
  let title := html_escape (Py.or_else (item_title item) (py "Untitled")) in
  let published := html_escape (item_published_at item) in
  let category := html_escape (item_category item) in
  let tags_html := render_tags (item_tags item) in
  Py.join nl [
    py "<article class=" ++ dq ++ py "card" ++ dq ++ py ">";
    py "  <h2><a href=" ++ dq ++ html_escape (item_file item) ++ dq ++ py ">" ++ title ++ py "</a></h2>";
    py "  <div class=" ++ dq ++ py "meta" ++ dq ++ py ">" ++ published ++ py " " ++ (if Py.truthy category then py "· " ++ category else []) ++ py "</div>";
    py "  <div class=" ++ dq ++ py "tags" ++ dq ++ py ">" ++ tags_html ++ py "</div>";
    py "</article>"
  ].

Definition render_index_html (articles : list item) : pystr :=
  let items := render_card <$> articles in
  Py.join nl [
    py "<!doctype html>";
    py "<html lang=" ++ dq ++ py "zh-CN" ++ dq ++ py ">";
    py "<head>";
    py "  <meta charset=" ++ dq ++ py "utf-8" ++ dq ++ py " />";
    py "  <meta name=" ++ dq ++ py "viewport" ++ dq ++ py " content=" ++ dq ++ py "width=device-width, initial-scale=1" ++ dq ++ py " />";
    py "  <title>Sina Blog Backup</title>";
    py "  <style>";
    py "    body { font-family: " ++ dq ++ py "Segoe UI" ++ dq ++ py ", " ++ dq ++ py "PingFang SC" ++ dq ++ py ", sans-serif; margin: 0; background: #f2f4f8; color: #1f2430; }";
    py "    .wrap { max-width: 960px; margin: 40px auto; padding: 0 24px 40px; }";
    py "    h1 { margin-bottom: 24px; }";
    py "    .grid { display: grid; grid-template-columns: repeat(auto-fit, minmax(280px, 1fr)); gap: 20px; }";
    py "    .card { background: #fff; padding: 20px; border-radius: 14px; box-shadow: 0 8px 18px rgba(20, 26, 38, 0.08); }";
    py "    .card h2 { font-size: 18px; margin: 0 0 10px; }";
    py "    .meta { color: #5c667a; font-size: 13px; margin-bottom: 10px; }";
    py "    .tags { display: flex; flex-wrap: wrap; gap: 6px; }";
    py "    .tag { display: inline-block; padding: 3px 8px; background: #eef1f7; border-radius: 999px; font-size: 12px; color: #4b5563; }";
    py "    a { color: #3366ff; text-decoration: none; }";
    py "  </style>";
    py "</head>";
    py "<body>";
    py "  <div class=" ++ dq ++ py "wrap" ++ dq ++ py ">";
    py "    <h1>新浪博客备份</h1>";
    py "    <div class=" ++ dq ++ py "grid" ++ dq ++ py ">";
    py "      " ++ concat items;
    py "    </div>";
    py "  </div>";
    py "</body>";
    py "</html>"
  ].

(** ** Crawl orchestrator: the file of an article *)

(** [filename] in [main] for the article at position [idx] *)
Definition post_filename (a : article) (idx : N) : pystr := base_name a idx ++ py ".html".

(** The entry that [main] appends to [articles]. *)
Definition index_item (a : article) (idx : N) : item :=
  {| item_title := title a;
     item_published_at := published_at a;
     item_category := category a;
     item_tags := tags a;
     item_file := Py.replace [92] (py "/") (path_join (py "posts") (post_filename a idx)) |}.

(** ** An instance of the libraries

    Small implementations of the collaborators, enough to run the program
    on the pages of the examples: markup with quoted or bare attribute
    values, no character references and no raw-text handling; absolute
    [http] URLs and paths relative to them; SHA-1 in full. No theorem on
    the program depends on them. *)

Module Html.

Inductive token : Type :=
| TText (s : pystr)
| TOpen (name : pystr) (attrs : dict pystr) (closed : bool)
| TClose (name : pystr)
| TComment (s : pystr).

Inductive mode : Type :=
| Text
| Lt
| OpenName
| Attrs (name : pystr) (attrs : dict pystr)
| AttrName (name : pystr) (attrs : dict pystr)
| AttrEq (name : pystr) (attrs : dict pystr) (key : pystr)
| AttrVal (name : pystr) (attrs : dict pystr) (key : pystr) (quote : option N)
| Slash (name : pystr) (attrs : dict pystr)
| CloseName
| Bang
| Comment (dashes : nat).

(** The tokens read so far in reverse, the mode, the characters of the
    piece being read in reverse. *)
Definition lexer : Type := list token * mode * pystr.

Definition flush_text (out : list token) (buf : pystr) : list token :=
  match buf with [] => out | _ => TText (reverse buf) :: out end.

Definition lex_step (st : lexer) (c : N) : lexer :=
  let '(out, m, buf) := st in
  match m with
  | Text => if c =? 60 then (flush_text out buf, Lt, []) else (out, Text, c :: buf)
  | Lt =>
      if c =? 47 then (out, CloseName, [])
      else if c =? 33 then (out, Bang, [])
      else if Re.range 97 122 (Py.lower_char c) then (out, OpenName, [Py.lower_char c])
      else (out, Text, [c; 60])
  | OpenName =>
      if c =? 62 then (TOpen (reverse buf) [] false :: out, Text, [])
      else if c =? 47 then (out, Slash (reverse buf) [], [])
      else if Py.isspace c then (out, Attrs (reverse buf) [], [])
      else (out, OpenName, Py.lower_char c :: buf)
  | Attrs nm a =>
      if c =? 62 then (TOpen nm a false :: out, Text, [])
      else if c =? 47 then (out, Slash nm a, [])
      else if Py.isspace c then (out, Attrs nm a, [])
      else (out, AttrName nm a, [Py.lower_char c])
  | AttrName nm a =>
      if c =? 61 then (out, AttrEq nm a (reverse buf), [])
      else if c =? 62 then (TOpen nm (Dict.set a (reverse buf) []) false :: out, Text, [])
      else if Py.isspace c then (out, Attrs nm (Dict.set a (reverse buf) []), [])
      else (out, AttrName nm a, Py.lower_char c :: buf)
  | AttrEq nm a k =>
      if (c =? 39) || (c =? 34) then (out, AttrVal nm a k (Some c), [])
      else if c =? 62 then (TOpen nm (Dict.set a k []) false :: out, Text, [])
      else (out, AttrVal nm a k None, [c])
  | AttrVal nm a k (Some q) =>
      if c =? q then (out, Attrs nm (Dict.set a k (reverse buf)), [])
      else (out, m, c :: buf)
  | AttrVal nm a k None =>
      if c =? 62 then (TOpen nm (Dict.set a k (reverse buf)) false :: out, Text, [])
      else if Py.isspace c then (out, Attrs nm (Dict.set a k (reverse buf)), [])
      else (out, m, c :: buf)
  | Slash nm a =>
      if c =? 62 then (TOpen nm a true :: out, Text, []) else (out, Attrs nm a, [])
  | CloseName =>
      if c =? 62 then (TClose (Py.strip (reverse buf)) :: out, Text, [])
      else (out, CloseName, Py.lower_char c :: buf)
  | Bang =>
      if c =? 62 then
        match reverse buf with
        | 45 :: 45 :: s => (TComment s :: out, Text, [])
        | _ => (out, Text, [])
        end
      else if (c =? 45) && bool_decide (buf = [45]) then (out, Comment 0, [])
      else (out, Bang, c :: buf)
  | Comment dashes =>
      if (c =? 62) && (2 <=? dashes)%nat
      then (TComment (reverse (drop 2 buf)) :: out, Text, [])
      else (out, Comment (if c =? 45 then S dashes else O), c :: buf)
  end.

Definition lex (s : pystr) : list token :=
  let '(out, m, buf) := fold_left lex_step s ([], Text, []) in
  reverse (match m with Text => flush_text out buf | _ => out end).

Definition VOID : list pystr :=
  [py "area"; py "base"; py "br"; py "col"; py "embed"; py "hr"; py "img"; py "input";
   py "link"; py "meta"; py "param"; py "source"; py "track"; py "wbr"].

(** An open tag: its name, attributes and children so far, in reverse. *)
Definition frame : Type := pystr * dict pystr * list node.

Definition add_child (n : node) (f : frame) : frame :=
  let '(nm, a, cs) := f in (nm, a, n :: cs).

Definition close_frame (f : frame) : node :=
  let '(nm, a, cs) := f in Tag nm a (reverse cs).

(** Close the innermost frame into its parent. *)
Definition pop (top : frame) (stack : list frame) : frame * list frame :=
  match stack with
  | [] => (top, [])
  | parent :: rest => (add_child (close_frame top) parent, rest)
  end.

Fixpoint pop_to (nm : pystr) (top : frame) (stack : list frame) : frame * list frame :=
  match stack with
  | [] => (top, [])
  | parent :: rest =>
      if Py.eqb top.1.1 nm then pop top stack
      else pop_to nm (add_child (close_frame top) parent) rest
  end.

Definition kind_in (nm : pystr) : strkind :=
  if Py.eqb nm (py "script") then KScript
  else if Py.eqb nm (py "style") then KStylesheet
  else if Py.eqb nm (py "template") then KTemplate
  else KText.

Definition build_step (st : frame * list frame) (t : token) : frame * list frame :=
  let '(top, stack) := st in
  match t with
  | TText s => (add_child (Str (kind_in top.1.1) s) top, stack)
  | TComment s => (add_child (Str KComment s) top, stack)
  | TOpen nm a closed =>
      if closed || bool_decide (nm ∈ VOID) then (add_child (Tag nm a []) top, stack)
      else ((nm, a, []), top :: stack)
  | TClose nm =>
      if existsb (fun f : frame => Py.eqb f.1.1 nm) (removelast (top :: stack))
      then pop_to nm top stack else st
  end.

Fixpoint close_all (top : frame) (stack : list frame) : node :=
  match stack with
  | [] => close_frame top
  | parent :: rest => close_all (add_child (close_frame top) parent) rest
  end.

Definition parse (s : pystr) : node :=
  let '(top, stack) := fold_left build_step (lex s) ((py "[document]", [], []), []) in
  close_all top stack.

(** Serialization *)

Definition escape (quote : bool) (s : pystr) : pystr :=
  s ≫= (fun c => if c =? 38 then py "&amp;" else if c =? 60 then py "&lt;"
                 else if c =? 62 then py "&gt;"
                 else if quote && (c =? 34) then py "&quot;" else [c]).

Definition attr_str (kv : pystr * pystr) : pystr :=
  [32] ++ kv.1 ++ [61; 34] ++ escape true kv.2 ++ [34].

Fixpoint to_str (n : node) : pystr :=
  match n with
  | Str KComment s => py "<!--" ++ s ++ py "-->"
  | Str (KScript | KStylesheet) s => s
  | Str _ s => escape false s
  | Tag nm a cs =>
      let inner := (fix go (l : list node) : pystr :=
                      match l with [] => [] | c :: l' => to_str c ++ go l' end) cs in
      if Py.eqb nm (py "[document]") then inner
      else if bool_decide (nm ∈ VOID) then [60] ++ nm ++ (a ≫= attr_str) ++ py "/>"
      else [60] ++ nm ++ (a ≫= attr_str) ++ [62] ++ inner ++ py "</" ++ nm ++ [62]
  end.

End Html.

(** [requests.utils.get_encodings_from_content]: the groups found by the
    patterns for a [meta] charset, a [meta] pragma and an XML declaration,
    in this order. *)
Module Sniff.

Definition dot : N -> bool := Re.non (Re.one 10).
Definition quotes : Re.t := Re.star (Re.among [34; 39]).
Definition tail : Re.t :=
  Re.Seq (Re.Grp (Re.Lazy dot 1)) (Re.Chr (Re.among [34; 39; 62])).

Definition charset_re : Re.t :=
  Re.seqs [Re.lit_ci (py "<meta"); Re.Lazy (Re.ci dot) 0; Re.lit_ci (py "charset=");
           quotes; tail].

Definition pragma_re : Re.t :=
  Re.seqs [Re.lit_ci (py "<meta"); Re.Lazy (Re.ci dot) 0; Re.lit_ci (py "content=");
           quotes; Re.Opt (Re.Chr (Re.one 59)); Re.lit_ci (py "charset="); tail].

Definition xml_re : Re.t :=
  Re.seqs [Re.lit (py "<?xml"); Re.Lazy dot 0; Re.lit (py "encoding="); quotes; tail].

Definition encodings (content : pystr) : list pystr :=
  Re.findall charset_re content ++ Re.findall pragma_re content
  ++ match Re.match_at xml_re content with
     | Some (g, _) => [default [] (head g)]
     | None => []
     end.

End Sniff.

Module Url.

Fixpoint find_sub (p s : pystr) : option nat :=
  if Py.startswith p s then Some O
  else match s with
       | [] => None
       | _ :: s' => S <$> find_sub p s'
       end.

Fixpoint until (stop : N -> bool) (s : pystr) : pystr :=
  match s with
  | [] => []
  | c :: s' => if stop c then [] else c :: until stop s'
  end.

(** The scheme with [://] and the host, and what follows them. *)
Definition split_origin (url : pystr) : pystr * pystr :=
  match find_sub (py "://") url with
  | Some i =>
      let host := until (Re.among (py "/?#")) (drop (i + 3) url) in
      (take (i + 3 + length host) url, drop (i + 3 + length host) url)
  | None => ([], url)
  end.

(** [urlparse(url).path] *)
Definition path (url : pystr) : pystr :=
  let p := until (Re.among (py "?#")) (split_origin url).2 in
  let seg := (after_last 47 p).1 in
  take (length p - length seg) p ++ until (Re.one 59) seg.

(** [urljoin(base, ref)] for references without dot segments *)
Definition join (base ref : pystr) : pystr :=
  let '(origin, rest) := split_origin base in
  if bool_decide (is_Some (find_sub (py "://") ref)) then ref
  else if Py.startswith (py "//") ref then until (Re.one 47) origin ++ ref
  else if Py.startswith (py "/") ref then origin ++ ref
  else if negb (Py.truthy ref) then base
  else
    let p := until (Re.among (py "?#")) rest in
    let seg := (after_last 47 p).1 in
    origin ++ (if Py.truthy p then take (length p - length seg) p else py "/") ++ ref.

End Url.

Module Sha1.

Definition mask (x : N) : N := N.land x 4294967295.
Definition add (x y : N) : N := mask (x + y).
Definition rotl (n x : N) : N := mask (N.lor (N.shiftl x n) (N.shiftr x (32 - n))).

(** UTF-8 *)
Definition encode_char (c : N) : list N :=
  if c <? 128 then [c]
  else if c <? 2048 then [192 + c / 64; 128 + c mod 64]
  else if c <? 65536 then [224 + c / 4096; 128 + (c / 64) mod 64; 128 + c mod 64]
  else [240 + c / 262144; 128 + (c / 4096) mod 64; 128 + (c / 64) mod 64; 128 + c mod 64].

Definition encode (s : pystr) : list N := s ≫= encode_char.

Definition be (width : nat) (x : N) : list N :=
  (fun i => N.land (N.shiftr x (8 * N.of_nat i)) 255) <$> reverse (seq 0 width).

Definition pad (msg : list N) : list N :=
  let len := length msg in
  msg ++ [128] ++ replicate ((119 - len mod 64) mod 64) 0 ++ be 8 (8 * N.of_nat len).

Fixpoint words (fuel : nat) (bs : list N) : list N :=
  match fuel, bs with
  | S f, a :: b :: c :: d :: r => (((a * 256 + b) * 256 + c) * 256 + d) :: words f r
  | _, _ => []
  end.

(** The message schedule, the latest word first. *)
Fixpoint schedule (n : nat) (w : list N) : list N :=
  match n with
  | O => w
  | S n' =>
      let x i := default 0 (w !! i) in
      schedule n' (rotl 1 (N.lxor (N.lxor (x 2%nat) (x 7%nat))
                             (N.lxor (x 13%nat) (x 15%nat))) :: w)
  end.

Definition state : Type := N * N * N * N * N.

Definition round (st : state) (tw : nat * N) : state :=
  let '(a, b, c, d, e) := st in
  let '(t, w) := tw in
  let '(f, k) :=
    if (t <? 20)%nat then (N.lor (N.land b c) (N.land (N.lxor b 4294967295) d), 1518500249)
    else if (t <? 40)%nat then (N.lxor (N.lxor b c) d, 1859775393)
    else if (t <? 60)%nat
    then (N.lor (N.lor (N.land b c) (N.land b d)) (N.land c d), 2400959708)
    else (N.lxor (N.lxor b c) d, 3395469782) in
  (add (add (add (add (rotl 5 a) f) e) k) w, a, rotl 30 b, c, d).

Definition block (h : state) (ws : list N) : state :=
  let w := reverse (schedule 64 (reverse ws)) in
  let '(a, b, c, d, e) := fold_left round (zip (seq 0 80) w) h in
  let '(h0, h1, h2, h3, h4) := h in
  (add h0 a, add h1 b, add h2 c, add h3 d, add h4 e).

Fixpoint blocks (fuel : nat) (h : state) (ws : list N) : state :=
  match fuel, ws with
  | S f, _ :: _ => blocks f (block h (take 16 ws)) (drop 16 ws)
  | _, _ => h
  end.

Definition hex_digit (x : N) : N := if x <? 10 then 48 + x else 87 + x.

Definition hex32 (x : N) : pystr :=
  (fun i => hex_digit (N.land (N.shiftr x (4 * N.of_nat i)) 15)) <$> reverse (seq 0 8).

Definition hexdigest (s : pystr) : pystr :=
  let bytes := pad (encode s) in
  let ws := words (length bytes) bytes in
  let '(h0, h1, h2, h3, h4) :=
    blocks (length ws) (1732584193, 4023233417, 2562383102, 271733878, 3285377520) ws in
  hex32 h0 ++ hex32 h1 ++ hex32 h2 ++ hex32 h3 ++ hex32 h4.

End Sha1.

Definition reference_library : Library := {|
  select := Css.select;
  selector_ok := fun s => bool_decide (is_Some (Css.parse s));
  html_parse := Html.parse;
  html_str := Html.to_str;
  get_encodings_from_content := Sniff.encodings;
  detect_encoding := fun _ => None;
  re_search := Py.contains;
  urljoin := Url.join;
  urlparse_path := Url.path;
  sha1_hexdigest := Sha1.hexdigest;
  decode_text := fun _ bs => Py.utf8 (Byte.to_N <$> bs);
  set_iter := fun _ links => elements links;
  set_iter_perm := fun _ links => Permutation_refl (elements links)
|}.

(** ** The resolver as the specification words it

    The candidates of the fallback chain in their order: the [charset=]
    marker in the window of 4096 bytes, the encodings sniffed from the same
    window, the statistical guess over the whole content. The first one
    present wins, and the fixed default stands when there is none. *)

Definition first_present (candidates : list (option pystr)) (fallback : pystr) : pystr :=
  default fallback (head (omap id candidates)).

Definition nonempty (s : pystr) : option pystr :=
  if Py.truthy s then Some s else None.

Definition resolved_encoding `{Library} (r : response) : pystr :=
  let window := decode_ascii_ignore (take 4096 (content r)) in
  first_present
    [Re.group1 <$> Re.search CHARSET_RE window;
     head (get_encodings_from_content window);
     detect_encoding (content r) ≫= nonempty]
    (py "utf-8").

(** ** Trees without a given kind of tag

    [clear p n]: no tag below [n] satisfies [p]. *)

Inductive clear (p : node -> bool) : node -> Prop :=
| clear_str k s : clear p (Str k s)
| clear_tag nm a cs :
    Forall (fun c => p c = false ∧ clear p c) cs → clear p (Tag nm a cs).

(** A test that reads the name and the attributes of a tag only. *)
Definition shallow (p : node -> bool) : Prop :=
  ∀ nm a cs cs', p (Tag nm a cs) = p (Tag nm a cs').

(** ** The first test of [is_tag_block] on its own: the class attribute
    contains the tag-list marker. *)
Definition has_tag_marker (n : node) : bool :=
  Py.contains (py "articalTag") (Py.join (py " ") (Bs.get_class n)).

(** The visible-text length by which the last resort ranks a candidate. *)
Definition text_length (n : node) : nat := length (Bs.get_text (py " ") n).

(** ** Pages of the examples *)

(** A short ordinary block and a longer block that holds a tag list. *)
Definition tag_list_page : node :=
  Html.parse (py "<div>hello</div><div><span class='blog_tag'>news</span> and more words</div>").

Definition tag_list_div : node :=
  Tag (py "div") []
    [Tag (py "span") [(py "class", py "blog_tag")] [Str KText (py "news")];
     Str KText (py " and more words")].

(** A block that carries the tag-list marker, and a selector of the
    configuration that names it. *)
Definition marked_page : node := Html.parse (py "<div class='articalTag'>x</div>").

Definition marked_div : node :=
  Tag (py "div") [(py "class", py "articalTag")] [Str KText (py "x")].

(** A post with a heading, a title and an empty [og:title]. *)
Definition post_page : node :=
  Html.parse (py "<html><head><title>My Trip - 新浪博客</title><meta property='og:title'></head><body><h1>Hello</h1><h2 class='titName'> </h2><div class='articalContent'><p>Text</p></div></body></html>").

(** ** The listing pages the first loop of [main] went through

    The link sets of the pages fetched and scanned, in order, the page that
    ended the loop for want of a new link included. Pages after the one
    that ended the loop are never requested. *)
Fixpoint visited `{Library} (get : session) (list_url : nat -> pystr) (cfg : config)
    (pages : list nat) (seen : gset pystr) : list (gset pystr) :=
  match pages with
  | [] => []
  | page :: rest =>
      match fetch_text get (list_url page) with
      | None => []
      | Some html_text =>
          let links := extract_article_links html_text (list_url page) cfg in
          let new_links := filter (fun link => link ∉ seen) (elements links) in
          links ::
            match new_links with
            | [] => []
            | _ => visited get list_url cfg rest
                     (foldl (fun s link => {[link]} ∪ s) seen new_links)
            end
      end
  end.

(** ** The local name of an image *)

(** [file_path] and [rel_path] in [download_images], by absolute URL. *)
Definition file_path_of `{Library} (images_dir full_url : pystr) : pystr :=
  path_join images_dir (image_filename full_url).

Definition local_path `{Library} (full_url : pystr) : pystr :=
  Py.replace [92] (py "/") (path_join (py "images") (image_filename full_url)).

(** What the loop of [download_images] maintains: a URL in the cache is
    mapped to its local path, and its file is on disk. *)
Definition backed `{Library} (images_dir : pystr) (st : loop_state) : Prop :=
  ∀ u p, st_cache st !! u = Some p →
         p = local_path u ∧ path_exists (st_world st) (file_path_of images_dir u) = true.

(** The files of [w] are still there in [w']. *)
Definition files_kept (w w' : world) : Prop :=
  ∀ path, path_exists w path = true → path_exists w' path = true.

(** An image tag of the examples and a server that answers every request. *)
Definition remote_img : node := Tag (py "img") [(py "src", py "pic/a.jpg")] [].

Definition always_ok : session := fun _ => Some (Response None []).

Definition never_ok : session := fun _ => None.

Definition empty_state : loop_state := LoopState (World ∅ []) ∅.

(** ** What one strategy extracts, as the specification words it

    A metadata reference resolves through the [property] or [name]
    attribute of a [meta] tag and reads its [content]; any other entry is
    a structural query whose first match gives its visible text. An entry
    that finds nothing extracts the empty text. *)
Definition extraction `{Library} (soup : node) (sel : pystr) : pystr :=
  if Py.startswith (py "meta:") sel
  then match find_meta soup (meta_prop sel) with
       | Some n => Py.strip (default [] (Bs.get n (py "content")))
       | None => []
       end
  else match select_one sel soup with
       | Some n => Bs.get_text (py " ") n
       | None => []
       end.

(** The state after one turn of the loop of [download_images]. *)
Definition turn `{Library} (get : session) (article_url images_dir : pystr)
    (st : loop_state) (img : node) : loop_state :=
  (localize_img get article_url images_dir st img).1.

(** ** What the renderers and the localizer are measured by *)

(** The absolute URLs of the images of a page that name a source, one
    for each [img] tag, in document order. *)
Definition image_urls `{Library} (article_url : pystr) (soup : node) : list pystr :=
  (fun img => urljoin article_url (img_src img))
    <$> filter (fun img => Py.truthy (img_src img) = true) (Bs.find_all is_img soup).

(** The characters that [html.escape] replaces, the ampersand apart: the
    angle brackets and the two quotes. *)
Definition MARKUP : list N := [60; 62; 34; 39].

(** How often a character occurs in a string. *)
Definition occurrences (c : N) (s : list N) : nat := length (filter (fun x => x = c) s).

(** ** Pages and sites of the further examples *)

(** A page whose only block is a side bar. *)
Definition noise_page : node := Html.parse (py "<div id='sidebar'>x</div>").

(** The bytes of an ASCII text. *)
Definition ascii_bytes (s : pystr) : list Byte.byte :=
  (fun c => default Byte.x00 (Byte.of_N c)) <$> s.

(** A site with one listing page, which links to one article and to the
    home page. *)
Definition listing_url (page : nat) : pystr :=
  py "http://blog.sina.com.cn/s/articlelist_1_0_" ++ Py.digits (N.of_nat page) ++ py ".html".

Definition listing_site : session := fun u =>
  if Py.eqb u (listing_url 1)
  then Some (Response (Some (py "utf-8"))
               (ascii_bytes (py "<a href='/s/blog_4a6c545e0100abcd.html'>one</a><a href='/'>home</a>")))
  else None.

(** A world with one image file on disk. *)
Definition one_file_world : world :=
  World {[ py "output/images/old.jpg" := ascii_bytes (py "old") ]} [].

(** Two articles of the same shape, one with markup in every text field. *)
Definition hostile_article : article :=
  Article (py "<script>alert('x')</script>") (py "2020-01-02 <b>") (py "a>b")
    [py "<i>"; py "'q'"] (py "http://blog.sina.com.cn/s/blog_1.html?a='<'")
    (py "<p>Text</p>").

Definition plain_article : article :=
  Article (py "My Trip") (py "2020-01-02") (py "travel")
    [py "sea"; py "sun"] (py "http://blog.sina.com.cn/s/blog_1.html")
    (py "<p>Text</p>").

(** ** What a pattern accepts

    [accepts r s g g' s']: the pattern [r] can read a prefix of [s] and
    leave [s'], taking the groups captured so far from [g] to [g']. *)
Inductive accepts : Re.t -> pystr -> list pystr -> list pystr -> pystr -> Prop :=
| acc_eps s g : accepts Re.Eps s g g s
| acc_chr p c s g : p c = true -> accepts (Re.Chr p) (c :: s) g g s
| acc_rep p lo hi m s g :
    Forall (fun c => p c = true) m -> (lo <= length m)%nat ->
    (forall h, hi = Some h -> (length m <= h)%nat) ->
    accepts (Re.Rep p lo hi) (m ++ s) g g s
| acc_lazy p lo m s g :
    Forall (fun c => p c = true) m -> (lo <= length m)%nat ->
    accepts (Re.Lazy p lo) (m ++ s) g g s
| acc_seq r1 r2 s g s1 g1 s2 g2 :
    accepts r1 s g g1 s1 -> accepts r2 s1 g1 g2 s2 -> accepts (Re.Seq r1 r2) s g g2 s2
| acc_alt_l r1 r2 s g g' s' : accepts r1 s g g' s' -> accepts (Re.Alt r1 r2) s g g' s'
| acc_alt_r r1 r2 s g g' s' : accepts r2 s g g' s' -> accepts (Re.Alt r1 r2) s g g' s'
| acc_opt_some r s g g' s' : accepts r s g g' s' -> accepts (Re.Opt r) s g g' s'
| acc_opt_none r s g : accepts (Re.Opt r) s g g s
| acc_grp r s g g' s' :
    accepts r s g g' s' ->
    accepts (Re.Grp r) s g (g' ++ [take (length s - length s') s]) s'.

(** A string that neither begins nor ends with white space. *)
Definition trimmed (s : pystr) : Prop := Py.strip s = s.


(** An article without a title. *)
Definition untitled_article : article :=
  Article (py "  ") (py "2020-01-02") [] [] (py "http://blog.sina.com.cn/s/blog_2.html") [].

(** An order of iteration of the link sets: for every page some order of
    the elements. *)
Definition iterates (iter : nat -> gset pystr -> list pystr) : Prop :=
  ∀ page links, iter page links ≡ₚ elements links.

(** ** Configurations the selector engine can read *)







(** A site with one listing page of two articles, and the order of
    iteration that is the reverse of [elements]. *)
Definition two_link_site : session := fun u =>
  if Py.eqb u (listing_url 1)
  then Some (Response (Some (py "utf-8"))
               (ascii_bytes (py "<a href='/s/blog_aa.html'>a</a><a href='/s/blog_bb.html'>b</a>")))
  else None.

Definition backwards : nat -> gset pystr -> list pystr :=
  fun _ links => reverse (elements links).

(** * Properties *)

(** ** Strings and patterns *)

Lemma truthy_false (s : pystr) : Py.truthy s = false ↔ s = [].
Proof. destruct s; simpl; split; congruence. Qed.

Lemma truthy_true (s : pystr) : Py.truthy s = true ↔ s ≠ [].
Proof. destruct s; simpl; split; congruence. Qed.

Lemma or_else_nil (a b : pystr) : Py.or_else a b = [] ↔ a = [] ∧ b = [].
Proof.
  unfold Py.or_else. destruct a as [|c a]; simpl.
  - split; [intros ->; done | intros [_ ->]; done].
  - split; [discriminate | intros [? _]; discriminate].
Qed.

Lemma startswith_app (p s : pystr) :
  Py.startswith p s = true ↔ ∃ rest, s = p ++ rest.
Proof.
  revert s. induction p as [|a p IH]; intros s; simpl.
  - split; [eauto | done].
  - destruct s as [|b s].
    + split; [discriminate | intros [rest Hr]; discriminate].
    + rewrite andb_true_iff, N.eqb_eq, IH. split.
      * intros [-> [rest ->]]. eauto.
      * intros [rest Hr]. injection Hr as -> ->. eauto.
Qed.

Lemma contains_spec (p s : pystr) :
  Py.contains p s = true ↔ ∃ pre rest, s = pre ++ p ++ rest.
Proof.
  induction s as [|c s IH]; simpl.
  - rewrite orb_false_r, startswith_app. split.
    + intros [rest Hr]. exists [], rest. done.
    + intros (pre & rest & Hs). destruct pre; [|discriminate]. eauto.
  - rewrite orb_true_iff, startswith_app, IH. split.
    + intros [[rest Hr] | (pre & rest & ->)].
      * exists [], rest. done.
      * exists (c :: pre), rest. done.
    + intros (pre & rest & Hs). destruct pre as [|c' pre]; simpl in Hs.
      * left. eauto.
      * right. injection Hs as -> ->. eauto.
Qed.

(** A literal matches only where the input starts with it. *)
Lemma run_lit (p s : pystr) g k x :
  Re.run (Re.lit p) s g k = Some x →
  Py.startswith p s = true ∧ k g (drop (length p) s) = Some x.
Proof.
  revert s. induction p as [|a p IH]; intros s; simpl.
  - done.
  - destruct s as [|b s]; [discriminate|].
    unfold Re.one at 1. destruct (N.eqb_spec a b) as [->|Hne]; [|discriminate].
    intros Hrun. apply IH in Hrun as [Hs Hk].
    simpl. by rewrite Hs.
Qed.

(** ... and it does match there. *)
Lemma run_lit_startswith (p s : pystr) g k :
  Py.startswith p s = true → Re.run (Re.lit p) s g k = k g (drop (length p) s).
Proof.
  revert s. induction p as [|a p IH]; intros s; simpl; [done|].
  destruct s as [|b s]; [discriminate|].
  rewrite andb_true_iff, N.eqb_eq. intros [-> Hs].
  unfold Re.one at 1. rewrite N.eqb_refl. by apply IH.
Qed.

Lemma match_seqs_lit (p : pystr) (rs : list Re.t) (s : pystr) :
  is_Some (Re.match_at (Re.seqs (Re.lit p :: rs)) s) → Py.startswith p s = true.
Proof.
  intros [x Hx]. unfold Re.match_at, Re.seqs in Hx. simpl in Hx.
  by apply run_lit in Hx as [Hs _].
Qed.

(** [re.search] succeeds exactly when a match starts at some suffix. *)
Lemma search_from_some (r : Re.t) (i : nat) (s : pystr) :
  is_Some (Re.search_from r i s) ↔ ∃ pre rest, s = pre ++ rest ∧ is_Some (Re.match_at r rest).
Proof.
  revert i. induction s as [|c s IH]; intros i; simpl.
  - destruct (Re.match_at r []) as [[g rest]|] eqn:Hm.
    + split; [|eauto]. intros _. exists [], []. rewrite Hm. eauto.
    + split; [intros [? ?]; discriminate|].
      intros (pre & rest & Hs & Hr). symmetry in Hs. apply app_eq_nil in Hs as [_ ->].
      rewrite Hm in Hr. done.
  - destruct (Re.match_at r (c :: s)) as [[g rest]|] eqn:Hm.
    + split; [|eauto]. intros _. exists [], (c :: s). rewrite Hm. eauto.
    + rewrite IH. split.
      * intros (pre & rest & -> & Hr). exists (c :: pre), rest. done.
      * intros (pre & rest & Hs & Hr). destruct pre as [|c' pre]; simpl in Hs.
        -- subst rest. rewrite Hm in Hr. by destruct Hr.
        -- injection Hs as -> ->. eauto.
Qed.

Lemma test_true (r : Re.t) (s : pystr) :
  Re.test r s = true ↔ ∃ pre rest, s = pre ++ rest ∧ is_Some (Re.match_at r rest).
Proof.
  unfold Re.test, Re.search. rewrite bool_decide_eq_true. apply search_from_some.
Qed.

(** ** Link discovery: the pattern of last resort adds nothing *)

Lemma article_re_has_path (url : pystr) :
  Re.test ARTICLE_RE url = true → Py.contains ARTICLE_PATH url = true.
Proof.
  rewrite test_true. intros (pre & rest & -> & Hx).
  unfold ARTICLE_RE in Hx. apply match_seqs_lit in Hx.
  apply startswith_app in Hx as [tl ->].
  apply contains_spec. exists pre, tl. done.
Qed.

(** C10. With no pattern configured ([None], or the empty string the
    caller passes by default), [is_article_url] is the test for the
    substring [blog.sina.com.cn/s/blog_]: every URL the final pattern
    accepts contains that substring, so that branch never accepts a URL
    the substring test rejected. *)
Theorem is_article_url_default `{Library} (url : pystr) :
  is_article_url url None = Py.contains ARTICLE_PATH url
  ∧ is_article_url url (Some []) = Py.contains ARTICLE_PATH url
  ∧ (Re.test ARTICLE_RE url = true → Py.contains ARTICLE_PATH url = true).
Proof.
  assert (Hd : ∀ o, Py.truthy (default [] o) = false →
                    is_article_url url o = Py.contains ARTICLE_PATH url).
  { intros o Ho. unfold is_article_url. rewrite Ho.
    destruct (Py.contains ARTICLE_PATH url) eqn:Hc; [done|].
    destruct (Re.test ARTICLE_RE url) eqn:Ht; [|done].
    apply article_re_has_path in Ht. congruence. }
  split; [by apply Hd|]. split; [by apply Hd|]. apply article_re_has_path.
Qed.

(** ** Encoding resolver *)

Lemma declared_spec (r : response) :
  declared r = true ↔
  ∃ e, encoding r = Some e ∧ e ≠ [] ∧ Py.lower e ≠ py "iso-8859-1".
Proof.
  unfold declared. destruct (encoding r) as [e|].
  - rewrite andb_true_iff, truthy_true, negb_true_iff. unfold Py.eqb.
    rewrite bool_decide_eq_false. split.
    + intros [? ?]. eauto.
    + intros (e' & [= <-] & ? & ?). done.
  - split; [discriminate | intros (e & ? & _); discriminate].
Qed.

(** C3. [normalize_encoding] keeps a declared encoding that is not
    [iso-8859-1] in any letter case; otherwise it assigns the first
    candidate present among the [charset=] marker in the first 4096 bytes
    decoded as ASCII without the other bytes, the encodings sniffed in that
    window, and the statistical guess over the full content, and [utf-8]
    when there is none. It always leaves exactly one encoding assigned, and
    the content as it was. *)
Theorem normalize_encoding_chain `{Library} (r : response) :
  normalize_encoding r
    = (if declared r then r else Response (Some (resolved_encoding r)) (content r))
  ∧ is_Some (encoding (normalize_encoding r))
  ∧ content (normalize_encoding r) = content r.
Proof.
  assert (Heq : normalize_encoding r
    = (if declared r then r else Response (Some (resolved_encoding r)) (content r))).
  { unfold normalize_encoding, resolved_encoding, first_present, apparent_or_default.
    destruct (declared r); [done|].
    destruct (Re.search CHARSET_RE _) as [m|]; simpl; [done|].
    destruct (get_encodings_from_content _) as [|e es]; simpl; [|done].
    destruct (detect_encoding (content r)) as [e|]; simpl; [|done].
    unfold nonempty, Py.or_else. by destruct (Py.truthy e). }
  rewrite Heq. destruct (declared r) eqn:Hd; simpl.
  - apply declared_spec in Hd as (e & -> & _). eauto.
  - eauto.
Qed.

(** The example of the specification: no declared encoding and
    [charset=gb2312] in the body. *)
Example normalize_encoding_gb2312 `{Library} :
  encoding (normalize_encoding
              (Response None (list_byte_of_string "<html><meta content='text/html; charset=gb2312'>")))
  = Some (py "gb2312").
Proof. reflexivity. Qed.

(** ** File names *)

(** C8. The two examples of the specification: the date of
    [2014-03-02 10:00] becomes the stamp [20140302] before the title, at
    any position and whatever the other fields; a date that cannot be read
    and an empty title give the positional name alone. *)
Theorem base_name_examples :
  (∀ cat tgs link body idx,
     base_name (Article (py "My Trip") (py "2014-03-02 10:00") cat tgs link body) idx
     = py "20140302_My Trip")
  ∧ (∀ cat tgs link body,
       base_name (Article [] (py "未知") cat tgs link body) 7 = py "post_0007")
  ∧ date_part (py "2014-03-02 10:00") = py "20140302"
  ∧ date_part (py "未知") = []
  ∧ safe_filename (py " a/b:  c*? ") (py "post_0001") = py "a_b_ c__".
Proof. repeat split; intros; vm_compute; reflexivity. Qed.

(** ** Content sanitizer *)

(** Induction on a page, with the property known for the children. *)
Lemma node_induction (P : node → Prop) :
  (∀ k s, P (Str k s)) →
  (∀ nm a cs, Forall P cs → P (Tag nm a cs)) →
  ∀ n, P n.
Proof.
  intros Hstr Htag. fix IH 1. intros [k s|nm a cs].
  - apply Hstr.
  - apply Htag. induction cs as [|c cs IHcs]; constructor; [apply IH | apply IHcs].
Qed.

Lemma decompose_all_tag (p : node → bool) nm a cs :
  decompose_all p (Tag nm a cs)
  = Tag nm a (decompose_all p <$> filter (fun c => p c = false) cs).
Proof.
  simpl. f_equal. induction cs as [|c cs IH]; [done|].
  rewrite filter_cons. destruct (p c) eqn:Hp.
  - rewrite decide_False by done. apply IH.
  - rewrite decide_True by done. rewrite fmap_cons. by rewrite IH.
Qed.

Lemma shallow_decompose (p q : node → bool) (n : node) :
  shallow p → p (decompose_all q n) = p n.
Proof.
  intros Hp. destruct n as [k s|nm a cs]; [done|].
  rewrite decompose_all_tag. apply Hp.
Qed.

(** After [decompose_all p] no tag that satisfies [p] is left. *)
Lemma decompose_all_clear (p : node → bool) :
  shallow p → ∀ n, clear p (decompose_all p n).
Proof.
  intros Hp. induction n as [k s|nm a cs IH] using node_induction.
  - constructor.
  - rewrite decompose_all_tag. constructor.
    induction cs as [|c cs IHcs]; [constructor|].
    apply Forall_cons in IH as [Hc Hcs].
    rewrite filter_cons. destruct (decide (p c = false)) as [Hpc|Hpc]; [|by apply IHcs].
    rewrite fmap_cons. constructor; [|by apply IHcs].
    split; [|done]. by rewrite shallow_decompose.
Qed.

(** Removing other tags keeps a tree clear. *)
Lemma clear_decompose (p q : node → bool) :
  shallow p → ∀ n, clear p n → clear p (decompose_all q n).
Proof.
  intros Hp. induction n as [k s|nm a cs IH] using node_induction; intros Hn.
  - constructor.
  - rewrite decompose_all_tag. constructor. inversion_clear Hn as [|? ? ? Hcs].
    induction cs as [|c cs IHcs]; [constructor|].
    apply Forall_cons in IH as [IHc IH]. apply Forall_cons in Hcs as [[Hpc Hc] Hcs].
    rewrite filter_cons. destruct (decide (q c = false)); [|by apply IHcs].
    rewrite fmap_cons. constructor; [|by apply IHcs].
    split; [by rewrite shallow_decompose | by apply IHc].
Qed.

(** On a clear tree there is nothing to remove. *)
Lemma decompose_all_id (p : node → bool) :
  ∀ n, clear p n → decompose_all p n = n.
Proof.
  induction n as [k s|nm a cs IH] using node_induction; intros Hn; [done|].
  rewrite decompose_all_tag. f_equal. inversion_clear Hn as [|? ? ? Hcs].
  induction cs as [|c cs IHcs]; [done|].
  apply Forall_cons in IH as [IHc IH]. apply Forall_cons in Hcs as [[Hpc Hc] Hcs].
  rewrite filter_cons, decide_True by done.
  rewrite fmap_cons. f_equal; [by apply IHc | by apply IHcs].
Qed.

Lemma is_script_tag_shallow : shallow is_script_tag.
Proof. intros nm a cs cs'. reflexivity. Qed.

Lemma selected_by_shallow (s : pystr) : shallow (selected_by s).
Proof.
  intros nm a cs cs'. unfold selected_by. destruct (Css.parse s) as [sel|]; [|done].
  unfold Css.matches. induction sel as [|cx sel IH]; [done|].
  simpl. rewrite IH. f_equal.
Qed.

Lemma descendants_tag nm a cs :
  Bs.descendants (Tag nm a cs)
  = cs ≫= (fun c => (if Bs.is_tag c then [c] else []) ++ Bs.descendants c).
Proof.
  simpl. induction cs as [|c cs IH]; [done|].
  rewrite bind_cons, IH. by rewrite <- app_assoc.
Qed.

(** No selector matches a string of the page. *)
Lemma matches_str (sel : Css.selector) (anc : list node) k s :
  Css.matches sel anc (Str k s) = false.
Proof.
  unfold Css.matches. induction sel as [|cx sel IH]; [done|].
  simpl. rewrite IH. unfold Css.matches_complex. by destruct (reverse cx).
Qed.

(** On a clear tree [find_all] finds nothing. *)
Lemma clear_find_all (p : node → bool) (n : node) :
  clear p n → Bs.find_all p n = [].
Proof.
  unfold Bs.find_all. induction n as [k s|nm a cs IH] using node_induction; intros Hn; [done|].
  rewrite descendants_tag. inversion_clear Hn as [|? ? ? Hcs].
  induction cs as [|c cs IHcs]; [done|].
  apply Forall_cons in IH as [IHc IH]. apply Forall_cons in Hcs as [[Hpc Hc] Hcs].
  rewrite bind_cons, !filter_app, IHc, IHcs by done.
  destruct (Bs.is_tag c); [|done].
  rewrite filter_cons, decide_False by congruence. done.
Qed.

(** A selector whose match does not depend on the ancestors selects the
    tags [find_all] finds with the same test. *)
Lemma select_below_find_all (sel : Css.selector) (n : node) :
  (∀ anc c, Css.matches sel anc c = Css.matches sel [] c) →
  ∀ anc, Css.select_below sel anc n
         = Bs.find_all (fun d => Css.matches sel [] d) n.
Proof.
  intros Hflat. unfold Bs.find_all.
  induction n as [k s|nm a cs IH] using node_induction; intros anc; [done|].
  rewrite descendants_tag. cbn [Css.select_below].
  induction cs as [|c cs IHcs]; [done|].
  apply Forall_cons in IH as [IHc IH].
  rewrite bind_cons, !filter_app, <- app_assoc.
  rewrite (IHc (c :: anc)), Hflat, (IHcs IH). f_equal.
  destruct c as [k s|nm' a' cs']; cbn [Bs.is_tag].
  - by rewrite matches_str.
  - rewrite filter_cons, filter_nil.
    destruct (Css.matches sel [] (Tag nm' a' cs')) eqn:Hm.
    + by rewrite decide_True by done.
    + by rewrite decide_False by (by intros ?).
Qed.

(** The match of a selector without combinators does not depend on the
    ancestors. *)
Lemma matches_flat (sel : Css.selector) :
  Forall (fun cx => length cx = 1%nat) sel →
  ∀ anc c, Css.matches sel anc c = Css.matches sel [] c.
Proof.
  intros Hsel anc c. unfold Css.matches.
  induction Hsel as [|cx sel Hcx Hsel IH]; [done|].
  simpl. rewrite IH. f_equal.
  destruct cx as [|cmp [|? ?]]; try discriminate. done.
Qed.

Lemma parse_clean_selector : Css.parse CLEAN_SELECTOR = Some CLEAN_PARSED.
Proof. vm_compute. reflexivity. Qed.

(** [node.select(CLEAN_SELECTOR)] lists the tags below the node that
    [selected_by CLEAN_SELECTOR] accepts, which are those [clean_content]
    removes in its second loop. *)
Lemma select_clean_selector (n : node) :
  Css.select CLEAN_SELECTOR n = Bs.find_all (selected_by CLEAN_SELECTOR) n.
Proof.
  unfold Css.select, selected_by. rewrite parse_clean_selector.
  apply select_below_find_all, matches_flat.
  unfold CLEAN_PARSED. repeat constructor.
Qed.

(** C9. Sanitizing is idempotent: a second [clean_content] changes
    nothing, because after the first neither [find_all] of the [script],
    [style], [noscript] and [iframe] tags nor [select] of the tag-list,
    category, share and comment markers finds a tag below the node. *)
Theorem clean_content_idempotent (n : node) :
  clean_content (clean_content n) = clean_content n
  ∧ Bs.find_all is_script_tag (clean_content n) = []
  ∧ Css.select CLEAN_SELECTOR (clean_content n) = [].
Proof.
  assert (Hscr : clear is_script_tag (clean_content n)).
  { unfold clean_content. apply clear_decompose; [apply is_script_tag_shallow|].
    apply decompose_all_clear, is_script_tag_shallow. }
  assert (Hsel : clear (selected_by CLEAN_SELECTOR) (clean_content n)).
  { unfold clean_content. apply decompose_all_clear, selected_by_shallow. }
  split; [|split].
  - unfold clean_content at 1.
    rewrite (decompose_all_id is_script_tag) by done.
    by apply decompose_all_id.
  - by apply clear_find_all.
  - rewrite select_clean_selector. by apply clear_find_all.
Qed.

(** ** Content extractor: selector chains *)

(** What one entry of a chain does: it answers with a text, possibly the
    empty one, or passes to the next entry. *)
Lemma pick_text_cons `{Library} (soup : node) (sel : pystr) (rest : list pystr) :
  pick_text soup (sel :: rest) = pick_text soup [sel]
  ∨ (pick_text soup [sel] = [] ∧ pick_text soup (sel :: rest) = pick_text soup rest).
Proof.
  cbn [pick_text].
  destruct (negb (Py.truthy sel)); [by right|].
  destruct (Py.startswith _ sel).
  - destruct (find_meta soup (meta_prop sel)) as [n|]; [|by right].
    destruct (Bs.get n _) as [c|]; [|by right].
    destruct (Py.truthy c); [by left | by right].
  - destruct (select_one sel soup) as [n|]; [|by right].
    destruct (Py.truthy (Bs.get_text _ n)); [by left | by right].
Qed.

(** A chain of one entry yields what the entry extracts. *)
Lemma pick_text_single `{Library} (soup : node) (sel : pystr) :
  pick_text soup [sel] = if Py.truthy sel then extraction soup sel else [].
Proof.
  cbn [pick_text]. unfold extraction.
  destruct (Py.truthy sel); [|done]. simpl negb. cbv iota.
  destruct (Py.startswith _ sel).
  - destruct (find_meta soup (meta_prop sel)) as [n|]; [|done].
    destruct (Bs.get n _) as [c|]; [|done]. simpl.
    destruct c; done.
  - destruct (select_one sel soup) as [n|]; [|done].
    by destruct (Bs.get_text _ n).
Qed.

Lemma pick_text_head `{Library} (soup : node) (sel : pystr) (rest : list pystr) :
  pick_text soup [sel] ≠ [] → pick_text soup (sel :: rest) = pick_text soup [sel].
Proof. intros Hne. destruct (pick_text_cons soup sel rest) as [?|[? _]]; done. Qed.

(** A text that is not empty comes from the first entry that yields one:
    the entries before it all yield the empty text. *)
Lemma pick_text_found `{Library} (soup : node) (chain : list pystr) :
  pick_text soup chain ≠ [] →
  ∃ pre sel post,
    chain = pre ++ sel :: post
    ∧ Forall (fun p => pick_text soup [p] = []) pre
    ∧ pick_text soup chain = pick_text soup [sel].
Proof.
  induction chain as [|sel chain IH]; [done|]. intros Hne.
  destruct (pick_text_cons soup sel chain) as [Heq|[Hnil Heq]].
  - exists [], sel, chain. done.
  - rewrite Heq in Hne. destruct (IH Hne) as (pre & sel' & post & -> & Hpre & Hres).
    exists (sel :: pre), sel', post. rewrite Heq. repeat split; [|done].
    by constructor.
Qed.

(** C2. In a chain [[A; B]] an entry [A] whose extraction is not empty
    decides the result, whatever [B] would find. A result that is not
    empty is the extraction of an entry before which every entry is the
    empty string or extracts the empty text, so later entries are
    consulted only then. A matching tag with empty text, and a [meta]
    entry whose tag has no [content] attribute, pass to the next entry. *)
Theorem pick_text_priority `{Library} (soup : node) (A B : pystr) :
  (A ≠ [] → extraction soup A ≠ [] → pick_text soup [A; B] = extraction soup A)
  ∧ (∀ chain, pick_text soup chain ≠ [] →
       ∃ pre sel post,
         chain = pre ++ sel :: post
         ∧ Forall (fun p => p = [] ∨ extraction soup p = []) pre
         ∧ pick_text soup chain = extraction soup sel)
  ∧ (∀ n rest,
       A ≠ [] → Py.startswith (py "meta:") A = false →
       select_one A soup = Some n → Bs.get_text (py " ") n = [] →
       pick_text soup (A :: rest) = pick_text soup rest)
  ∧ (∀ n rest,
       Py.startswith (py "meta:") A = true →
       find_meta soup (meta_prop A) = Some n → Bs.get n (py "content") = None →
       pick_text soup (A :: rest) = pick_text soup rest).
Proof.
  split; [|split; [|split]].
  - intros HA Hne. apply truthy_true in HA.
    rewrite pick_text_head; rewrite pick_text_single, HA; done.
  - intros chain Hne.
    destruct (pick_text_found soup chain Hne) as (pre & sel & post & -> & Hpre & Hres).
    exists pre, sel, post. split; [done|]. split.
    + eapply Forall_impl; [exact Hpre|]. intros p Hp. cbv beta in Hp.
      rewrite pick_text_single in Hp. destruct p; [by left | by right].
    + rewrite Hres, pick_text_single. rewrite Hres, pick_text_single in Hne.
      by destruct (Py.truthy sel).
  - intros n rest HA Hmeta Hsel Htext. cbn [pick_text].
    apply truthy_true in HA. rewrite HA, Hmeta, Hsel, Htext. done.
  - intros n rest Hmeta Hfind Hcontent. cbn [pick_text].
    assert (HA : Py.truthy A = true) by (destruct A; [discriminate | done]).
    rewrite HA, Hmeta, Hfind, Hcontent. done.
Qed.

(** ** Content extractor: the content node *)

Lemma elem_of_insert_desc {A} (key : A → nat) (x y : A) (l : list A) :
  y ∈ insert_desc key x l ↔ y = x ∨ y ∈ l.
Proof.
  induction l as [|z l IH]; simpl.
  - rewrite list_elem_of_singleton, elem_of_nil. tauto.
  - destruct (key x <? key z)%nat.
    + rewrite !elem_of_cons, IH. tauto.
    + rewrite !elem_of_cons. tauto.
Qed.

Lemma elem_of_sort_desc {A} (key : A → nat) (y : A) (l : list A) :
  y ∈ sort_desc key l ↔ y ∈ l.
Proof.
  unfold sort_desc. induction l as [|x l IH]; simpl; [done|].
  rewrite elem_of_insert_desc, IH, elem_of_cons. done.
Qed.

(** The head of an inserted list has the largest key, if the head of the
    list had. *)
Lemma head_insert_desc {A} (key : A → nat) (x : A) (l : list A) (m : A) :
  (∀ h, head l = Some h → ∀ y, y ∈ l → (key y <= key h)%nat) →
  head (insert_desc key x l) = Some m →
  ∀ y, y ∈ insert_desc key x l → (key y <= key m)%nat.
Proof.
  intros Hl Hm y Hy. apply elem_of_insert_desc in Hy.
  destruct l as [|z l]; simpl in *.
  - injection Hm as <-. destruct Hy as [->|Hy]; [lia | by apply elem_of_nil in Hy].
  - specialize (Hl z eq_refl).
    destruct (key x <? key z)%nat eqn:Hlt; simpl in Hm; injection Hm as <-.
    + apply Nat.ltb_lt in Hlt. destruct Hy as [->|Hy]; [lia | by apply Hl].
    + apply Nat.ltb_ge in Hlt. destruct Hy as [->|Hy]; [lia|].
      specialize (Hl y Hy). lia.
Qed.

Lemma head_sort_desc_max {A} (key : A → nat) (l : list A) (m : A) :
  head (sort_desc key l) = Some m → ∀ y, y ∈ l → (key y <= key m)%nat.
Proof.
  intros Hm y Hy. apply (elem_of_sort_desc key) in Hy. revert m Hm y Hy.
  unfold sort_desc. induction l as [|x l IH]; simpl; [done|].
  intros m Hm. eapply head_insert_desc; [|done]. apply IH.
Qed.

(** The last resort returns a [div] of the page that is not a noise node
    and whose visible text is at least as long as that of every other such
    [div]. *)
Lemma largest_div_spec (soup n : node) :
  largest_div soup = Some n →
  n ∈ Bs.find_all is_div soup ∧ is_noise_node n = false
  ∧ ∀ d, d ∈ Bs.find_all is_div soup → is_noise_node d = false →
         (text_length d <= text_length n)%nat.
Proof.
  unfold largest_div. intros Hn.
  destruct (Bs.find_all is_div soup) as [|d0 ds] eqn:Hall; [done|].
  destruct (filter _ (d0 :: ds)) as [|c0 cs] eqn:Hf; [done|].
  assert (Hin : n ∈ c0 :: cs).
  { apply (elem_of_sort_desc (fun x => length (Bs.get_text (py " ") x))).
    by apply head_Some_elem_of. }
  rewrite <- Hf in Hin. apply list_elem_of_filter in Hin as [Hnoise Hdiv].
  split; [done|]. split; [done|].
  intros d Hd Hdn. apply (head_sort_desc_max _ _ _ Hn).
  rewrite <- Hf. by apply list_elem_of_filter.
Qed.

Lemma first_content_guarded `{Library} (soup : node) (sels : list pystr) (n : node) :
  first_content soup sels = Some n → is_tag_block n = false.
Proof.
  induction sels as [|sel sels IH]; simpl; [done|].
  destruct (select_one sel soup) as [c|]; [|done].
  destruct (is_tag_block c) eqn:Hc; simpl; [done|]. by intros [= <-].
Qed.

Lemma unless_tag_block_guarded (o : option node) (n : node) :
  unless_tag_block o = Some n → is_tag_block n = false.
Proof.
  destruct o as [c|]; simpl; [|done].
  destruct (is_tag_block c) eqn:Hc; simpl; [done|]. by intros [= <-].
Qed.

Lemma is_tag_block_marker (n : node) :
  is_tag_block n = false → has_tag_marker n = false.
Proof.
  unfold is_tag_block, has_tag_marker.
  by destruct (Py.contains _ (Py.join _ (Bs.get_class n))).
Qed.

Lemma startswith_map (f : N → N) (p s : pystr) :
  Py.startswith p s = true → Py.startswith (f <$> p) (f <$> s) = true.
Proof.
  rewrite !startswith_app. intros [rest ->]. exists (f <$> rest). by rewrite fmap_app.
Qed.

Lemma contains_map (f : N → N) (p s : pystr) :
  Py.contains p s = true → Py.contains (f <$> p) (f <$> s) = true.
Proof.
  rewrite !contains_spec. intros (pre & rest & ->).
  exists (f <$> pre), (f <$> rest). by rewrite !fmap_app.
Qed.

Lemma orelse_is_Some {A} (a b : option A) :
  is_Some (Re.orelse a b) ↔ is_Some a ∨ is_Some b.
Proof. destruct a; simpl; split; eauto. intros [[? ?]|?]; done. Qed.

(** An alternation matches where one of its branches does. *)
Lemma run_alts (rs : list Re.t) (r : Re.t) s g k :
  r ∈ rs → is_Some (Re.run r s g k) → is_Some (Re.run (Re.alts rs) s g k).
Proof.
  destruct rs as [|r0 rs]; [by intros ?%elem_of_nil|].
  unfold Re.alts. intros Hr Hs.
  assert (Hacc : is_Some (Re.run r0 s g k) ∨ r ∈ rs).
  { apply elem_of_cons in Hr as [->|?]; auto. }
  clear Hr. revert r0 Hacc. induction rs as [|r1 rs IH]; intros r0 Hacc; simpl.
  - destruct Hacc as [?|?%elem_of_nil]; done.
  - apply IH. destruct Hacc as [H0|Hr].
    + left. simpl. apply orelse_is_Some. by left.
    + apply elem_of_cons in Hr as [->|Hr]; [|by right].
      left. simpl. apply orelse_is_Some. by right.
Qed.

(** A group of literal alternatives finds each of its words. *)
Lemma test_word_group (ws : list pystr) (w s : pystr) :
  w ∈ ws → Py.contains w s = true → Re.test (Re.Grp (Re.alts (Re.lit <$> ws))) s = true.
Proof.
  intros Hw Hc. apply contains_spec in Hc as (pre & rest & ->).
  apply test_true. exists pre, (w ++ rest). split; [done|].
  unfold Re.match_at. simpl. eapply run_alts.
  - apply list_elem_of_fmap. by exists w.
  - rewrite run_lit_startswith by (apply startswith_app; eauto). eauto.
Qed.

(** A node that is not noise does not carry the tag-list marker. *)
Lemma not_noise_no_marker (n : node) :
  is_noise_node n = false → has_tag_marker n = false.
Proof.
  unfold is_noise_node, has_tag_marker. intros Hn.
  destruct (Re.test NOISE_ID_RE _); [done|].
  destruct (Re.test NOISE_CLASS_RE _) eqn:Hc; [done|].
  destruct (Py.contains _ _) eqn:Hm; [|done].
  apply (contains_map Py.lower_char) in Hm.
  rewrite <- Hc. symmetry. unfold NOISE_CLASS_RE.
  apply (test_word_group _ (py "articaltag")); [|exact Hm].
  rewrite !elem_of_app, list_elem_of_singleton. by right.
Qed.

(** C1, as the code has it. A node matched by a configured content
    selector is returned as it is, without any guard. When no configured
    selector matches, the node [guess_content_node] returns either passed
    one of the three guarded steps, and then is not a tag block, or comes
    from the last resort, and then is a [div] that is not a noise node and
    has the longest visible text among those; in both cases its class
    attribute does not contain the marker [articalTag]. *)
Theorem guess_content_node_guarded `{Library} (soup : node) (selectors : list pystr)
    (n : node) :
  (pick_html soup selectors = Some n → guess_content_node soup selectors = Some n)
  ∧ (pick_html soup selectors = None →
     guess_content_node soup selectors = Some n →
     (is_tag_block n = false
      ∨ (largest_div soup = Some n ∧ is_noise_node n = false
         ∧ ∀ d, d ∈ Bs.find_all is_div soup → is_noise_node d = false →
                (text_length d <= text_length n)%nat))
     ∧ has_tag_marker n = false).
Proof.
  unfold guess_content_node. split; [by intros ->|]. intros -> Hn.
  destruct (first_content soup CONTENT_SELECTORS) as [c|] eqn:H1.
  { injection Hn as <-. apply first_content_guarded in H1.
    split; [by left | by apply is_tag_block_marker]. }
  destruct (unless_tag_block (Bs.find _ soup)) as [c|] eqn:H2.
  { injection Hn as <-. apply unless_tag_block_guarded in H2.
    split; [by left | by apply is_tag_block_marker]. }
  destruct (unless_tag_block (Bs.find _ soup)) as [c|] eqn:H3 in Hn.
  { injection Hn as <-. apply unless_tag_block_guarded in H3.
    split; [by left | by apply is_tag_block_marker]. }
  pose proof (largest_div_spec soup n Hn) as (Hdiv & Hnoise & Hmax).
  split; [right; done | by apply not_noise_no_marker].
Qed.

(** C1 does not hold as the specification states it. On [tag_list_page]
    no selector is configured and no guarded step finds a node; the last
    resort returns the second block, the longest of the page, which is a
    tag block by its [blog_tag] descendant. On [marked_page] the
    configured selector returns the block that carries the marker itself. *)
Lemma tag_block_returned :
  (@guess_content_node reference_library tag_list_page [] = Some tag_list_div
   ∧ is_tag_block tag_list_div = true
   ∧ Forall (fun d => (text_length d <= text_length tag_list_div)%nat)
       (Bs.find_all is_div tag_list_page))
  ∧ (@guess_content_node reference_library marked_page [py "div.articalTag"] = Some marked_div
     ∧ is_tag_block marked_div = true).
Proof.
  split; [split; [|split]|split]; try (vm_compute; reflexivity).
  vm_compute. repeat constructor.
Qed.

(** ** Crawl orchestrator: the discovered links *)

Lemma elem_of_foldl_add (seen : gset pystr) (l : list pystr) (u : pystr) :
  u ∈ foldl (fun s link => {[link]} ∪ s) seen l ↔ u ∈ l ∨ u ∈ seen.
Proof.
  revert seen. induction l as [|x l IH]; intros seen; simpl.
  - rewrite elem_of_nil. tauto.
  - rewrite IH, elem_of_cons, elem_of_union, elem_of_singleton. tauto.
Qed.

(** The links that are new do not depend, as a set, on the order of
    iteration. *)
Lemma new_links_perm (iter : nat → gset pystr → list pystr) (page : nat)
    (links seen : gset pystr) :
  iterates iter →
  filter (fun link => link ∉ seen) (iter page links)
  ≡ₚ filter (fun link => link ∉ seen) (elements links).
Proof. intros Hiter. by rewrite (Hiter page links). Qed.

Lemma foldl_add_perm (seen : gset pystr) (l l' : list pystr) :
  l ≡ₚ l' →
  foldl (fun s link => {[link]} ∪ s) seen l = foldl (fun s link => {[link]} ∪ s) seen l'.
Proof.
  intros Hperm. apply set_eq. intros u. rewrite !elem_of_foldl_add. by rewrite Hperm.
Qed.

(** The loop keeps [article_urls] free of duplicates and equal, as a set,
    to [seen]; what it adds are the links of the pages it went through.
    This holds in every order of iteration. *)
Lemma collect_links_invariant `{Library} (iter : nat → gset pystr → list pystr)
    (get : session) (list_url : nat → pystr)
    (cfg : config) (pages : list nat) (seen : gset pystr) (article_urls : list pystr) :
  iterates iter →
  NoDup article_urls →
  (∀ u, u ∈ article_urls ↔ u ∈ seen) →
  let '(seen', urls') := collect_links_in iter get list_url cfg pages seen article_urls in
  NoDup urls'
  ∧ (∀ u, u ∈ urls' ↔ u ∈ seen')
  ∧ (∀ u, u ∈ urls' ↔
          u ∈ article_urls ∨ ∃ links, links ∈ visited get list_url cfg pages seen ∧ u ∈ links).
Proof.
  intros Hiter. revert seen article_urls.
  induction pages as [|page rest IH]; intros seen urls Hnd Hseen; simpl.
  { split; [done|]. split; [done|]. intros u. split; [by left|].
    intros [?|(links & []%elem_of_nil & _)]; done. }
  destruct (fetch_text get (list_url page)) as [html_text|].
  2:{ split; [done|]. split; [done|]. intros u. split; [by left|].
      intros [?|(links & []%elem_of_nil & _)]; done. }
  set (links := extract_article_links html_text (list_url page) cfg).
  pose proof (new_links_perm iter page links seen Hiter) as Hperm.
  assert (Hmem : ∀ u, u ∈ filter (fun link => link ∉ seen) (iter page links)
                      ↔ (u ∉ seen) ∧ u ∈ links).
  { intros u. by rewrite Hperm, list_elem_of_filter, elem_of_elements. }
  destruct (filter (fun link => link ∉ seen) (iter page links)) as [|l0 ls] eqn:Hnew.
  { symmetry in Hperm. apply Permutation_nil_r in Hperm. rewrite Hperm.
    split; [done|]. split; [done|]. intros u. split; [by left|].
    intros [?|(links' & Hl & Hu)]; [done|].
    apply list_elem_of_singleton in Hl as ->.
    destruct (decide (u ∈ seen)) as [?|Hns]; [by apply Hseen|].
    assert (Hin : u ∈ @nil pystr) by (by apply Hmem). by apply elem_of_nil in Hin. }
  specialize (IH (foldl (fun s link => {[link]} ∪ s) seen (l0 :: ls)) (urls ++ l0 :: ls)).
  rewrite (foldl_add_perm seen _ _ Hperm) in IH.
  rewrite (foldl_add_perm seen _ _ Hperm).
  destruct (filter (fun link => link ∉ seen) (elements links)) as [|x xs] eqn:Hlisted.
  { by apply Permutation_nil_r in Hperm. }
  destruct (collect_links_in iter _ _ _ rest _ _) as [seen' urls'].
  destruct IH as (Hnd' & Hseen' & Hvis').
  - apply NoDup_app. split; [done|]. split.
    + intros u Hu Hu'. apply Hmem in Hu' as [Hns _]. by apply Hns, Hseen.
    + rewrite Hperm, <- Hlisted. apply NoDup_filter, NoDup_elements.
  - intros u. rewrite elem_of_app, elem_of_foldl_add, Hseen, <- Hperm. tauto.
  - split; [done|]. split; [done|]. intros u. rewrite Hvis', elem_of_app. split.
    + intros [[?|Hu]|(ls' & Hl & Hu)].
      * by left.
      * right. exists links. split; [by left | by apply Hmem in Hu as [_ ?]].
      * right. exists ls'. split; [by right | done].
    + intros [?|(ls' & Hl & Hu)]; [left; by left|].
      apply elem_of_cons in Hl as [->|Hl].
      * destruct (decide (u ∈ seen)) as [?|Hns]; [left; left; by apply Hseen|].
        left. right. by apply Hmem.
      * right. eauto.
Qed.

(** C7. The discovered list holds no URL twice, however many listing
    pages repeated it, and holds exactly the URLs found on the pages the
    loop went through; the links of one page come as a set, so without
    duplicates. *)
Theorem discover_exactly_once `{Library} (get : session) (list_url : nat → pystr)
    (cfg : config) (max_pages : nat) :
  NoDup (discover get list_url cfg max_pages)
  ∧ (∀ u, u ∈ discover get list_url cfg max_pages ↔
          ∃ links, links ∈ visited get list_url cfg (seq 1 max_pages) ∅ ∧ u ∈ links)
  ∧ (∀ list_html base_url,
       NoDup (elements (extract_article_links list_html base_url cfg))).
Proof.
  unfold discover, collect_links.
  pose proof (collect_links_invariant set_iter get list_url cfg (seq 1 max_pages) ∅ [])
    as Hinv.
  destruct (collect_links_in _ _ _ _ _ _ _) as [seen urls]. simpl.
  destruct Hinv as (Hnd & _ & Hvis).
  - exact set_iter_perm.
  - constructor.
  - intros u. rewrite elem_of_nil, elem_of_empty. tauto.
  - split; [done|]. split.
    + intros u. rewrite Hvis, elem_of_nil. tauto.
    + intros. apply NoDup_elements.
Qed.

(** ** Image localizer *)

Lemma path_exists_insert (w : world) (path path' : pystr) (bs : list Byte.byte) (rq : list pystr) :
  path_exists (World (<[path := bs]> (files w)) rq) path' = true
  ↔ path' = path ∨ path_exists w path' = true.
Proof.
  unfold path_exists. simpl. rewrite !bool_decide_eq_true.
  destruct (decide (path' = path)) as [->|Hne].
  - rewrite lookup_insert_eq. split; eauto.
  - rewrite lookup_insert_ne by done. split; [eauto | intros [?|?]; done].
Qed.

Lemma backed_empty_cache `{Library} (images_dir : pystr) (w : world) :
  backed images_dir (LoopState w ∅).
Proof. intros u p Hu. simpl in Hu. by rewrite lookup_empty in Hu. Qed.

(** One turn of the loop on a tag with a source. Either the fetch failed
    and nothing but the request log changed, or the source is now the
    local path of the absolute URL and the file is on disk; a request was
    sent only if the URL was not cached and the file was missing. *)
Lemma localize_img_step `{Library} (get : session) (article_url images_dir : pystr)
    (st : loop_state) (img : node) :
  let u := urljoin article_url (img_src img) in
  let w := st_world st in
  img_src img ≠ [] →
  backed images_dir st →
  ∃ st' img',
    localize_img get article_url images_dir st img = (st', img')
    ∧ backed images_dir st'
    ∧ files_kept w (st_world st')
    ∧ ((img' = img ∧ get u = None
        ∧ st_cache st !! u = None ∧ path_exists w (file_path_of images_dir u) = false
        ∧ st' = LoopState (World (files w) (requests w ++ [u])) (st_cache st))
       ∨ (img' = set_src img (local_path u)
          ∧ path_exists (st_world st') (file_path_of images_dir u) = true
          ∧ (requests (st_world st') = requests w
             ∨ (requests (st_world st') = requests w ++ [u]
                ∧ st_cache st !! u = None
                ∧ path_exists w (file_path_of images_dir u) = false
                ∧ is_Some (get u))))).
Proof.
  intros u w Hsrc Hb. unfold localize_img.
  apply truthy_true in Hsrc. rewrite Hsrc. simpl negb. cbv iota.
  fold u. fold w.
  destruct (st_cache st !! u) as [cached|] eqn:Hc.
  { destruct (Hb u cached Hc) as [-> Hex].
    eexists _, _. split; [done|]. split; [done|]. split; [by intros ? ?|].
    right. split; [done|]. split; [done|]. by left. }
  change (path_join images_dir (image_filename u)) with (file_path_of images_dir u).
  change (Py.replace [92] (py "/") (path_join (py "images") (image_filename u)))
    with (local_path u).
  destruct (path_exists w (file_path_of images_dir u)) eqn:Hex.
  { eexists _, _. split; [done|]. split; [|split; [by intros ? ?|]].
    2:{ right. split; [done|]. split; [done|]. by left. }
    intros u' p. simpl. destruct (decide (u = u')) as [<-|Hne].
    - rewrite lookup_insert_eq. by intros [= <-].
    - rewrite lookup_insert_ne by done. apply Hb. }
  destruct (get u) as [resp|] eqn:Hget.
  - eexists _, _. split; [done|].
    assert (Hkept : files_kept w (World (<[file_path_of images_dir u := content resp]> (files w))
                                    (requests w ++ [u]))).
    { intros path Hp. apply path_exists_insert. by right. }
    split; [|split; [done|]].
    + intros u' p. simpl. destruct (decide (u = u')) as [<-|Hne].
      * rewrite lookup_insert_eq. intros [= <-]. split; [done|].
        apply path_exists_insert. by left.
      * rewrite lookup_insert_ne by done. intros Hu'.
        destruct (Hb u' p Hu') as [-> Hex']. split; [done|]. by apply Hkept.
    + right. split; [done|]. split; [apply path_exists_insert; by left|].
      right. simpl. eauto.
  - eexists _, _. split; [done|]. split; [|split].
    + intros u' p Hu'. simpl in *. destruct (Hb u' p Hu') as [-> Hex']. done.
    + intros path Hp. exact Hp.
    + left. done.
Qed.

(** C4. The local file name is [image_filename] of the absolute URL: the
    first twelve characters of its SHA-1 digest and the extension of its
    path, or [.jpg] when there is none or it has more than five
    characters, the dot counted. Two turns of the loop on the same
    absolute URL, in any two states, pages and sessions, write the same
    source if they write one; and when the file is there for the second
    turn, as it is once the first has fetched it, the second sends no
    request. *)
Theorem image_name_deterministic `{Library} (get1 get2 : session)
    (article_url1 article_url2 images_dir : pystr) (st1 st2 : loop_state)
    (img1 img2 : node) (u : pystr) :
  let r1 := localize_img get1 article_url1 images_dir st1 img1 in
  let r2 := localize_img get2 article_url2 images_dir st2 img2 in
  img_src img1 ≠ [] → img_src img2 ≠ [] →
  urljoin article_url1 (img_src img1) = u →
  urljoin article_url2 (img_src img2) = u →
  backed images_dir st1 → backed images_dir st2 →
  image_filename u
    = take 12 (sha1_hexdigest u)
      ++ (let ext := splitext_ext (urlparse_path u) in
          if bool_decide (ext = []) || (5 <? length ext)%nat then py ".jpg" else ext)
  ∧ (r1.2 = img1 ∨ r1.2 = set_src img1 (local_path u))
  ∧ (r2.2 = img2 ∨ r2.2 = set_src img2 (local_path u))
  ∧ (path_exists (st_world st2) (file_path_of images_dir u) = true →
       r2.2 = set_src img2 (local_path u)
       ∧ requests (st_world r2.1) = requests (st_world st2))
  ∧ (is_Some (get1 u) → files_kept (st_world r1.1) (st_world st2) →
       r2.2 = set_src img2 (local_path u)
       ∧ requests (st_world r2.1) = requests (st_world st2)).
Proof.
  intros r1 r2 Hs1 Hs2 Hu1 Hu2 Hb1 Hb2.
  destruct (localize_img_step get1 article_url1 images_dir st1 img1 Hs1 Hb1)
    as (st1' & img1' & Hr1 & _ & _ & Hcase1).
  destruct (localize_img_step get2 article_url2 images_dir st2 img2 Hs2 Hb2)
    as (st2' & img2' & Hr2 & _ & _ & Hcase2).
  rewrite Hu1 in Hcase1. rewrite Hu2 in Hcase2.
  subst r1 r2. rewrite Hr1, Hr2. simpl.
  assert (Hexists : path_exists (st_world st2) (file_path_of images_dir u) = true →
                    img2' = set_src img2 (local_path u)
                    ∧ requests (st_world st2') = requests (st_world st2)).
  { intros Hex. destruct Hcase2 as [(_ & _ & _ & Hno & _)|(-> & _ & [Hrq|(_ & _ & Hno & _)])];
      [congruence | done | congruence]. }
  split.
  { unfold image_filename. f_equal.
    destruct (splitext_ext (urlparse_path u)) as [|c ext]; done. }
  split; [destruct Hcase1 as [(-> & _)|(-> & _)]; auto|].
  split; [destruct Hcase2 as [(-> & _)|(-> & _)]; auto|].
  split; [done|].
  intros [resp Hresp] Hkept. apply Hexists, Hkept.
  destruct Hcase1 as [(_ & Hnone & _)|(_ & Hex & _)]; [congruence | done].
Qed.

Lemma thread_cons {S : Type} (f : S → node → S * node) (st : S) (c : node) (l : list node) :
  thread f st (c :: l)
  = (let '(st1, c') := f st c in let '(st2, l') := thread f st1 l in (st2, c' :: l')).
Proof. reflexivity. Qed.

Lemma localize_tree_tag `{Library} (get : session) (article_url images_dir : pystr)
    (st : loop_state) nm a cs :
  localize_tree get article_url images_dir st (Tag nm a cs)
  = (let '(st1, n1) :=
       if is_img (Tag nm a cs)
       then localize_img get article_url images_dir st (Tag nm a cs)
       else (st, Tag nm a cs) in
     let '(st2, cs') := thread (localize_tree get article_url images_dir) st1 cs in
     (st2, Tag nm (match n1 with Tag _ a1 _ => a1 | Str _ _ => a end) cs')).
Proof. reflexivity. Qed.

(** C6. When the fetch of an image fails, the turn of the loop leaves the
    tag as it was, its source still the remote URL, and changes nothing
    but the log of requests; the loop then goes on with what the tag
    contains and with the rest of the page from that state. *)
Theorem fetch_failure_keeps_source `{Library} (get : session)
    (article_url images_dir : pystr) (st : loop_state)
    (a : dict pystr) (cs rest : list node) :
  let img := Tag (py "img") a cs in
  let u := urljoin article_url (img_src img) in
  let st_failed :=
    LoopState (World (files (st_world st)) (requests (st_world st) ++ [u])) (st_cache st) in
  img_src img ≠ [] →
  st_cache st !! u = None →
  path_exists (st_world st) (file_path_of images_dir u) = false →
  get u = None →
  localize_img get article_url images_dir st img = (st_failed, img)
  ∧ thread (localize_tree get article_url images_dir) st (img :: rest)
    = (let '(st2, cs') := thread (localize_tree get article_url images_dir) st_failed cs in
       let '(st3, rest') := thread (localize_tree get article_url images_dir) st2 rest in
       (st3, Tag (py "img") a cs' :: rest')).
Proof.
  intros img u st_failed Hsrc Hcache Hex Hget.
  assert (Hstep : localize_img get article_url images_dir st img = (st_failed, img)).
  { unfold localize_img. apply truthy_true in Hsrc. rewrite Hsrc. simpl negb. cbv iota.
    fold u. rewrite Hcache.
    change (path_join images_dir (image_filename u)) with (file_path_of images_dir u).
    rewrite Hex, Hget. done. }
  split; [done|].
  rewrite thread_cons. unfold img at 1. rewrite localize_tree_tag. fold img.
  replace (is_img img) with true by reflexivity. rewrite Hstep.
  destruct (thread _ st_failed cs) as [st2 cs'].
  destruct (thread _ st2 rest) as [st3 rest']. done.
Qed.

(** ** Image localizer: the whole loop *)

Lemma thread_state {S : Type} (f : S → node → S * node) (st : S) (l : list node) :
  (thread f st l).1 = foldl (fun st c => (f st c).1) st l.
Proof.
  revert st. induction l as [|c l IH]; intros st; [done|].
  rewrite thread_cons. simpl. rewrite <- IH.
  destruct (f st c) as [st1 c']. simpl. by destruct (thread f st1 l).
Qed.

(** The traversal visits the [img] tags in document order: its state is
    that of the loop over [find_all("img")]. *)
Lemma localize_tree_state `{Library} (get : session) (article_url images_dir : pystr)
    (n : node) (st : loop_state) :
  (localize_tree get article_url images_dir st n).1
  = foldl (turn get article_url images_dir) st
      (filter (fun d => is_img d = true) ((if Bs.is_tag n then [n] else []) ++ Bs.descendants n)).
Proof.
  revert st. induction n as [k s|nm a cs IH] using node_induction; intros st; [done|].
  rewrite localize_tree_tag, descendants_tag.
  cbn [Bs.is_tag]. rewrite filter_app, foldl_app.
  set (st1 := foldl _ st (filter _ [Tag nm a cs])).
  assert (Hst1 : (if is_img (Tag nm a cs)
                  then localize_img get article_url images_dir st (Tag nm a cs)
                  else (st, Tag nm a cs)).1 = st1).
  { unfold st1. rewrite filter_cons, filter_nil.
    destruct (is_img (Tag nm a cs)) eqn:Himg.
    - rewrite decide_True by done. done.
    - rewrite decide_False by (by intros ?). done. }
  destruct (if is_img (Tag nm a cs) then _ else _) as [st1' n1]. simpl in Hst1. subst st1'.
  transitivity (thread (localize_tree get article_url images_dir) st1 cs).1;
    [by destruct (thread _ st1 cs)|].
  rewrite thread_state. clear -IH. generalize st1. clear st1.
  induction cs as [|c cs IHcs]; intros st1; [done|].
  apply Forall_cons in IH as [IHc IH].
  rewrite bind_cons, filter_app, foldl_app. simpl. rewrite IHc. by apply IHcs.
Qed.

Lemma localize_all_state `{Library} (get : session) (article_url images_dir : pystr)
    (soup : node) (st : loop_state) :
  (localize_all get article_url images_dir st soup).1
  = foldl (turn get article_url images_dir) st (Bs.find_all is_img soup).
Proof.
  destruct soup as [k s|nm a cs]; [done|].
  unfold localize_all, Bs.find_all. rewrite descendants_tag.
  transitivity (thread (localize_tree get article_url images_dir) st cs).1;
    [by destruct (thread _ st cs)|].
  rewrite thread_state. revert st.
  induction cs as [|c cs IHcs]; intros st; [done|].
  rewrite bind_cons, filter_app, foldl_app. simpl.
  rewrite localize_tree_state. by apply IHcs.
Qed.

(** What a run of the loop over a list of images leaves: the cache stays
    backed, no file is lost, every request sent was for an image of the
    list whose file was missing at the start, and every image whose URL
    the server answers has its file on disk afterwards. *)
Lemma turns_spec `{Library} (get : session) (article_url images_dir : pystr)
    (imgs : list node) (st : loop_state) :
  backed images_dir st →
  let st' := foldl (turn get article_url images_dir) st imgs in
  backed images_dir st'
  ∧ files_kept (st_world st) (st_world st')
  ∧ (∃ extra, requests (st_world st') = requests (st_world st) ++ extra
       ∧ ∀ u, u ∈ extra →
           path_exists (st_world st) (file_path_of images_dir u) = false
           ∧ ∃ img, img ∈ imgs ∧ img_src img ≠ [] ∧ u = urljoin article_url (img_src img))
  ∧ (∀ img, img ∈ imgs → img_src img ≠ [] →
       is_Some (get (urljoin article_url (img_src img))) →
       path_exists (st_world st') (file_path_of images_dir (urljoin article_url (img_src img)))
       = true).
Proof.
  revert st. induction imgs as [|img imgs IH]; intros st Hb; simpl.
  { split; [done|]. split; [by intros ? ?|]. split.
    - exists []. rewrite app_nil_r. split; [done|]. by intros u ?%elem_of_nil.
    - by intros img ?%elem_of_nil. }
  assert (Hturn : ∃ st1, turn get article_url images_dir st img = st1
    ∧ backed images_dir st1 ∧ files_kept (st_world st) (st_world st1)
    ∧ (∃ extra, requests (st_world st1) = requests (st_world st) ++ extra
         ∧ ∀ u, u ∈ extra →
             path_exists (st_world st) (file_path_of images_dir u) = false
             ∧ img_src img ≠ [] ∧ u = urljoin article_url (img_src img))
    ∧ (img_src img ≠ [] → is_Some (get (urljoin article_url (img_src img))) →
       path_exists (st_world st1) (file_path_of images_dir (urljoin article_url (img_src img)))
       = true)).
  { unfold turn. destruct (decide (img_src img = [])) as [Hnil|Hsrc].
    - exists st. unfold localize_img. rewrite Hnil. simpl.
      split; [done|]. split; [done|]. split; [by intros ? ?|]. split; [|done].
      exists []. rewrite app_nil_r. split; [done|]. by intros u ?%elem_of_nil.
    - destruct (localize_img_step get article_url images_dir st img Hsrc Hb)
        as (st1 & img' & -> & Hb1 & Hkept & Hcase).
      exists st1. simpl. split; [done|]. split; [done|]. split; [done|].
      destruct Hcase as [(_ & Hnone & _ & Hmiss & ->)|(_ & Hex & [Hrq|(Hrq & _ & Hmiss & _)])].
      + split; [|intros _ [? ?]; congruence].
        eexists [_]. split; [done|]. by intros u ->%list_elem_of_singleton.
      + split; [|done]. exists []. rewrite app_nil_r. split; [done|].
        by intros u ?%elem_of_nil.
      + split; [|done]. eexists [_]. split; [done|].
        by intros u ->%list_elem_of_singleton. }
  destruct Hturn as (st1 & -> & Hb1 & Hkept1 & (extra1 & Hrq1 & Hextra1) & Hdone1).
  destruct (IH st1 Hb1) as (Hb' & Hkept' & (extra & Hrq & Hextra) & Hdone).
  split; [done|]. split; [by intros path ?; apply Hkept', Hkept1|]. split.
  - exists (extra1 ++ extra). split; [by rewrite Hrq, Hrq1, app_assoc|].
    intros u [Hu|Hu]%elem_of_app.
    + destruct (Hextra1 u Hu) as (? & ? & ?). split; [done|]. exists img.
      split; [by left | done].
    + destruct (Hextra u Hu) as (Hmiss & img' & ? & ? & ?). split.
      * destruct (path_exists (st_world st) _) eqn:Hp; [|done].
        apply Hkept1 in Hp. congruence.
      * exists img'. split; [by right | done].
  - intros img' [->|Hin]%elem_of_cons Hsrc Hget.
    + by apply Hkept', Hdone1.
    + by apply Hdone.
Qed.

(** A second [download_images] on the same markup, in the world the
    first has left, sends requests only for URLs the server does not
    answer: what was fetched once is never fetched again. *)
Lemma download_images_rerun `{Library} (content_html article_url : pystr) (get : session)
    (output_dir : pystr) (w : world) :
  let w1 := (download_images content_html article_url get output_dir w).2 in
  let w2 := (download_images content_html article_url get output_dir w1).2 in
  ∃ extra, requests w2 = requests w1 ++ extra ∧ ∀ u, u ∈ extra → get u = None.
Proof.
  unfold download_images.
  set (soup := html_parse content_html). set (dir := path_join output_dir (py "images")).
  pose proof (localize_all_state get article_url dir soup (LoopState w ∅)) as H1.
  destruct (localize_all get article_url dir (LoopState w ∅) soup) as [st1 soup1].
  simpl in *.
  pose proof (localize_all_state get article_url dir soup (LoopState (st_world st1) ∅)) as H2.
  destruct (localize_all get article_url dir (LoopState (st_world st1) ∅) soup) as [st2 soup2].
  simpl in *.
  destruct (turns_spec get article_url dir (Bs.find_all is_img soup) (LoopState w ∅))
    as (_ & _ & _ & Hdone); [apply backed_empty_cache|].
  destruct (turns_spec get article_url dir (Bs.find_all is_img soup)
              (LoopState (st_world st1) ∅))
    as (_ & _ & (extra & Hrq & Hextra) & _); [apply backed_empty_cache|].
  rewrite <- H1 in Hdone. rewrite <- H2 in Hrq. simpl in *.
  exists extra. split; [done|]. intros u Hu.
  destruct (Hextra u Hu) as (Hmiss & img & Hin & Hsrc & ->).
  destruct (get (urljoin article_url (img_src img))) as [resp|] eqn:Hget; [|done].
  rewrite Hdone in Hmiss; [done.. | eauto].
Qed.

(** ** Content extractor: the article record *)





















(** ** The theorems at work on concrete pages *)

Lemma guess_content_node_guarded_witness :
  (@pick_html reference_library marked_page [py "div.articalTag"] = Some marked_div
   ∧ @guess_content_node reference_library marked_page [py "div.articalTag"] = Some marked_div)
  ∧ (@pick_html reference_library tag_list_page [] = None
     ∧ @guess_content_node reference_library tag_list_page [] = Some tag_list_div
     ∧ has_tag_marker tag_list_div = false).
Proof.
  assert (H0 : @pick_html reference_library marked_page [py "div.articalTag"] = Some marked_div)
    by (vm_compute; reflexivity).
  assert (H1 : @pick_html reference_library tag_list_page [] = None) by reflexivity.
  assert (H2 : @guess_content_node reference_library tag_list_page [] = Some tag_list_div)
    by (vm_compute; reflexivity).
  split.
  - split; [exact H0|].
    exact (proj1 (@guess_content_node_guarded reference_library marked_page
                    [py "div.articalTag"] marked_div) H0).
  - split; [exact H1|]. split; [exact H2|].
    exact (proj2 (proj2 (@guess_content_node_guarded reference_library tag_list_page []
                           tag_list_div) H1 H2)).
Defined.

Lemma pick_text_priority_witness :
  @extraction reference_library post_page (py "h1") = py "Hello"
  ∧ @pick_text reference_library post_page [py "h1"; py "title"] = py "Hello"
  ∧ @pick_text reference_library post_page [py "h2.titName"; py "h1"] = py "Hello"
  ∧ @pick_text reference_library post_page [py "meta:og:title"; py "h1"] = py "Hello".
Proof.
  assert (Hex : @extraction reference_library post_page (py "h1") = py "Hello")
    by (vm_compute; reflexivity).
  split; [exact Hex|]. split.
  - etrans; [|exact Hex].
    apply (@pick_text_priority reference_library post_page (py "h1") (py "title")).
    + discriminate.
    + rewrite Hex. discriminate.
  - split.
    + destruct (@pick_text_priority reference_library post_page (py "h2.titName") (py "h1"))
        as (_ & _ & Hfall & _).
      etrans; [apply (Hfall (Tag (py "h2") [(py "class", py "titName")] [Str KText (py " ")]))|];
        vm_compute; (reflexivity || discriminate).
    + destruct (@pick_text_priority reference_library post_page (py "meta:og:title") (py "h1"))
        as (_ & _ & _ & Hmeta).
      etrans; [apply (Hmeta (Tag (py "meta") [(py "property", py "og:title")] []))|];
        vm_compute; reflexivity.
Defined.



(** A first turn on [remote_img] fetches the file; a second turn, in the
    world the first has left and with a fresh cache, writes the same
    source and sends no request. *)
Lemma image_name_deterministic_witness :
  let art := py "http://blog.sina.com.cn/s/blog_1.html" in
  let dir := py "output/images" in
  let r1 := @localize_img reference_library always_ok art dir empty_state remote_img in
  let st2 := LoopState (st_world r1.1) ∅ in
  let r2 := @localize_img reference_library always_ok art dir st2 remote_img in
  img_src remote_img ≠ []
  ∧ r2.2 = set_src remote_img (@local_path reference_library (py "http://blog.sina.com.cn/s/pic/a.jpg"))
  ∧ requests (st_world r2.1) = requests (st_world st2)
  ∧ @local_path reference_library (py "http://blog.sina.com.cn/s/pic/a.jpg")
    = py "images/ffd63b225634.jpg".
Proof.
  intros art dir r1 st2 r2.
  assert (Hsrc : img_src remote_img ≠ []) by (vm_compute; discriminate).
  split; [exact Hsrc|].
  destruct (@image_name_deterministic reference_library always_ok always_ok art art dir
              empty_state st2 remote_img remote_img (py "http://blog.sina.com.cn/s/pic/a.jpg")
              Hsrc Hsrc eq_refl eq_refl
              (@backed_empty_cache reference_library dir _)
              (@backed_empty_cache reference_library dir _))
    as (_ & _ & _ & _ & Hsecond).
  destruct Hsecond as [H1 H2].
  - eexists. reflexivity.
  - intros path Hp. exact Hp.
  - split; [exact H1|]. split; [exact H2|]. vm_compute. reflexivity.
Defined.

(** With a server that answers no request, the first image of the list is
    left as it was and the second is still visited. *)
Lemma fetch_failure_keeps_source_witness :
  let art := py "http://blog.sina.com.cn/s/blog_1.html" in
  let dir := py "output/images" in
  let second := Tag (py "img") [(py "data-src", py "/b.png")] [] in
  thread (@localize_tree reference_library never_ok art dir) empty_state [remote_img; second]
  = (LoopState (World ∅ [py "http://blog.sina.com.cn/s/pic/a.jpg";
                         py "http://blog.sina.com.cn/b.png"]) ∅,
     [remote_img; second]).
Proof.
  intros art dir second.
  destruct (@fetch_failure_keeps_source reference_library never_ok art dir empty_state
              [(py "src", py "pic/a.jpg")] [] [second]) as [_ Hloop].
  - vm_compute. discriminate.
  - reflexivity.
  - reflexivity.
  - reflexivity.
  - etrans; [exact Hloop|]. vm_compute. reflexivity.
Defined.

Lemma is_article_url_default_witness :
  let link := py "http://blog.sina.com.cn/s/blog_4a6c545e0100abcd.html" in
  Re.test ARTICLE_RE link = true
  ∧ Py.contains ARTICLE_PATH link = true
  ∧ @is_article_url reference_library link None = true
  ∧ @is_article_url reference_library (py "http://blog.sina.com.cn/u/1234") None = false.
Proof.
  intros link.
  assert (Hre : Re.test ARTICLE_RE link = true) by (vm_compute; reflexivity).
  destruct (@is_article_url_default reference_library link) as (Hnone & _ & Himp).
  split; [exact Hre|]. split; [exact (Himp Hre)|]. split.
  - rewrite Hnone. exact (Himp Hre).
  - rewrite (proj1 (@is_article_url_default reference_library (py "http://blog.sina.com.cn/u/1234"))).
    vm_compute. reflexivity.
Defined.

(** * Further properties *)

(** ** File names *)

Lemma Forall_lstrip (Q : N → Prop) (s : pystr) : Forall Q s → Forall Q (Py.lstrip s).
Proof.
  induction 1 as [|c s Hc Hs IH]; simpl; [done|].
  destruct (Py.isspace c); [done | by constructor].
Qed.

Lemma Forall_strip (Q : N → Prop) (s : pystr) : Forall Q s → Forall Q (Py.strip s).
Proof.
  intros Hs. unfold Py.strip, Py.rstrip.
  apply Forall_reverse, Forall_lstrip, Forall_reverse, Forall_lstrip, Hs.
Qed.

(** A substitution writes only characters of the input and of the
    replacement. *)
Lemma Forall_sub_go (Q : N → Prop) (r : Re.t) (repl : pystr) (skip : nat) (s : pystr) :
  Forall Q repl → Forall Q s → Forall Q (Re.sub_go r repl skip s).
Proof.
  intros Hrepl Hs. revert skip. induction Hs as [|c s Hc Hs IH]; intros skip; simpl; [done|].
  destruct skip as [|n]; [|apply IH].
  destruct (Re.match_at r (c :: s)) as [[g rest]|].
  - apply Forall_app. split; [done | apply IH].
  - constructor; [done | apply IH].
Qed.

(** Substituting for a class of single characters replaces each of them. *)
Lemma sub_chr (p : N → bool) (repl s : pystr) :
  Re.sub (Re.Chr p) repl s = s ≫= (fun c => if p c then repl else [c]).
Proof.
  unfold Re.sub. induction s as [|c s IH]; [done|].
  simpl. unfold Re.match_at. simpl. destruct (p c).
  - replace (length s - length s)%nat with 0%nat by lia.
    replace (S (length s) - length s)%nat with 1%nat by lia. simpl. by rewrite IH.
  - by rewrite IH.
Qed.

Lemma sub_chr_free (p : N → bool) (repl s : pystr) :
  Forall (fun c => p c = false) repl →
  Forall (fun c => p c = false) (Re.sub (Re.Chr p) repl s).
Proof.
  intros Hrepl. rewrite sub_chr. induction s as [|c s IH]; [constructor|].
  rewrite bind_cons. apply Forall_app. split; [|done].
  destruct (p c) eqn:Hc; [done | by repeat constructor].
Qed.

(** X1. Whatever the title, [safe_filename] returns either a name without
    any of the reserved characters, slash and backslash among them, or the
    fallback as it was given; the name is not empty unless the fallback is. *)
Theorem safe_filename_clean (name fallback : pystr) :
  (Forall (fun c => RESERVED c = false) (safe_filename name fallback)
   ∨ safe_filename name fallback = fallback)
  ∧ (Forall (fun c => RESERVED c = false) fallback →
     Forall (fun c => RESERVED c = false) (safe_filename name fallback))
  ∧ (fallback ≠ [] → safe_filename name fallback ≠ []).
Proof.
  unfold safe_filename.
  set (name0 := Py.or_else (Py.strip name) fallback).
  set (name1 := Re.sub (Re.Chr RESERVED) (py "_") name0).
  set (name2 := Py.strip (Re.sub (Re.plus Py.isspace) (py " ") name1)).
  assert (Hclean : Forall (fun c => RESERVED c = false) name2).
  { apply Forall_strip, Forall_sub_go; [by repeat constructor|].
    apply sub_chr_free. by repeat constructor. }
  destruct (Py.truthy name2) eqn:Ht; simpl.
  - split; [by left|]. split; [done|]. intros _. by apply truthy_true.
  - split; [by right|]. done.
Qed.

Lemma digit_not_reserved (c : N) : Py.is_digit c = true → RESERVED c = false.
Proof.
  unfold Py.is_digit, RESERVED, Re.among. intros Hc.
  apply andb_true_iff in Hc as [H1%N.leb_le H2%N.leb_le].
  apply bool_decide_eq_false. rewrite !elem_of_cons, elem_of_nil. lia.
Qed.

Lemma digits_go_digits (fuel : nat) (n : N) (acc : pystr) :
  Forall (fun c => Py.is_digit c = true) acc →
  Forall (fun c => Py.is_digit c = true) (Py.digits_go fuel n acc).
Proof.
  revert n acc. induction fuel as [|fuel IH]; intros n acc Hacc; simpl; [done|].
  destruct (N.ltb_spec n 10) as [Hlt|Hge].
  - constructor; [|done]. unfold Py.is_digit.
    apply andb_true_iff. split; apply N.leb_le; lia.
  - apply IH. constructor; [|done]. unfold Py.is_digit.
    assert (Hr : n mod 10 < 10) by (by apply N.mod_upper_bound).
    revert Hr. generalize (n mod 10). intros r Hr. apply andb_true_iff. split; apply N.leb_le; lia.
Qed.

Lemma zero_pad_digits (width : nat) (n : N) :
  Forall (fun c => Py.is_digit c = true) (Py.zero_pad width n).
Proof.
  unfold Py.zero_pad, Py.digits. apply Forall_app. split.
  - apply Forall_replicate. reflexivity.
  - apply digits_go_digits. constructor.
Qed.

Lemma strftime_ymd_digits (d : N * N * N) :
  Forall (fun c => Py.is_digit c = true) (strftime_ymd d).
Proof.
  destruct d as [[y m] d]. unfold strftime_ymd.
  apply Forall_app. split; [apply digits_go_digits; constructor|].
  apply Forall_app. split; apply zero_pad_digits.
Qed.



Lemma date_part_digits (published_at : pystr) :
  Forall (fun c => Py.is_digit c = true) (date_part published_at).
Proof.
  unfold date_part. destruct (Py.truthy published_at); [|done].
  destruct (Re.search DATE_RE published_at) as [found|]; [|done].
  destruct (strptime_ymd _) as [d|]; [|done]. apply strftime_ymd_digits.
Qed.

Lemma safe_filename_free (name fallback : pystr) :
  Forall (fun c => RESERVED c = false) fallback →
  Forall (fun c => RESERVED c = false) (safe_filename name fallback).
Proof.
  intros Hf. unfold safe_filename.
  destruct (Py.truthy _) eqn:Ht; simpl; [|done].
  apply Forall_strip, Forall_sub_go; [by repeat constructor|].
  apply sub_chr_free. by repeat constructor.
Qed.


(** ** Content extractor *)

(** X3. [pick_html] returns the first match of the first selector of the
    chain that is not the empty string and matches something; it returns
    nothing exactly when every selector is empty or matches nothing. *)
Theorem pick_html_first `{Library} (soup : node) (selectors : list pystr) :
  match pick_html soup selectors with
  | Some n =>
      ∃ pre sel post,
        selectors = pre ++ sel :: post
        ∧ Forall (fun p => p = [] ∨ select p soup = []) pre
        ∧ sel ≠ [] ∧ head (select sel soup) = Some n
  | None => Forall (fun p => p = [] ∨ select p soup = []) selectors
  end.
Proof.
  induction selectors as [|sel rest IH]; [constructor|].
  cbn [pick_html]. destruct sel as [|c sel]; simpl negb; cbv iota.
  - destruct (pick_html soup rest) as [n|].
    + destruct IH as (pre & s & post & -> & Hpre & Hs & Hn).
      exists ([] :: pre), s, post. split; [done|]. split; [|done].
      constructor; [by left | done].
    + constructor; [by left | done].
  - unfold select_one. destruct (select (c :: sel) soup) as [|n ns] eqn:Hsel; simpl.
    + destruct (pick_html soup rest) as [n|].
      * destruct IH as (pre & s & post & -> & Hpre & Hs & Hn).
        exists ((c :: sel) :: pre), s, post. split; [done|]. split; [|done].
        constructor; [by right | done].
      * constructor; [by right | done].
    + exists [], (c :: sel), rest. rewrite Hsel. split; [done|]. split; [constructor|].
      split; done.
Qed.

Lemma sort_desc_nil {A} (key : A → nat) (l : list A) :
  sort_desc key l = [] → l = [].
Proof.
  destruct l as [|x l]; [done|]. intros Hs.
  assert (Hx : x ∈ sort_desc key (x :: l)) by (apply elem_of_sort_desc; left).
  rewrite Hs in Hx. by apply elem_of_nil in Hx.
Qed.

(** X4. [guess_content_node] finds no content node only on a page where
    every [div] is a noise node: as soon as one [div] is not, some node
    is returned. *)
Theorem guess_content_node_none `{Library} (soup : node) (selectors : list pystr) :
  guess_content_node soup selectors = None →
  Forall (fun d => is_noise_node d = true) (Bs.find_all is_div soup).
Proof.
  unfold guess_content_node.
  destruct (pick_html soup selectors); [done|].
  destruct (first_content soup CONTENT_SELECTORS); [done|].
  destruct (unless_tag_block (Bs.find _ soup)); [done|].
  destruct (unless_tag_block (Bs.find _ soup)); [done|].
  unfold largest_div.
  destruct (Bs.find_all is_div soup) as [|d ds]; [constructor|].
  destruct (filter _ (d :: ds)) as [|c cs] eqn:Hf.
  - intros _. apply Forall_forall. intros x Hx.
    destruct (is_noise_node x) eqn:Hn; [done|].
    assert (Hin : x ∈ filter (fun c => is_noise_node c = false) (d :: ds))
      by (by apply list_elem_of_filter).
    rewrite Hf in Hin. by apply elem_of_nil in Hin.
  - intros Hhead. destruct (sort_desc _ (c :: cs)) as [|? ?] eqn:Hs; [|done].
    by apply sort_desc_nil in Hs.
Qed.

(** ** Tags *)

Lemma add_tag_spec (tags : list pystr) (a : node) :
  add_tag tags a = tags ∨ (add_tag tags a = tags ++ [Bs.get_text [] a]
                           ∧ Bs.get_text [] a ≠ [] ∧ Bs.get_text [] a ∉ tags).
Proof.
  unfold add_tag. destruct (Py.truthy _) eqn:Ht; simpl; [|by left].
  destruct (bool_decide _) eqn:Hd; simpl; [by left|].
  right. apply truthy_true in Ht. apply bool_decide_eq_false in Hd. done.
Qed.

(** The loop that collects tag texts keeps the list free of duplicates
    and of empty texts. *)
Lemma foldl_add_tag (l : list node) (tags : list pystr) :
  NoDup tags → Forall (fun t => t ≠ []) tags →
  NoDup (foldl add_tag tags l) ∧ Forall (fun t => t ≠ []) (foldl add_tag tags l).
Proof.
  revert tags. induction l as [|a l IH]; intros tags Hnd Hne; [done|].
  simpl. destruct (add_tag_spec tags a) as [->|(-> & Hne' & Hnew)]; [by apply IH|].
  apply IH.
  - apply NoDup_app. split; [done|]. split; [|apply NoDup_singleton].
    intros x Hx ->%list_elem_of_singleton. done.
  - apply Forall_app. split; [done | by constructor].
Qed.

Lemma configured_tags (soup : node) (select' : pystr → node → list node)
    (chain : list pystr) (tags : list pystr) :
  NoDup tags → Forall (fun t => t ≠ []) tags →
  NoDup (foldl (fun tag_list sel => foldl add_tag tag_list (select' sel soup)) tags chain)
  ∧ Forall (fun t => t ≠ [])
      (foldl (fun tag_list sel => foldl add_tag tag_list (select' sel soup)) tags chain).
Proof.
  revert tags. induction chain as [|sel chain IH]; intros tags Hnd Hne; [done|].
  simpl. destruct (foldl_add_tag (select' sel soup) tags Hnd Hne). by apply IH.
Qed.

(** X5. No tag of an article is the empty string. The tags read from
    tags of the page, by the configured selectors or by the selector of
    [guess_tags], hold no text twice; only the tags split from the text
    after the label may repeat. *)
Theorem parse_article_tags `{Library} (html_text link : pystr) (cfg : config) :
  let soup := html_parse html_text in
  let a := parse_article html_text link cfg in
  Forall (fun t => t ≠ []) (tags a)
  ∧ (sel_tags (cfg_selectors cfg) ≠ [] → NoDup (tags a))
  ∧ (sel_tags (cfg_selectors cfg) = [] →
     foldl add_tag [] (select (py "a[rel='tag'], .blog_tag a, .tag a") soup) ≠ [] →
     NoDup (tags a)).
Proof.
  intros soup a. subst a. unfold parse_article. fold soup. simpl.
  destruct (sel_tags (cfg_selectors cfg)) as [|sel chain] eqn:Hchain.
  - unfold guess_tags.
    destruct (foldl_add_tag (select (py "a[rel='tag'], .blog_tag a, .tag a") soup) [])
      as [Hnd Hne]; [constructor..|].
    destruct (foldl add_tag [] _) as [|t ts] eqn:Hsel.
    + split; [|done].
      destruct (Re.search TAGS_RE _) as [m|]; [|done].
      destruct (_ <=? _)%nat; [|done].
      apply Forall_forall. by intros t [? _]%list_elem_of_filter.
    + done.
  - destruct (configured_tags soup select (sel :: chain) []) as [Hnd Hne]; [constructor..|].
    done.
Qed.

(** ** Link discovery *)

Lemma elem_of_add_link `{Library} (base_url regex_pattern : pystr)
    (links : gset pystr) (href u : pystr) :
  u ∈ add_link base_url regex_pattern links href ↔
  u ∈ links
  ∨ (Py.strip href ≠ [] ∧ u = urljoin base_url (Py.strip href)
     ∧ is_article_url u (Some regex_pattern) = true).
Proof.
  unfold add_link. destruct (Py.truthy (Py.strip href)) eqn:Ht; simpl.
  - apply truthy_true in Ht.
    destruct (is_article_url (urljoin _ _) _) eqn:Hart.
    + rewrite elem_of_union, elem_of_singleton. split.
      * intros [->|?]; [right | left]; done.
      * intros [?|(_ & -> & _)]; [right | left]; done.
    + split; [by left|]. intros [?|(_ & -> & Hu)]; [done | congruence].
  - apply truthy_false in Ht. split; [by left|]. intros [?|(? & _)]; done.
Qed.

Lemma elem_of_foldl_add_link `{Library} (base_url regex_pattern : pystr)
    (tags : list node) (links : gset pystr) (u : pystr) :
  u ∈ foldl (fun links a => add_link base_url regex_pattern links
                              (default [] (Bs.get a (py "href")))) links tags ↔
  u ∈ links
  ∨ ∃ a, a ∈ tags
         ∧ Py.strip (default [] (Bs.get a (py "href"))) ≠ []
         ∧ u = urljoin base_url (Py.strip (default [] (Bs.get a (py "href"))))
         ∧ is_article_url u (Some regex_pattern) = true.
Proof.
  revert links. induction tags as [|a tags IH]; intros links; simpl.
  - split; [by left|]. intros [?|(a & []%elem_of_nil & _)]. done.
  - rewrite IH, elem_of_add_link. split.
    + intros [[?|Hu]|(a' & Hin & Hu)].
      * by left.
      * right. exists a. split; [left | done].
      * right. exists a'. split; [by right | done].
    + intros [?|(a' & [->|Hin]%elem_of_cons & Hu)].
      * left. by left.
      * left. by right.
      * right. eauto.
Qed.

(** X6. The links [extract_article_links] returns are exactly the
    article URLs obtained by joining the base URL with the [href], white
    space around it removed, of a candidate tag whose [href] is not blank.
    The candidates are the matches of the configured selector, or without
    one the [a] tags that have an [href]. *)
Theorem extract_article_links_spec `{Library} (list_html base_url : pystr) (cfg : config)
    (u : pystr) :
  let soup := html_parse list_html in
  let selector := sel_list_link (cfg_selectors cfg) in
  let candidates :=
    if Py.truthy selector then select selector soup
    else Bs.find_all (fun a => Bs.named (py "a") a && has_attr (py "href") a) soup in
  u ∈ extract_article_links list_html base_url cfg ↔
  ∃ a, a ∈ candidates
       ∧ Py.strip (default [] (Bs.get a (py "href"))) ≠ []
       ∧ u = urljoin base_url (Py.strip (default [] (Bs.get a (py "href"))))
       ∧ is_article_url u (Some (cfg_article_url_regex cfg)) = true.
Proof.
  intros soup selector candidates. unfold extract_article_links.
  fold soup. fold selector. subst candidates.
  destruct (Py.truthy selector); rewrite elem_of_foldl_add_link, elem_of_empty; tauto.
Qed.

Lemma extract_article_links_article `{Library} (list_html base_url : pystr) (cfg : config)
    (u : pystr) :
  u ∈ extract_article_links list_html base_url cfg →
  is_article_url u (Some (cfg_article_url_regex cfg)) = true.
Proof.
  unfold extract_article_links.
  destruct (Py.truthy _); rewrite elem_of_foldl_add_link, elem_of_empty;
    intros [[]|(a & _ & _ & _ & Hu)]; done.
Qed.

(** ** Crawl orchestrator *)

Lemma visited_fetched `{Library} (get : session) (list_url : nat → pystr) (cfg : config)
    (pages : list nat) (seen links : gset pystr) :
  links ∈ visited get list_url cfg pages seen →
  ∃ page html_text,
    page ∈ pages ∧ fetch_text get (list_url page) = Some html_text
    ∧ links = extract_article_links html_text (list_url page) cfg.
Proof.
  revert seen. induction pages as [|page rest IH]; intros seen; simpl.
  { by intros ?%elem_of_nil. }
  destruct (fetch_text get (list_url page)) as [html_text|] eqn:Hfetch.
  2:{ by intros ?%elem_of_nil. }
  intros [->|Hin]%elem_of_cons.
  - exists page, html_text. split; [left | done].
  - destruct (filter _ _) as [|l0 ls]; [by apply elem_of_nil in Hin|].
    destruct (IH _ Hin) as (page' & html' & Hp & Hf & Hl).
    exists page', html'. split; [by right | done].
Qed.

(** X7. Every URL [main] goes on to download was found on a listing page
    that was fetched, with a page number from 1 to the page cap, and is an
    article URL by [is_article_url]. *)
Theorem discover_sound `{Library} (get : session) (list_url : nat → pystr)
    (cfg : config) (max_pages : nat) (u : pystr) :
  u ∈ discover get list_url cfg max_pages →
  is_article_url u (Some (cfg_article_url_regex cfg)) = true
  ∧ ∃ page html_text,
      (1 <= page <= max_pages)%nat
      ∧ fetch_text get (list_url page) = Some html_text
      ∧ u ∈ extract_article_links html_text (list_url page) cfg.
Proof.
  unfold discover, collect_links. intros Hu.
  pose proof (collect_links_invariant set_iter get list_url cfg (seq 1 max_pages) ∅ [])
    as Hinv.
  destruct (collect_links_in _ _ _ _ _ _ _) as [seen urls]. simpl in Hu.
  destruct Hinv as (_ & _ & Hvis).
  - exact set_iter_perm.
  - constructor.
  - intros x. rewrite elem_of_nil, elem_of_empty. tauto.
  - apply Hvis in Hu as [[]%elem_of_nil|(links & Hl & Hu)].
    apply visited_fetched in Hl as (page & html_text & Hp & Hf & ->).
    split; [by eapply extract_article_links_article|].
    exists page, html_text. apply elem_of_seq in Hp. split; [lia | done].
Qed.

(** The list only grows while the loop runs. *)
Lemma collect_links_extends `{Library} (iter : nat → gset pystr → list pystr)
    (get : session) (list_url : nat → pystr)
    (cfg : config) (pages : list nat) (seen : gset pystr) (urls : list pystr) :
  urls `prefix_of` (collect_links_in iter get list_url cfg pages seen urls).2.
Proof.
  revert seen urls. induction pages as [|page rest IH]; intros seen urls; simpl; [done|].
  destruct (fetch_text get (list_url page)) as [html_text|]; [|done].
  destruct (filter _ _) as [|l0 ls] eqn:Hnew; [done|].
  etrans; [|apply IH]. by apply prefix_app_r.
Qed.

Lemma collect_links_app `{Library} (iter : nat → gset pystr → list pystr)
    (get : session) (list_url : nat → pystr)
    (cfg : config) (pages more : list nat) (seen : gset pystr) (urls : list pystr) :
  (collect_links_in iter get list_url cfg pages seen urls).2
  `prefix_of` (collect_links_in iter get list_url cfg (pages ++ more) seen urls).2.
Proof.
  revert seen urls. induction pages as [|page rest IH]; intros seen urls; simpl.
  - apply collect_links_extends.
  - destruct (fetch_text get (list_url page)) as [html_text|]; [|done].
    destruct (filter _ _) as [|l0 ls] eqn:Hnew; [done|]. apply IH.
Qed.

(** Two runs in two orders of iteration go through the same pages and
    add, page by page, the same links. *)
Lemma collect_links_orders `{Library} (iter1 iter2 : nat → gset pystr → list pystr)
    (get : session) (list_url : nat → pystr)
    (cfg : config) (pages more : list nat) (seen : gset pystr) (urls1 urls2 : list pystr) :
  iterates iter1 → iterates iter2 →
  ∃ add1 add2,
    (collect_links_in iter1 get list_url cfg pages seen urls1).2 = urls1 ++ add1
    ∧ (collect_links_in iter2 get list_url cfg (pages ++ more) seen urls2).2 = urls2 ++ add2
    ∧ take (length add1) add2 ≡ₚ add1.
Proof.
  intros Hiter1 Hiter2. revert seen urls1 urls2.
  induction pages as [|page rest IH]; intros seen urls1 urls2.
  { destruct (collect_links_extends iter2 get list_url cfg more seen urls2) as [add2 Hadd2].
    exists [], add2. simpl. by rewrite app_nil_r. }
  simpl. destruct (fetch_text get (list_url page)) as [html_text|].
  2:{ exists [], []. by rewrite !app_nil_r. }
  set (links := extract_article_links html_text (list_url page) cfg).
  assert (Hperm : filter (fun link => link ∉ seen) (iter1 page links)
                  ≡ₚ filter (fun link => link ∉ seen) (iter2 page links)).
  { by rewrite (new_links_perm iter1), (new_links_perm iter2). }
  destruct (filter (fun link => link ∉ seen) (iter1 page links)) as [|l0 ls] eqn:Hnew1.
  { symmetry in Hperm. apply Permutation_nil_r in Hperm. rewrite Hperm.
    exists [], []. by rewrite !app_nil_r. }
  rewrite (foldl_add_perm seen _ _ Hperm).
  destruct (filter (fun link => link ∉ seen) (iter2 page links)) as [|x xs] eqn:Hnew2.
  { by apply Permutation_nil_r in Hperm. }
  destruct (IH (foldl (fun s link => {[link]} ∪ s) seen (x :: xs))
              (urls1 ++ l0 :: ls) (urls2 ++ x :: xs)) as (add1 & add2 & -> & -> & Htake).
  exists ((l0 :: ls) ++ add1), ((x :: xs) ++ add2).
  rewrite <- !app_assoc. split; [done|]. split; [done|].
  rewrite length_app, (Permutation_length Hperm), take_app_add'; [|done].
  by rewrite Hperm, Htake.
Qed.

(** X8. Raising the page cap never changes what was discovered with the
    lower cap. In one order of iteration of the link sets, as within one
    interpreter, the list for the lower cap is a prefix of the list for
    the higher one. In two orders, as between two runs with different
    hash seeds, the list for the higher cap begins with the links of the
    list for the lower one, page by page in some order. *)
Theorem discover_prefix `{Library} (iter1 iter2 : nat → gset pystr → list pystr)
    (get : session) (list_url : nat → pystr) (cfg : config) (max_pages more : nat) :
  iterates iter1 → iterates iter2 →
  discover_in iter1 get list_url cfg max_pages
    `prefix_of` discover_in iter1 get list_url cfg (max_pages + more)
  ∧ take (length (discover_in iter1 get list_url cfg max_pages))
      (discover_in iter2 get list_url cfg (max_pages + more))
    ≡ₚ discover_in iter1 get list_url cfg max_pages.
Proof.
  intros Hiter1 Hiter2. unfold discover_in. rewrite seq_app. split.
  - apply collect_links_app.
  - destruct (collect_links_orders iter1 iter2 get list_url cfg (seq 1 max_pages)
                (seq (1 + max_pages) more) ∅ [] [] Hiter1 Hiter2)
      as (add1 & add2 & -> & -> & Htake).
    done.
Qed.

(** ** Image localizer: files and requests *)

(** What one turn of the loop does to the files, the cache and the log,
    in any state: no file changes content, the cache only grows, and a
    request is sent only for a URL that is not cached, which is cached
    afterwards if the server answered. *)
Lemma localize_img_effect `{Library} (get : session) (article_url images_dir : pystr)
    (st : loop_state) (img : node) :
  let u := urljoin article_url (img_src img) in
  let st' := turn get article_url images_dir st img in
  (∀ path bs, files (st_world st) !! path = Some bs →
              files (st_world st') !! path = Some bs)
  ∧ (∀ x, is_Some (st_cache st !! x) → is_Some (st_cache st' !! x))
  ∧ (requests (st_world st') = requests (st_world st)
     ∨ (requests (st_world st') = requests (st_world st) ++ [u]
        ∧ st_cache st !! u = None
        ∧ (is_Some (get u) → is_Some (st_cache st' !! u)))).
Proof.
  intros u st'. subst st'. unfold turn, localize_img.
  destruct (Py.truthy (img_src img)); simpl; [|by auto].
  fold u. destruct (st_cache st !! u) as [cached|] eqn:Hc; simpl; [by auto|].
  destruct (path_exists (st_world st) _) eqn:Hex; simpl.
  { split; [done|]. split; [|by left].
    intros x Hx. destruct (decide (u = x)) as [<-|Hne].
    - rewrite lookup_insert_eq. eauto.
    - by rewrite lookup_insert_ne. }
  destruct (get u) as [resp|]; simpl.
  - split; [|split].
    + intros path bs Hp. destruct (decide (path_join images_dir (image_filename u) = path))
        as [<-|Hne].
      * unfold path_exists in Hex. apply bool_decide_eq_false in Hex.
        exfalso. apply Hex. eauto.
      * by rewrite lookup_insert_ne.
    + intros x Hx. destruct (decide (u = x)) as [<-|Hne].
      * rewrite lookup_insert_eq. eauto.
      * by rewrite lookup_insert_ne.
    + right. split; [done|]. split; [done|]. intros _. rewrite lookup_insert_eq. eauto.
  - split; [done|]. split; [done|]. right. split; [done|]. split; [done|].
    by intros [? ?].
Qed.

(** The same over a run of the loop: the requests sent for URLs the
    server answers are pairwise distinct, and they are cached. *)
Lemma turns_effect `{Library} (get : session) (article_url images_dir : pystr)
    (imgs : list node) (st : loop_state) :
  let st' := foldl (turn get article_url images_dir) st imgs in
  (∀ path bs, files (st_world st) !! path = Some bs →
              files (st_world st') !! path = Some bs)
  ∧ (∀ x, is_Some (st_cache st !! x) → is_Some (st_cache st' !! x))
  ∧ ∃ extra,
      requests (st_world st') = requests (st_world st) ++ extra
      ∧ NoDup (filter (fun u => is_Some (get u)) extra)
      ∧ (∀ u, u ∈ extra → st_cache st !! u = None)
      ∧ (∀ u, u ∈ extra → is_Some (get u) → is_Some (st_cache st' !! u)).
Proof.
  revert st. induction imgs as [|img imgs IH]; intros st; simpl.
  { split; [done|]. split; [done|]. exists []. rewrite app_nil_r.
    split; [done|]. split; [constructor|]. split; by intros u ?%elem_of_nil. }
  destruct (localize_img_effect get article_url images_dir st img) as (Hf1 & Hc1 & Hr1).
  set (st1 := turn get article_url images_dir st img) in *.
  destruct (IH st1) as (Hf & Hc & extra & Hr & Hnd & Hfresh & Hcached).
  split; [by intros path bs ?; apply Hf, Hf1|].
  split; [by intros x ?; apply Hc, Hc1|].
  destruct Hr1 as [Hr1|(Hr1 & Hmiss & Hnow)].
  - exists extra. rewrite Hr, Hr1. split; [done|]. split; [done|]. split; [|done].
    intros u Hu. specialize (Hfresh u Hu).
    destruct (st_cache st !! u) eqn:Hst; [|done].
    destruct (Hc1 u) as [? Hsome]; [eauto|]. congruence.
  - set (u0 := urljoin article_url (img_src img)) in *.
    exists (u0 :: extra). rewrite Hr, Hr1, <- app_assoc. split; [done|]. split; [|split].
    + rewrite filter_cons. destruct (decide (is_Some (get u0))) as [Hok|]; [|done].
      constructor; [|done]. intros [_ Hin]%list_elem_of_filter.
      specialize (Hfresh u0 Hin). destruct (Hnow Hok) as [? Hsome]. congruence.
    + intros u [->|Hu]%elem_of_cons; [done|]. specialize (Hfresh u Hu).
      destruct (st_cache st !! u) eqn:Hst; [|done].
      destruct (Hc1 u) as [? Hsome]; [eauto|]. congruence.
    + intros u [->|Hu]%elem_of_cons Hok; [by apply Hc, Hnow | by apply Hcached].
Qed.

(** X9. [download_images] never changes a file that is already on disk:
    whatever was there before the call is there after it, with the same
    content. *)
Theorem download_images_keeps_files `{Library} (content_html article_url : pystr)
    (get : session) (output_dir : pystr) (w : world) (path : pystr) (bs : list Byte.byte) :
  files w !! path = Some bs →
  files (download_images content_html article_url get output_dir w).2 !! path = Some bs.
Proof.
  intros Hp. unfold download_images.
  set (soup := html_parse content_html). set (dir := path_join output_dir (py "images")).
  pose proof (localize_all_state get article_url dir soup (LoopState w ∅)) as Hst.
  destruct (localize_all get article_url dir (LoopState w ∅) soup) as [st1 soup1].
  simpl in *. subst st1.
  by apply (turns_effect get article_url dir (Bs.find_all is_img soup) (LoopState w ∅)).
Qed.

(** X10. In one call of [download_images] a URL that the server answers
    is requested at most once, however many image tags carry it: the
    requests of the call that were answered are pairwise distinct. A URL
    whose fetch fails is not remembered and is tried again at its next
    occurrence. *)
Theorem download_images_requests_once `{Library} (content_html article_url : pystr)
    (get : session) (output_dir : pystr) (w : world) :
  ∃ extra,
    requests (download_images content_html article_url get output_dir w).2
    = requests w ++ extra
    ∧ NoDup (filter (fun u => is_Some (get u)) extra).
Proof.
  unfold download_images.
  set (soup := html_parse content_html). set (dir := path_join output_dir (py "images")).
  pose proof (localize_all_state get article_url dir soup (LoopState w ∅)) as Hst.
  destruct (localize_all get article_url dir (LoopState w ∅) soup) as [st1 soup1].
  simpl in *. subst st1.
  destruct (turns_effect get article_url dir (Bs.find_all is_img soup) (LoopState w ∅))
    as (_ & _ & extra & Hr & Hnd & _).
  exists extra. done.
Qed.

(** ** Image localizer: a site that does not answer *)

(** One turn when no fetch succeeds and no image file is on disk, from a
    state with an empty cache: the tag is left as it is, the cache stays
    empty, no file appears, and the URL of the tag, if it names a source,
    is logged. *)
Lemma localize_img_offline `{Library} (get : session) (article_url images_dir : pystr)
    (st : loop_state) (img : node) :
  (∀ u, get u = None) →
  (∀ u, path_exists (st_world st) (file_path_of images_dir u) = false) →
  st_cache st = ∅ →
  localize_img get article_url images_dir st img
  = (LoopState (World (files (st_world st))
                  (requests (st_world st)
                   ++ (if Py.truthy (img_src img)
                       then [urljoin article_url (img_src img)] else []))) ∅,
     img).
Proof.
  intros Hget Hex Hcache. unfold localize_img.
  destruct st as [[fs rs] cache]. simpl in *. subst cache.
  destruct (Py.truthy (img_src img)); simpl; [|by rewrite app_nil_r].
  rewrite lookup_empty.
  change (path_join images_dir (image_filename ?u)) with (file_path_of images_dir u).
  by rewrite Hex, Hget.
Qed.

Lemma localize_tree_offline `{Library} (get : session) (article_url images_dir : pystr)
    (n : node) (st : loop_state) :
  (∀ u, get u = None) →
  (∀ u, path_exists (st_world st) (file_path_of images_dir u) = false) →
  st_cache st = ∅ →
  ∃ rs, localize_tree get article_url images_dir st n
        = (LoopState (World (files (st_world st)) rs) ∅, n).
Proof.
  intros Hget. revert st.
  induction n as [k s|nm a cs IH] using node_induction; intros st Hex Hcache.
  { exists (requests (st_world st)). destruct st as [[fs rs] cache]. simpl in *. by subst. }
  rewrite localize_tree_tag.
  assert (Hfirst : ∃ rs, (if is_img (Tag nm a cs)
                          then localize_img get article_url images_dir st (Tag nm a cs)
                          else (st, Tag nm a cs))
                         = (LoopState (World (files (st_world st)) rs) ∅, Tag nm a cs)).
  { destruct (is_img (Tag nm a cs)).
    - rewrite localize_img_offline by done. eauto.
    - exists (requests (st_world st)). destruct st as [[fs rs] cache]. simpl in *. by subst. }
  destruct Hfirst as [rs1 ->].
  assert (Hrest : ∀ rs0, ∃ rs,
             thread (localize_tree get article_url images_dir)
               (LoopState (World (files (st_world st)) rs0) ∅) cs
             = (LoopState (World (files (st_world st)) rs) ∅, cs)).
  { clear rs1. induction cs as [|c cs IHcs]; intros rs0; [by eauto|].
    apply Forall_cons in IH as [IHc IH].
    rewrite thread_cons.
    destruct (IHc (LoopState (World (files (st_world st)) rs0) ∅)) as [rs1 ->]; [done..|].
    simpl. destruct (IHcs IH rs1) as [rs2 ->]. eauto. }
  destruct (Hrest rs1) as [rs2 ->]. eauto.
Qed.

Lemma turns_offline `{Library} (get : session) (article_url images_dir : pystr)
    (imgs : list node) (st : loop_state) :
  (∀ u, get u = None) →
  (∀ u, path_exists (st_world st) (file_path_of images_dir u) = false) →
  st_cache st = ∅ →
  foldl (turn get article_url images_dir) st imgs
  = LoopState (World (files (st_world st))
                 (requests (st_world st)
                  ++ ((fun img => urljoin article_url (img_src img))
                        <$> filter (fun img => Py.truthy (img_src img) = true) imgs))) ∅.
Proof.
  intros Hget. revert st. induction imgs as [|img imgs IH]; intros st Hex Hcache.
  { simpl. rewrite app_nil_r. destruct st as [[fs rs] cache]. simpl in *. by subst. }
  simpl. unfold turn at 2. rewrite localize_img_offline by done. simpl.
  rewrite IH by done. simpl. rewrite filter_cons.
  destruct (Py.truthy (img_src img)).
  - rewrite decide_True by done. by rewrite fmap_cons, <- app_assoc.
  - rewrite decide_False by done. by rewrite app_nil_r.
Qed.

(** X11. When no image can be fetched and no image file is on disk,
    [download_images] returns the page as parsed and written back, every
    image still pointing at its remote source, writes no file, and has
    tried each image that names a source once per tag, in document
    order. *)
Theorem download_images_offline `{Library} (content_html article_url : pystr)
    (get : session) (output_dir : pystr) (w : world) :
  (∀ u, get u = None) →
  (∀ u, path_exists w (file_path_of (path_join output_dir (py "images")) u) = false) →
  download_images content_html article_url get output_dir w
  = (html_str (html_parse content_html),
     World (files w) (requests w ++ image_urls article_url (html_parse content_html))).
Proof.
  intros Hget Hex. unfold download_images, image_urls.
  set (soup := html_parse content_html). set (dir := path_join output_dir (py "images")).
  pose proof (localize_all_state get article_url dir soup (LoopState w ∅)) as Hst.
  rewrite turns_offline in Hst by done.
  assert (Hsoup : (localize_all get article_url dir (LoopState w ∅) soup).2 = soup).
  { destruct soup as [k s|nm a cs]; [done|]. unfold localize_all.
    assert (Hrest : ∀ rs0, ∃ rs,
               thread (localize_tree get article_url dir) (LoopState (World (files w) rs0) ∅) cs
               = (LoopState (World (files w) rs) ∅, cs)).
    { clear Hst. induction cs as [|c cs IHcs]; intros rs0; [by eauto|].
      rewrite thread_cons.
      destruct (localize_tree_offline get article_url dir c
                  (LoopState (World (files w) rs0) ∅)) as [rs1 ->]; [done..|].
      simpl. destruct (IHcs rs1) as [rs2 ->]. eauto. }
    destruct (Hrest (requests w)) as [rs' Hr].
    replace (LoopState w ∅) with (LoopState (World (files w) (requests w)) ∅)
      by (by destruct w).
    by rewrite Hr. }
  destruct (localize_all get article_url dir (LoopState w ∅) soup) as [st1 soup1].
  simpl in *. by subst.
Qed.

(** ** Image localizer: a second run *)

(** A file is written only together with a request that was answered. *)
Lemma turns_quiet `{Library} (get : session) (article_url images_dir : pystr)
    (imgs : list node) (st : loop_state) :
  let st' := foldl (turn get article_url images_dir) st imgs in
  ∃ extra,
    requests (st_world st') = requests (st_world st) ++ extra
    ∧ ((∀ u, u ∈ extra → get u = None) → files (st_world st') = files (st_world st)).
Proof.
  revert st. induction imgs as [|img imgs IH]; intros st; simpl.
  { exists []. by rewrite app_nil_r. }
  destruct (IH (turn get article_url images_dir st img)) as (extra & Hr & Hf).
  assert (Hstep : ∃ e,
    requests (st_world (turn get article_url images_dir st img))
    = requests (st_world st) ++ e
    ∧ ((∀ u, u ∈ e → get u = None) →
       files (st_world (turn get article_url images_dir st img)) = files (st_world st))).
  { unfold turn, localize_img.
    destruct (Py.truthy (img_src img)); simpl; [|by exists []; rewrite app_nil_r].
    destruct (st_cache st !! _); simpl; [by exists []; rewrite app_nil_r|].
    destruct (path_exists _ _); simpl; [by exists []; rewrite app_nil_r|].
    destruct (get _) as [resp|] eqn:Hget; simpl.
    - eexists [_]. split; [done|]. intros Hnone.
      rewrite Hnone in Hget by (by left). done.
    - by eexists [_]. }
  destruct Hstep as (e & Hr1 & Hf1).
  exists (e ++ extra). rewrite Hr, Hr1, <- app_assoc. split; [done|].
  intros Hnone. rewrite Hf, Hf1; [done|..]; intros u Hu; apply Hnone, elem_of_app; auto.
Qed.

(** X12. Running [download_images] a second time on the same markup, in
    the world the first run has left, writes no file and sends requests
    only for URLs that the server does not answer: what was fetched once
    is neither fetched nor written again. *)
Theorem download_images_second_run `{Library} (content_html article_url : pystr)
    (get : session) (output_dir : pystr) (w : world) :
  let w1 := (download_images content_html article_url get output_dir w).2 in
  let w2 := (download_images content_html article_url get output_dir w1).2 in
  files w2 = files w1
  ∧ ∃ extra, requests w2 = requests w1 ++ extra ∧ ∀ u, u ∈ extra → get u = None.
Proof.
  unfold download_images.
  set (soup := html_parse content_html). set (dir := path_join output_dir (py "images")).
  pose proof (localize_all_state get article_url dir soup (LoopState w ∅)) as H1.
  destruct (localize_all get article_url dir (LoopState w ∅) soup) as [st1 soup1].
  simpl in *.
  pose proof (localize_all_state get article_url dir soup (LoopState (st_world st1) ∅)) as H2.
  destruct (localize_all get article_url dir (LoopState (st_world st1) ∅) soup) as [st2 soup2].
  simpl in *.
  destruct (turns_spec get article_url dir (Bs.find_all is_img soup) (LoopState w ∅))
    as (_ & _ & _ & Hdone); [apply backed_empty_cache|].
  destruct (turns_spec get article_url dir (Bs.find_all is_img soup)
              (LoopState (st_world st1) ∅))
    as (_ & _ & (extra & Hrq & Hextra) & _); [apply backed_empty_cache|].
  destruct (turns_quiet get article_url dir (Bs.find_all is_img soup)
              (LoopState (st_world st1) ∅)) as (extra' & Hrq' & Hquiet).
  rewrite <- H1 in Hdone. rewrite <- H2 in Hrq, Hrq', Hquiet. simpl in *.
  assert (Hnone : ∀ u, u ∈ extra → get u = None).
  { intros u Hu.
    destruct (Hextra u Hu) as (Hmiss & img & Hin & Hsrc & ->).
    destruct (get (urljoin article_url (img_src img))) as [resp|] eqn:Hget; [|done].
    rewrite Hdone in Hmiss; [done.. | eauto]. }
  assert (extra' = extra) as -> by (rewrite Hrq in Hrq'; by apply app_inv_head in Hrq').
  split; [by apply Hquiet | by exists extra].
Qed.

(** ** Rendering *)

Lemma replace_char (c : N) (new s : pystr) :
  Py.replace [c] new s = s ≫= (fun x => if c =? x then new else [x]).
Proof.
  unfold Py.replace. induction s as [|x r IH]; [done|].
  cbn [Py.replace_go Py.startswith]. rewrite bind_cons.
  destruct (c =? x); simpl; by rewrite IH.
Qed.

Lemma Forall_replace_char (P : N → Prop) (c : N) (new s : pystr) :
  Forall P new → Forall (fun x => x = c ∨ P x) s → Forall P (Py.replace [c] new s).
Proof.
  intros Hnew Hs. rewrite replace_char. apply Forall_bind.
  eapply Forall_impl; [exact Hs|]. intros x Hx. simpl.
  destruct (N.eqb_spec c x) as [->|Hne]; [done|].
  destruct Hx as [->|Hx]; [done|]. by constructor.
Qed.

Lemma truthy_replace_char (c : N) (new s : pystr) :
  new ≠ [] → Py.truthy (Py.replace [c] new s) = Py.truthy s.
Proof.
  intros Hnew. rewrite replace_char. destruct s as [|x r]; [done|].
  rewrite bind_cons. destruct (c =? x); [|done].
  by destruct new.
Qed.

Lemma truthy_html_escape (s : pystr) : Py.truthy (html_escape s) = Py.truthy s.
Proof. unfold html_escape, dq. by rewrite !truthy_replace_char. Qed.

(** What [html.escape] returns has no angle bracket and no quote. *)
Lemma html_escape_free (s : pystr) : Forall (fun x => x ∉ MARKUP) (html_escape s).
Proof.
  unfold html_escape, dq, MARKUP.
  set (s1 := Py.replace _ _ s).
  assert (H2 : Forall (fun x => x ≠ 60) (Py.replace (py "<") (py "&lt;") s1)).
  { apply Forall_replace_char; [by repeat constructor|].
    apply Forall_forall. intros x _. destruct (decide (x = 60)); auto. }
  set (s2 := Py.replace _ _ s1) in *.
  assert (H3 : Forall (fun x => x ≠ 60 ∧ x ≠ 62) (Py.replace (py ">") (py "&gt;") s2)).
  { apply Forall_replace_char; [by repeat constructor|].
    eapply Forall_impl; [exact H2|]. intros x Hx. destruct (decide (x = 62)); auto. }
  set (s3 := Py.replace _ _ s2) in *.
  assert (H4 : Forall (fun x => x ≠ 60 ∧ x ≠ 62 ∧ x ≠ 34)
                 (Py.replace [34] (py "&quot;") s3)).
  { apply Forall_replace_char; [by repeat constructor|].
    eapply Forall_impl; [exact H3|]. intros x [? ?]. destruct (decide (x = 34)); auto. }
  set (s4 := Py.replace _ _ s3) in *.
  assert (H5 : Forall (fun x => x ≠ 60 ∧ x ≠ 62 ∧ x ≠ 34 ∧ x ≠ 39)
                 (Py.replace (py "'") (py "&#x27;") s4)).
  { apply Forall_replace_char; [by repeat constructor|].
    eapply Forall_impl; [exact H4|]. intros x (? & ? & ?). destruct (decide (x = 39)); auto. }
  eapply Forall_impl; [exact H5|]. intros x (? & ? & ? & ?).
  rewrite !elem_of_cons, elem_of_nil. intuition.
Qed.

Lemma occurrences_app (c : N) (s t : pystr) :
  occurrences c (s ++ t) = (occurrences c s + occurrences c t)%nat.
Proof. unfold occurrences. by rewrite filter_app, length_app. Qed.

Lemma occurrences_free (c : N) (s : pystr) :
  Forall (fun x => x ≠ c) s → occurrences c s = 0%nat.
Proof.
  unfold occurrences. induction 1 as [|x r Hx _ IH]; [done|].
  by rewrite filter_cons, decide_False.
Qed.

Lemma occurrences_escape (c : N) (s : pystr) :
  c ∈ MARKUP → occurrences c (html_escape s) = 0%nat.
Proof.
  intros Hc. apply occurrences_free.
  eapply Forall_impl; [apply html_escape_free|]. by intros x Hx ->.
Qed.

Lemma occurrences_join (c : N) (sep : pystr) (parts : list pystr) :
  occurrences c (Py.join sep parts)
  = (sum_list (occurrences c <$> parts) + pred (length parts) * occurrences c sep)%nat.
Proof.
  induction parts as [|p [|q rest] IH]; [done|simpl; lia|].
  change (Py.join sep (p :: q :: rest)) with (p ++ sep ++ Py.join sep (q :: rest)).
  rewrite !occurrences_app, IH. simpl. lia.
Qed.

Lemma occurrences_concat (c : N) (parts : list pystr) :
  occurrences c (concat parts) = sum_list (occurrences c <$> parts).
Proof.
  induction parts as [|p rest IH]; [done|]. simpl. by rewrite occurrences_app, IH.
Qed.

Lemma occurrences_render_tags (c : N) (ts ts' : list pystr) :
  c ∈ MARKUP → length ts = length ts' →
  occurrences c (render_tags ts) = occurrences c (render_tags ts').
Proof.
  intros Hc Hlen. unfold render_tags. rewrite !occurrences_join, !length_fmap, Hlen.
  f_equal. clear -Hc Hlen. revert ts' Hlen.
  induction ts as [|t ts IH]; intros [|t' ts'] Hlen; try done.
  rewrite !fmap_cons. cbn [sum_list_with]. unfold id at 1 3.
  rewrite !occurrences_app, !occurrences_escape by done.
  f_equal. apply IH. by injection Hlen.
Qed.

Lemma truthy_or_else (a b : pystr) : b ≠ [] → Py.truthy (Py.or_else a b) = true.
Proof. intros Hb. unfold Py.or_else. destruct a; [by destruct b|done]. Qed.

Lemma occurrences_meta_line (c : N) (p q p' q' : pystr) (open1 open2 close : pystr) :
  c ∈ MARKUP → (p = [] ↔ p' = []) → (q = [] ↔ q' = []) →
  open1 ≠ [] → open2 ≠ [] →
  occurrences c
    (Py.join (py " ")
       (List.filter Py.truthy
          [ if Py.truthy (html_escape p) then open1 ++ html_escape p ++ close else [];
            if Py.truthy (html_escape q) then open2 ++ html_escape q ++ close else [] ]))
  = occurrences c
      (Py.join (py " ")
         (List.filter Py.truthy
            [ if Py.truthy (html_escape p') then open1 ++ html_escape p' ++ close else [];
              if Py.truthy (html_escape q') then open2 ++ html_escape q' ++ close else [] ])).
Proof.
  intros Hc Hp Hq H1 H2. rewrite !truthy_html_escape.
  assert (Ht : ∀ o x, o ≠ [] → Py.truthy (o ++ x) = true) by (by intros [|??] ??).
  assert (Hpt : Py.truthy p = Py.truthy p').
  { destruct p, p'; try done; exfalso; [by destruct Hp as [Hp _]; specialize (Hp eq_refl)
                                      | by destruct Hp as [_ Hp]; specialize (Hp eq_refl)]. }
  assert (Hqt : Py.truthy q = Py.truthy q').
  { destruct q, q'; try done; exfalso; [by destruct Hq as [Hq _]; specialize (Hq eq_refl)
                                      | by destruct Hq as [_ Hq]; specialize (Hq eq_refl)]. }
  rewrite <- Hpt, <- Hqt.
  destruct (Py.truthy p), (Py.truthy q); cbn [List.filter Py.truthy];
    rewrite ?Ht by done; rewrite !occurrences_join; cbn [fmap list_fmap sum_list_with length]; unfold id;
    rewrite ?occurrences_app, ?occurrences_escape by done; done.
Qed.

(** X13. The text fields of an article cannot add markup to its page:
    the title, the date, the category, the tags and the URL are escaped,
    so the number of angle brackets and of quotes in the page depends
    only on the content, on the number of tags and on whether the date
    and the category are empty. The content itself is inserted as it is. *)
Theorem render_post_html_markup (a b : article) (c : N) :
  c ∈ MARKUP →
  content_html a = content_html b →
  length (tags a) = length (tags b) →
  (published_at a = [] ↔ published_at b = []) →
  (category a = [] ↔ category b = []) →
  occurrences c (render_post_html a) = occurrences c (render_post_html b).
Proof.
  intros Hc Hcontent Htags Hpub Hcat. unfold render_post_html. cbv zeta.
  rewrite !occurrences_join. f_equal.
  cbn [fmap list_fmap sum_list_with]. unfold id.
  rewrite !occurrences_app, !occurrences_escape by done.
  rewrite Hcontent, (occurrences_render_tags c (tags a) (tags b)) by done.
  rewrite (occurrences_meta_line c (published_at a) (category a)
             (published_at b) (category b)) by done.
  done.
Qed.

Lemma occurrences_render_card (c : N) (r r' : item) :
  c ∈ MARKUP →
  length (item_tags r) = length (item_tags r') →
  (item_category r = [] ↔ item_category r' = []) →
  occurrences c (render_card r) = occurrences c (render_card r').
Proof.
  intros Hc Htags Hcat. unfold render_card. cbv zeta.
  rewrite !truthy_html_escape.
  assert (Hct : Py.truthy (item_category r) = Py.truthy (item_category r')).
  { destruct (item_category r), (item_category r'); try done; exfalso;
      [by destruct Hcat as [Hcat _]; specialize (Hcat eq_refl)
      | by destruct Hcat as [_ Hcat]; specialize (Hcat eq_refl)]. }
  rewrite <- Hct.
  rewrite !occurrences_join. f_equal.
  cbn [fmap list_fmap sum_list_with]. unfold id.
  rewrite !occurrences_app, !occurrences_escape by done.
  rewrite (occurrences_render_tags c (item_tags r) (item_tags r')) by done.
  destruct (Py.truthy (item_category r));
    rewrite ?occurrences_app, ?occurrences_escape by done; done.
Qed.

(** X14. The entries of the index cannot add markup to it: the file
    link, the title, the date, the category and the tags of every entry
    are escaped, so the number of angle brackets and of quotes in the
    index depends only on the number of entries, on the number of tags of
    each and on which categories are empty. *)
Theorem render_index_html_markup (articles articles' : list item) (c : N) :
  c ∈ MARKUP →
  Forall2 (fun r r' => length (item_tags r) = length (item_tags r')
                       ∧ (item_category r = [] ↔ item_category r' = []))
    articles articles' →
  occurrences c (render_index_html articles) = occurrences c (render_index_html articles').
Proof.
  intros Hc Hshape. unfold render_index_html. cbv zeta.
  rewrite !occurrences_join. f_equal.
  cbn [fmap list_fmap sum_list_with]. unfold id.
  rewrite !occurrences_app, !occurrences_concat.
  assert (Hcards : sum_list (occurrences c <$> (render_card <$> articles))
                   = sum_list (occurrences c <$> (render_card <$> articles'))).
  { induction Hshape as [|r r' rs rs' [Htags Hcat] _ IH]; [done|].
    rewrite !fmap_cons. cbn [sum_list_with]. unfold id at 1 3.
    by rewrite IH, (occurrences_render_card c r r'). }
  by rewrite Hcards.
Qed.

(** ** Crawl orchestrator: the file of an article *)

Lemma reserved_slashes (s : pystr) :
  Forall (fun c => RESERVED c = false) s → Forall (fun c => c ≠ 47 ∧ c ≠ 92) s.
Proof.
  intros Hs. eapply Forall_impl; [exact Hs|]. intros c Hc. split; intros ->; discriminate.
Qed.

Lemma replace_char_absent (c : N) (new s : pystr) :
  Forall (fun x => x ≠ c) s → Py.replace [c] new s = s.
Proof.
  intros Hs. rewrite replace_char. induction Hs as [|x r Hx _ IH]; [done|].
  rewrite bind_cons, IH. destruct (N.eqb_spec c x); [congruence|done].
Qed.

(** X15. The name under which [main] writes a post is never empty and
    holds none of the reserved characters, whatever the title and the time
    of the article. So the file is written directly in the posts
    directory, and the index links to it as [posts/] followed by the
    file name: no title can make a post land elsewhere. *)
Theorem base_name_clean (a : article) (idx : N) (output_dir : pystr) :
  let posts_dir := path_join output_dir (py "posts") in
  Forall (fun c => RESERVED c = false) (base_name a idx)
  ∧ base_name a idx ≠ []
  ∧ path_join posts_dir (post_filename a idx) = posts_dir ++ py "/" ++ post_filename a idx
  ∧ item_file (index_item a idx) = py "posts/" ++ post_filename a idx.
Proof.
  intros posts_dir.
  assert (Hfree : Forall (fun c => RESERVED c = false) (base_name a idx)
                  ∧ base_name a idx ≠ []).
  { unfold base_name.
    set (fallback := py "post_" ++ Py.zero_pad 4 idx).
    assert (Hfb : Forall (fun c => RESERVED c = false) fallback).
    { apply Forall_app. split; [by repeat constructor|].
      eapply Forall_impl; [apply zero_pad_digits | apply digit_not_reserved]. }
    assert (Hsafe : Forall (fun c => RESERVED c = false) (safe_filename (title a) fallback))
      by (by apply safe_filename_free).
    assert (Hne : safe_filename (title a) fallback ≠ []).
    { unfold safe_filename. destruct (Py.truthy _) eqn:Ht; simpl.
      - by apply truthy_true.
      - done. }
    destruct (Py.truthy (date_part (published_at a))); [|done].
    split.
    - apply Forall_app. split.
      + eapply Forall_impl; [apply date_part_digits | apply digit_not_reserved].
      + by constructor.
    - intros Hnil. apply app_eq_nil in Hnil as [_ Hnil]. discriminate. }
  destruct Hfree as [Hfree Hne]. split; [done|]. split; [done|].
  assert (Hname : Forall (fun c => c ≠ 47 ∧ c ≠ 92) (post_filename a idx)).
  { apply Forall_app. split; [by apply reserved_slashes | by repeat constructor]. }
  assert (Hstart : Py.startswith (py "/") (post_filename a idx) = false).
  { unfold post_filename. destruct (base_name a idx) as [|x r]; [done|].
    apply Forall_cons in Hfree as [Hx _].
    change (Py.startswith (py "/") ((x :: r) ++ py ".html")) with ((47 =? x) && true).
    destruct (N.eqb_spec 47 x) as [<-|]; [discriminate|done]. }
  split.
  - unfold path_join at 1. rewrite Hstart.
    assert (Hdir : negb (Py.truthy posts_dir) || Py.startswith (py "/") (reverse posts_dir)
                   = false).
    { assert (Hpre : ∃ pre, posts_dir = pre ++ py "posts").
      { unfold posts_dir, path_join.
        replace (Py.startswith (py "/") (py "posts")) with false by reflexivity.
        destruct (negb (Py.truthy output_dir) || _); [by eexists|].
        exists (output_dir ++ py "/"). by rewrite <- app_assoc. }
      destruct Hpre as [pre ->]. rewrite reverse_app. by destruct pre. }
    by rewrite Hdir.
  - unfold index_item. simpl. unfold path_join. rewrite Hstart. simpl.
    rewrite replace_char_absent; [done|].
    change (Forall (fun x => x ≠ 92) (py "posts/" ++ post_filename a idx)).
    apply Forall_app. split; [by repeat constructor|].
    eapply Forall_impl; [exact Hname|]. by intros x [_ ?].
Qed.

(** ** Patterns: what the matcher finds it accepts *)

Lemma rep_sound (p : N → bool) (s : pystr) :
  ∀ lo hi k res,
    Re.rep p lo hi s k = Some res →
    ∃ m s', s = m ++ s' ∧ Forall (fun c => p c = true) m ∧ (lo ≤ length m)%nat
            ∧ (∀ h, hi = Some h → (length m ≤ h)%nat) ∧ k s' = Some res.
Proof.
  induction s as [|c s IH]; intros lo hi k res Hrun.
  - simpl in Hrun. destruct lo; [|done].
    exists [], []. repeat split; [constructor | done | simpl; lia | done].
  - cbn [Re.rep] in Hrun.
    assert (Hstop : match lo with O => k (c :: s) | S _ => None end = Some res →
                    ∃ m s', c :: s = m ++ s' ∧ Forall (fun c => p c = true) m
                            ∧ (lo ≤ length m)%nat
                            ∧ (∀ h, hi = Some h → (length m ≤ h)%nat) ∧ k s' = Some res).
    { destruct lo; [|done]. intros Hk. exists [], (c :: s).
      repeat split; [constructor | done | simpl; lia | done]. }
    destruct (p c && Re.hi_open hi) eqn:Hc; [|by apply Hstop].
    apply andb_true_iff in Hc as [Hp Hopen].
    destruct (Re.rep p (pred lo) (pred <$> hi) s k) as [res'|] eqn:Hrec;
      [|by apply Hstop].
    simpl in Hrun. injection Hrun as ->.
    destruct (IH _ _ _ _ Hrec) as (m & s' & -> & Hm & Hlo & Hhi & Hk).
    exists (c :: m), s'. split; [done|]. split; [by constructor|].
    split; [simpl; lia|]. split; [|done].
    intros h ->. destruct h as [|h]; [done|]. specialize (Hhi h eq_refl). simpl. lia.
Qed.

Lemma rep_lazy_sound (p : N → bool) (s : pystr) :
  ∀ lo k res,
    Re.rep_lazy p lo s k = Some res →
    ∃ m s', s = m ++ s' ∧ Forall (fun c => p c = true) m ∧ (lo ≤ length m)%nat
            ∧ k s' = Some res.
Proof.
  induction s as [|c s IH]; intros lo k res Hrun.
  - simpl in Hrun. destruct lo; [|done].
    destruct (k []) eqn:Hk; [|done]. injection Hrun as ->.
    exists [], []. repeat split; [constructor | done | done].
  - cbn [Re.rep_lazy] in Hrun.
    assert (Hmore : (if p c then Re.rep_lazy p (pred lo) s k else None) = Some res →
                    ∃ m s', c :: s = m ++ s' ∧ Forall (fun c => p c = true) m
                            ∧ (lo ≤ length m)%nat ∧ k s' = Some res).
    { destruct (p c) eqn:Hp; [|done]. intros Hrec.
      destruct (IH _ _ _ Hrec) as (m & s' & -> & Hm & Hlo & Hk).
      exists (c :: m), s'. split; [done|]. split; [by constructor|].
      split; [simpl; lia | done]. }
    destruct lo; [|by apply Hmore].
    destruct (k (c :: s)) eqn:Hk; [|by apply Hmore].
    simpl in Hrun. injection Hrun as ->.
    exists [], (c :: s). repeat split; [constructor | done | done].
Qed.

(** Whatever the matcher returns, it has read the input along the
    pattern: the continuation was called on what the pattern left. *)
Lemma run_sound (r : Re.t) :
  ∀ s g k res,
    Re.run r s g k = Some res →
    ∃ g' s', accepts r s g g' s' ∧ k g' s' = Some res.
Proof.
  induction r as [|p|p lo hi|p lo|r1 IH1 r2 IH2|r1 IH1 r2 IH2|r IH|r IH];
    intros s g k res Hrun; cbn [Re.run] in Hrun.
  - exists g, s. split; [constructor | done].
  - destruct s as [|c s]; [done|]. destruct (p c) eqn:Hp; [|done].
    exists g, s. split; [by constructor | done].
  - apply rep_sound in Hrun as (m & s' & -> & Hm & Hlo & Hhi & Hk).
    exists g, s'. split; [by constructor | done].
  - apply rep_lazy_sound in Hrun as (m & s' & -> & Hm & Hlo & Hk).
    exists g, s'. split; [by constructor | done].
  - apply IH1 in Hrun as (g1 & s1 & H1 & Hrun).
    apply IH2 in Hrun as (g2 & s2 & H2 & Hk).
    exists g2, s2. split; [by econstructor | done].
  - destruct (Re.run r1 s g k) as [res1|] eqn:Hr1; simpl in Hrun.
    + injection Hrun as ->. apply IH1 in Hr1 as (g' & s' & H1 & Hk).
      exists g', s'. split; [by apply acc_alt_l | done].
    + apply IH2 in Hrun as (g' & s' & H2 & Hk).
      exists g', s'. split; [by apply acc_alt_r | done].
  - destruct (Re.run r s g k) as [res1|] eqn:Hr1; simpl in Hrun.
    + injection Hrun as ->. apply IH in Hr1 as (g' & s' & H1 & Hk).
      exists g', s'. split; [by apply acc_opt_some | done].
    + exists g, s. split; [apply acc_opt_none | done].
  - apply IH in Hrun as (g' & s' & H1 & Hk).
    eexists _, s'. split; [by apply acc_grp | done].
Qed.

Lemma accepts_suffix (r : Re.t) (s s' : pystr) (g g' : list pystr) :
  accepts r s g g' s' → ∃ m, s = m ++ s'.
Proof.
  induction 1 as [s g|p c s g Hp|p lo hi m s g|p lo m s g
                  |r1 r2 s g s1 g1 s2 g2 _ [m1 ->] _ [m2 ->]| | | | |];
    try done.
  - by exists [].
  - by exists [c].
  - by exists m.
  - by exists m.
  - exists (m1 ++ m2). by rewrite <- app_assoc.
  - by exists [].
Qed.

Lemma match_at_sound (r : Re.t) (s : pystr) (g : list pystr) (rest : pystr) :
  Re.match_at r s = Some (g, rest) → accepts r s [] g rest.
Proof.
  intros Hm. apply run_sound in Hm as (g' & s' & Hacc & Hk). by injection Hk as -> ->.
Qed.

Lemma search_from_found (r : Re.t) (s : pystr) :
  ∀ i m, Re.search_from r i s = Some m →
         ∃ pre rest rem, s = pre ++ rest
                         ∧ Re.match_at r rest = Some (Re.groups m, rem)
                         ∧ Re.group0 m = take (length rest - length rem) rest.
Proof.
  induction s as [|c s IH]; intros i m Hs; simpl in Hs.
  - destruct (Re.match_at r []) as [[g rem]|] eqn:Hm; [|done].
    injection Hs as <-. exists [], [], rem. done.
  - destruct (Re.match_at r (c :: s)) as [[g rem]|] eqn:Hm.
    + injection Hs as <-. exists [], (c :: s), rem. done.
    + apply IH in Hs as (pre & rest & rem & -> & Hr & Hg).
      exists (c :: pre), rest, rem. done.
Qed.

Lemma take_matched (m s : pystr) : take (length (m ++ s) - length s) (m ++ s) = m.
Proof.
  rewrite length_app. replace (length m + length s - length s)%nat with (length m) by lia.
  by rewrite take_app_length.
Qed.

(** ** White space at the ends *)

Lemma lstrip_head (s : pystr) (c : N) (r : pystr) :
  Py.lstrip s = c :: r → Py.isspace c = false.
Proof.
  induction s as [|x s IH]; [done|]. simpl.
  destruct (Py.isspace x) eqn:Hx; [done|]. by intros [= <- _].
Qed.

Lemma lstrip_fix (c : N) (r : pystr) : Py.isspace c = false → Py.lstrip (c :: r) = c :: r.
Proof. intros Hc. simpl. by rewrite Hc. Qed.

Lemma lstrip_snoc (u : pystr) (c : N) :
  Py.isspace c = false → ∃ v, Py.lstrip (u ++ [c]) = v ++ [c].
Proof.
  intros Hc. induction u as [|x u IH].
  - exists []. simpl. by rewrite Hc.
  - simpl. destruct (Py.isspace x); [done|]. by exists (x :: u).
Qed.

Lemma trimmed_ends (s : pystr) :
  trimmed s ↔
  (∀ c r, s = c :: r → Py.isspace c = false)
  ∧ (∀ c r, reverse s = c :: r → Py.isspace c = false).
Proof.
  unfold trimmed, Py.strip, Py.rstrip. split.
  - intros Hs. split.
    + intros c r ->.
      destruct (Py.isspace c) eqn:Hc; [|done]. exfalso.
      (* a leading space makes the result shorter *)
      assert (Hlen : ∀ t, (length (Py.lstrip t) ≤ length t)%nat).
      { induction t as [|x t IH]; [done|]. simpl. destruct (Py.isspace x); simpl; lia. }
      apply (f_equal length) in Hs. rewrite length_reverse in Hs.
      pose proof (Hlen (reverse (Py.lstrip (c :: r)))) as H1.
      rewrite length_reverse in H1. simpl in Hs, H1. rewrite Hc in Hs, H1.
      pose proof (Hlen r). simpl in Hs. lia.
    + intros c r Hrev. rewrite <- Hs in Hrev. rewrite reverse_involutive in Hrev.
      by apply lstrip_head in Hrev.
  - intros [Hhead Hlast].
    assert (Hl : Py.lstrip s = s).
    { destruct s as [|c r]; [done|]. apply lstrip_fix. by eapply Hhead. }
    rewrite Hl.
    assert (Hr : Py.lstrip (reverse s) = reverse s).
    { destruct (reverse s) as [|c r] eqn:Hrev; [done|]. apply lstrip_fix. by eapply Hlast. }
    by rewrite Hr, reverse_involutive.
Qed.

Lemma strip_trimmed (s : pystr) : trimmed (Py.strip s).
Proof.
  apply trimmed_ends. unfold Py.strip, Py.rstrip. split.
  - intros c r Hs.
    destruct (Py.lstrip s) as [|c0 t] eqn:Hl; [done|].
    pose proof (lstrip_head _ _ _ Hl) as Hc0.
    rewrite reverse_cons in Hs.
    destruct (lstrip_snoc (reverse t) c0 Hc0) as [v Hv]. rewrite Hv in Hs.
    rewrite reverse_app in Hs. simpl in Hs. by injection Hs as <- _.
  - intros c r Hs. rewrite reverse_involutive in Hs. by apply lstrip_head in Hs.
Qed.

Lemma trimmed_nil : trimmed [].
Proof. done. Qed.

Lemma trimmed_words (s : pystr) :
  Forall (fun c => Py.isspace c = false) s → trimmed s.
Proof.
  intros Hs. apply trimmed_ends. split.
  - intros c r ->. by apply Forall_cons in Hs as [? _].
  - intros c r Hrev. apply Forall_reverse in Hs. rewrite Hrev in Hs.
    by apply Forall_cons in Hs as [? _].
Qed.

(** Stripped strings that are not empty, joined: the ends of the result
    are the ends of the first and of the last. *)
Lemma trimmed_join (sep : pystr) (parts : list pystr) :
  Forall (fun p => p ≠ [] ∧ trimmed p) parts → trimmed (Py.join sep parts).
Proof.
  intros Hparts. apply trimmed_ends.
  induction Hparts as [|p rest [Hne Hp] Hrest IH]; [done|].
  apply trimmed_ends in Hp as [Hhead Hlast].
  destruct rest as [|q rest]; [done|].
  change (Py.join sep (p :: q :: rest)) with (p ++ sep ++ Py.join sep (q :: rest)).
  destruct IH as [_ IHlast]. split.
  - intros c r Hs. destruct p as [|c0 p]; [done|]. injection Hs as <- _. by eapply Hhead.
  - intros c r Hs. rewrite !reverse_app in Hs.
    assert (Hq : Py.join sep (q :: rest) ≠ []).
    { apply Forall_cons in Hrest as [[Hq _] _]. destruct rest; [done|].
      change (Py.join sep (q :: l :: rest)) with (q ++ sep ++ Py.join sep (l :: rest)).
      by destruct q. }
    destruct (reverse (Py.join sep (q :: rest))) as [|c1 t] eqn:Hrev.
    + apply (f_equal reverse) in Hrev. rewrite reverse_involutive in Hrev. done.
    + injection Hs as <- _. by eapply IHlast.
Qed.

Lemma get_text_trimmed (sep : pystr) (n : node) : trimmed (Bs.get_text sep n).
Proof.
  unfold Bs.get_text. apply trimmed_join.
  apply Forall_forall. intros p [Hne Hin]%list_elem_of_filter. split; [done|].
  apply list_elem_of_fmap in Hin as (s & -> & _). apply strip_trimmed.
Qed.

Lemma pick_text_trimmed `{Library} (soup : node) (chain : list pystr) :
  trimmed (pick_text soup chain).
Proof.
  induction chain as [|sel chain IH]; [done|]. cbn [pick_text].
  destruct (negb (Py.truthy sel)); [done|].
  destruct (Py.startswith _ sel).
  - destruct (find_meta soup (meta_prop sel)) as [n|]; [|done].
    destruct (Bs.get n _) as [c|]; [|done].
    destruct (Py.truthy c); [apply strip_trimmed | done].
  - destruct (select_one sel soup) as [n|]; [|done].
    cbv zeta. destruct (Py.truthy _); [apply get_text_trimmed | done].
Qed.

(** The category read after the label is one word. *)
Lemma category_word (raw : pystr) (m : Re.found) :
  Re.search CATEGORY_RE raw = Some m →
  Re.group1 m ≠ [] ∧ Forall (fun c => Py.isspace c = false) (Re.group1 m).
Proof.
  intros Hs. apply search_from_found in Hs as (pre & rest & rem & _ & Hm & _).
  apply match_at_sound in Hm. unfold Re.group1. revert Hm. generalize (Re.groups m).
  intros g Hacc. unfold CATEGORY_RE, Re.seqs, Re.lit, Re.star, Re.plus in Hacc.
  cbn [foldr] in Hacc.
  repeat match goal with
         | H : accepts (Re.Seq _ _) _ _ _ _ |- _ => inversion H; subst; clear H
         | H : accepts (Re.Chr _) _ _ _ _ |- _ => inversion H; subst; clear H
         | H : accepts Re.Eps _ _ _ _ |- _ => inversion H; subst; clear H
         | H : accepts (Re.Rep _ 0 _) _ _ _ _ |- _ => inversion H; subst; clear H
         | H : accepts (Re.Grp _) _ _ _ _ |- _ => inversion H; subst; clear H
         | H : accepts (Re.Rep _ 1 _) _ _ _ _ |- _ => inversion H; subst; clear H
         end.
  simpl. rewrite take_matched. split.
  - match goal with
    | H : (1 ≤ length ?m)%nat |- ?m ≠ [] => destruct m; [simpl in H; lia | done]
    end.
  - match goal with
    | H : Forall (fun c => Re.non Py.isspace c = true) ?m |- Forall _ ?m =>
        eapply Forall_impl; [exact H|]
    end.
    intros x Hx. unfold Re.non in Hx. by apply negb_true_iff in Hx.
Qed.

Lemma guess_category_trimmed `{Library} (soup : node) : trimmed (guess_category soup).
Proof.
  unfold guess_category. destruct (Py.truthy _); [apply pick_text_trimmed|].
  destruct (Re.search CATEGORY_RE _) as [m|] eqn:Hs; [|done].
  apply trimmed_words. by apply category_word in Hs as [_ ?].
Qed.

Lemma or_else_trimmed (a b : pystr) : trimmed a → trimmed b → trimmed (Py.or_else a b).
Proof. intros Ha Hb. unfold Py.or_else. by destruct (Py.truthy a). Qed.

(** A repetition that may stop at once never fails. *)
Lemma rep_zero_total (p : N → bool) (s : pystr) (hi : option nat)
    (k : pystr → option Re.result) :
  (∀ x, is_Some (k x)) → is_Some (Re.rep p 0 hi s k).
Proof.
  intros Hk. revert hi. induction s as [|c s IH]; intros hi; cbn [Re.rep Nat.pred];
    [apply Hk|].
  destruct (p c && Re.hi_open hi); [|apply Hk].
  destruct (IH (pred <$> hi)) as [res ->]. simpl. eauto.
Qed.

Lemma plus_matches (p : N → bool) (c : N) (s : pystr) :
  p c = true → is_Some (Re.match_at (Re.plus p) (c :: s)).
Proof.
  intros Hp. unfold Re.match_at, Re.plus. cbn [Re.run Re.rep Nat.pred]. rewrite Hp.
  cbn [Re.hi_open andb fmap option_fmap option_map].
  destruct (rep_zero_total p s None (fun rest => Some ([], rest))) as [res ->]; [eauto|].
  simpl. eauto.
Qed.

(** The pieces between the separators hold no separator. *)
Lemma split_go_free (p : N → bool) (s : pystr) :
  ∀ skip cur,
    Forall (fun c => p c = false) cur →
    Forall (Forall (fun c => p c = false)) (Re.split_go (Re.plus p) skip cur s).
Proof.
  induction s as [|c s IH]; intros skip cur Hcur; cbn [Re.split_go].
  - constructor; [by apply Forall_reverse | constructor].
  - destruct skip as [|n]; [|by apply IH].
    destruct (Re.match_at (Re.plus p) (c :: s)) as [[g rest]|] eqn:Hm.
    + constructor; [by apply Forall_reverse | by apply IH].
    + apply IH. constructor; [|done].
      destruct (p c) eqn:Hp; [|done].
      destruct (plus_matches p c s Hp) as [? Hsome]. congruence.
Qed.

Lemma foldl_add_tag_trimmed (l : list node) (tags : list pystr) :
  Forall trimmed tags → Forall trimmed (foldl add_tag tags l).
Proof.
  revert tags. induction l as [|a l IH]; intros tags Htags; [done|].
  simpl. apply IH. destruct (add_tag_spec tags a) as [->|(-> & _)]; [done|].
  apply Forall_app. split; [done|]. constructor; [apply get_text_trimmed | constructor].
Qed.

Lemma guess_tags_trimmed `{Library} (soup : node) : Forall trimmed (guess_tags soup).
Proof.
  unfold guess_tags.
  pose proof (foldl_add_tag_trimmed
                (select (py "a[rel='tag'], .blog_tag a, .tag a") soup) []) as Hsel.
  destruct (foldl add_tag [] _) as [|t ts]; [|by apply Hsel; constructor].
  destruct (Re.search TAGS_RE _) as [m|]; [|constructor]. cbv zeta.
  destruct (_ <=? _)%nat; [|constructor].
  apply Forall_forall. intros t [_ Hin]%list_elem_of_filter.
  apply trimmed_words.
  pose proof (split_go_free (Re.either (Re.one 44) Py.isspace)
                (Py.strip (Re.group1 m)) O [] ltac:(constructor)) as Hfree.
  rewrite Forall_forall in Hfree. specialize (Hfree t Hin).
  eapply Forall_impl; [exact Hfree|]. intros c Hc. unfold Re.either in Hc.
  by apply orb_false_iff in Hc as [_ ?].
Qed.

(** X16. The title, the time, the category and the tags of a parsed
    article never begin or end with white space, wherever they were
    found: by a configured selector, by the selectors the guessers try,
    in a [meta] tag, or in the text of the page. *)
Theorem parse_article_trimmed `{Library} (html_text link : pystr) (cfg : config) :
  let a := parse_article html_text link cfg in
  trimmed (title a) ∧ trimmed (published_at a) ∧ trimmed (category a)
  ∧ Forall trimmed (tags a).
Proof.
  intros a. subst a. unfold parse_article. cbn [title published_at category tags].
  split; [|split; [|split]]; try (apply or_else_trimmed; try apply pick_text_trimmed).
  - unfold guess_title. destruct (Py.truthy _); [apply strip_trimmed | done].
  - unfold guess_time. apply strip_trimmed.
  - apply guess_category_trimmed.
  - destruct (sel_tags (cfg_selectors cfg)) as [|sel chain] eqn:Hchain;
      [apply guess_tags_trimmed|].
    generalize (sel :: chain). intros l.
    assert (Hgen : ∀ tags, Forall trimmed tags →
              Forall trimmed
                (foldl (fun tag_list sel => foldl add_tag tag_list
                          (select sel (html_parse html_text))) tags l)).
    { induction l as [|x l IH]; intros tags Htags; [done|].
      simpl. by apply IH, foldl_add_tag_trimmed. }
    apply Hgen. constructor.
Qed.


(** ** File names: titles that collide, posts without a title *)

Lemma strip_keeps_head (c : N) (t : pystr) :
  Py.isspace c = false → ∃ v, Py.strip (c :: t) = c :: v.
Proof.
  intros Hc. unfold Py.strip, Py.rstrip. rewrite lstrip_fix by done.
  rewrite reverse_cons. destruct (lstrip_snoc (reverse t) c Hc) as [v ->].
  rewrite reverse_app. by exists (reverse v).
Qed.

Lemma strip_head (s : pystr) (c : N) (r : pystr) :
  Py.strip s = c :: r → Py.isspace c = false.
Proof.
  intros Hs. pose proof (strip_trimmed s) as Ht. apply trimmed_ends in Ht as [Hhead _].
  by eapply Hhead.
Qed.

Lemma reserved_not_space (c : N) : Py.isspace c = false → Py.isspace (if RESERVED c then 95 else c) = false.
Proof. intros Hc. by destruct (RESERVED c). Qed.

(** A title that is not blank gives a name that is not empty. *)
Lemma cleaned_title_truthy (name : pystr) :
  Py.strip name ≠ [] →
  Py.truthy (Py.strip (Re.sub (Re.plus Py.isspace) (py " ")
                         (Re.sub (Re.Chr RESERVED) (py "_") (Py.strip name)))) = true.
Proof.
  intros Hne. destruct (Py.strip name) as [|c r] eqn:Hs; [done|].
  apply strip_head in Hs. rewrite sub_chr, bind_cons.
  set (h := if RESERVED c then 95 else c).
  assert (Hh : Py.isspace h = false) by (by apply reserved_not_space).
  replace (if RESERVED c then py "_" else [c]) with [h] by (unfold h; by destruct (RESERVED c)).
  set (t := r ≫= _). change ([h] ++ t) with (h :: t).
  unfold Re.sub. cbn [Re.sub_go].
  replace (Re.match_at (Re.plus Py.isspace) (h :: t)) with (@None Re.result)
    by (unfold Re.match_at, Re.plus; cbn [Re.run Re.rep]; by rewrite Hh).
  destruct (strip_keeps_head h (Re.sub_go (Re.plus Py.isspace) (py " ") 0 t) Hh) as [v ->].
  done.
Qed.

(** X18. The fallback name, and with it the position of the article, plays
    no part in the file name of an article whose title is not blank: two
    articles with the same title and the same date stamp are written to
    the same file, the later over the earlier. *)
Theorem base_name_collision (a b : article) (i j : N) :
  title a = title b →
  date_part (published_at a) = date_part (published_at b) →
  Py.strip (title a) ≠ [] →
  base_name a i = base_name b j.
Proof.
  intros Htitle Hdate Hne. unfold base_name. cbv zeta. rewrite <- Hdate, <- Htitle.
  assert (Hsafe : ∀ fb fb', safe_filename (title a) fb = safe_filename (title a) fb').
  { intros fb fb'. unfold safe_filename. cbv zeta.
    assert (Hor : ∀ x, Py.or_else (Py.strip (title a)) x = Py.strip (title a)).
    { intros x. unfold Py.or_else. by destruct (Py.strip (title a)). }
    rewrite !Hor. by rewrite cleaned_title_truthy. }
  by rewrite (Hsafe (py "post_" ++ Py.zero_pad 4 i) (py "post_" ++ Py.zero_pad 4 j)).
Qed.

Lemma digit_value_ascii (r : N) : r < 10 → Py.digit_value (48 + r) = r.
Proof.
  intros Hr. unfold Py.digit_value, Py.DECIMAL_ZEROS. cbn [List.find].
  replace (Py.in_run (48 + r) 48) with true
    by (symmetry; unfold Py.in_run; apply andb_true_iff; split; apply N.leb_le; lia).
  lia.
Qed.

(** Decimal text reads back as the number it was written from. *)
Lemma digits_go_value (fuel : nat) :
  ∀ n acc, n < 2 ^ N.of_nat fuel →
    fold_left (fun a c => a * 10 + Py.digit_value c) (Py.digits_go fuel n acc) 0
    = fold_left (fun a c => a * 10 + Py.digit_value c) acc n.
Proof.
  induction fuel as [|fuel IH]; intros n acc Hn.
  - simpl in *. by replace n with 0 by lia.
  - cbn [Py.digits_go]. destruct (N.ltb_spec n 10) as [Hlt|Hge].
    + cbn [fold_left]. f_equal. rewrite digit_value_ascii by done. lia.
    + rewrite IH.
      * cbn [fold_left]. f_equal.
        rewrite digit_value_ascii by (by apply N.mod_upper_bound).
        pose proof (N.div_mod n 10 ltac:(lia)) as Hdm. revert Hdm.
        generalize (n / 10) (n mod 10). intros q r Hdm. lia.
      * rewrite Nat2N.inj_succ, N.pow_succ_r' in Hn.
        apply N.Div0.div_lt_upper_bound. lia.
Qed.

Lemma int_of_digits (n : N) : Py.int_of (Py.digits n) = n.
Proof.
  unfold Py.int_of, Py.digits. rewrite digits_go_value; [done|].
  destruct n as [|p]; [done|].
  rewrite Nat2N.inj_succ, N2Nat.id. apply N.log2_spec. lia.
Qed.

Lemma int_of_zero_pad (width : nat) (n : N) : Py.int_of (Py.zero_pad width n) = n.
Proof.
  unfold Py.zero_pad.
  assert (Happ : ∀ s t, Py.int_of (s ++ t)
                        = fold_left (fun a c => a * 10 + Py.digit_value c) t (Py.int_of s))
    by (intros; apply fold_left_app).
  assert (Hz : ∀ k, Py.int_of (replicate k 48) = 0).
  { unfold Py.int_of. induction k as [|k IHk]; [done|]. simpl. apply IHk. }
  rewrite Happ, Hz. apply int_of_digits.
Qed.

Lemma sub_spaces_absent (s : pystr) :
  Forall (fun c => Py.isspace c = false) s →
  Re.sub (Re.plus Py.isspace) (py " ") s = s.
Proof.
  unfold Re.sub. induction 1 as [|c s Hc _ IH]; [done|]. cbn [Re.sub_go].
  replace (Re.match_at (Re.plus Py.isspace) (c :: s)) with (@None Re.result)
    by (unfold Re.match_at, Re.plus; cbn [Re.run Re.rep]; by rewrite Hc).
  by rewrite IH.
Qed.

Lemma sub_reserved_absent (s : pystr) :
  Forall (fun c => RESERVED c = false) s → Re.sub (Re.Chr RESERVED) (py "_") s = s.
Proof.
  rewrite sub_chr. induction 1 as [|c s Hc _ IH]; [done|].
  by rewrite bind_cons, Hc, IH.
Qed.

Lemma digit_not_space (c : N) : Py.is_digit c = true → Py.isspace c = false.
Proof.
  unfold Py.is_digit, Py.isspace. intros Hc.
  apply andb_true_iff in Hc as [H1%N.leb_le H2%N.leb_le].
  repeat (apply orb_false_iff; split);
    try (apply andb_false_iff; left; apply N.leb_gt; lia);
    try (apply andb_false_iff; right; apply N.leb_gt; lia);
    apply N.eqb_neq; lia.
Qed.

(** A post without a title is named by its position. *)
Lemma safe_filename_untitled (name : pystr) (idx : N) :
  Py.strip name = [] →
  safe_filename name (py "post_" ++ Py.zero_pad 4 idx) = py "post_" ++ Py.zero_pad 4 idx.
Proof.
  intros Hblank. unfold safe_filename. cbv zeta. rewrite Hblank.
  set (fb := py "post_" ++ Py.zero_pad 4 idx).
  assert (Hres : Forall (fun c => RESERVED c = false) fb).
  { apply Forall_app. split; [by repeat constructor|].
    eapply Forall_impl; [apply zero_pad_digits | apply digit_not_reserved]. }
  assert (Hsp : Forall (fun c => Py.isspace c = false) fb).
  { apply Forall_app. split; [by repeat constructor|].
    eapply Forall_impl; [apply zero_pad_digits | apply digit_not_space]. }
  replace (Py.or_else [] fb) with fb by done.
  rewrite sub_reserved_absent, sub_spaces_absent by done.
  rewrite (trimmed_words fb Hsp). done.
Qed.

Lemma digits_prefix (d1 d2 r1 r2 : pystr) (x y : N) :
  Forall (fun c => Py.is_digit c = true) d1 →
  Forall (fun c => Py.is_digit c = true) d2 →
  Py.is_digit x = false → Py.is_digit y = false →
  d1 ++ x :: r1 = d2 ++ y :: r2 → d1 = d2 ∧ r1 = r2.
Proof.
  intros H1. revert d2. induction H1 as [|c d1 Hc _ IH]; intros d2 H2 Hx Hy Heq.
  - destruct H2 as [|c2 d2 Hc2 _]; simpl in Heq.
    + by injection Heq as _ ->.
    + injection Heq as -> _. congruence.
  - destruct H2 as [|c2 d2 Hc2 H2]; simpl in Heq.
    + injection Heq as -> _. congruence.
    + injection Heq as -> Heq. destruct (IH d2 H2 Hx Hy Heq) as [-> ->]. done.
Qed.

(** X19. Posts without a title never share a file: where the title is
    blank the name is [post_] and the position in four digits or more,
    after the date stamp if there is one, and two positions give two
    names. *)
Theorem base_name_untitled (a b : article) (i j : N) :
  Py.strip (title a) = [] → Py.strip (title b) = [] →
  i ≠ j →
  base_name a i ≠ base_name b j.
Proof.
  intros Ha Hb Hij. unfold base_name. cbv zeta.
  rewrite !safe_filename_untitled by done.
  pose proof (date_part_digits (published_at a)) as Hda.
  pose proof (date_part_digits (published_at b)) as Hdb.
  assert (Hpad : Py.zero_pad 4 i ≠ Py.zero_pad 4 j).
  { intros Heq. apply (f_equal Py.int_of) in Heq. by rewrite !int_of_zero_pad in Heq. }
  destruct (date_part (published_at a)) as [|ca da];
    destruct (date_part (published_at b)) as [|cb db]; cbn [Py.truthy].
  - intros Heq. by apply app_inv_head in Heq.
  - intros Heq. injection Heq as <- _. by apply Forall_cons in Hdb as [? _].
  - intros Heq. injection Heq as -> _. by apply Forall_cons in Hda as [? _].
  - intros Heq.
    change ((ca :: da) ++ 95 :: (py "post_" ++ Py.zero_pad 4 i)
            = (cb :: db) ++ 95 :: (py "post_" ++ Py.zero_pad 4 j)) in Heq.
    apply digits_prefix in Heq as [_ Heq]; [|done..].
    by apply app_inv_head in Heq.
Qed.

(** ** The further properties at work *)

Lemma guess_content_node_none_witness :
  @guess_content_node reference_library noise_page [] = None
  ∧ Forall (fun d => is_noise_node d = true) (Bs.find_all is_div noise_page).
Proof.
  assert (H : @guess_content_node reference_library noise_page [] = None)
    by (vm_compute; reflexivity).
  split; [exact H|].
  exact (@guess_content_node_none reference_library noise_page [] H).
Defined.

Lemma discover_sound_witness :
  let u := py "http://blog.sina.com.cn/s/blog_4a6c545e0100abcd.html" in
  let cfg := Config no_selectors [] in
  @discover reference_library listing_site listing_url cfg 3 = [u]
  ∧ @is_article_url reference_library u (Some []) = true
  ∧ ∃ page html_text,
      (1 <= page <= 3)%nat
      ∧ @fetch_text reference_library listing_site (listing_url page) = Some html_text
      ∧ u ∈ @extract_article_links reference_library html_text (listing_url page) cfg.
Proof.
  intros u cfg.
  assert (H : @discover reference_library listing_site listing_url cfg 3 = [u])
    by (vm_compute; reflexivity).
  split; [exact H|].
  apply (@discover_sound reference_library listing_site listing_url cfg 3 u).
  rewrite H. apply list_elem_of_here.
Defined.

Lemma download_images_keeps_files_witness :
  files (@download_images reference_library (py "<p><img src='pic/a.jpg'></p>")
           (py "http://blog.sina.com.cn/s/blog_1.html") always_ok (py "output")
           one_file_world).2
    !! py "output/images/old.jpg"
  = Some (ascii_bytes (py "old")).
Proof.
  apply (@download_images_keeps_files reference_library).
  apply lookup_singleton_eq.
Defined.

Lemma download_images_offline_witness :
  (@download_images reference_library (py "<p><img src='pic/a.jpg'><img data-src='/b.png'></p>")
     (py "http://blog.sina.com.cn/s/blog_1.html") never_ok (py "output") (World ∅ [])).2
  = World ∅ [py "http://blog.sina.com.cn/s/pic/a.jpg"; py "http://blog.sina.com.cn/b.png"].
Proof.
  rewrite (@download_images_offline reference_library).
  - vm_compute. reflexivity.
  - reflexivity.
  - intros u. apply bool_decide_eq_false_2. simpl. rewrite lookup_empty.
    apply is_Some_None.
Defined.

Lemma render_post_html_markup_witness :
  occurrences 60 (render_post_html hostile_article)
  = occurrences 60 (render_post_html plain_article).
Proof.
  apply render_post_html_markup.
  - apply list_elem_of_here.
  - reflexivity.
  - reflexivity.
  - split; discriminate.
  - split; discriminate.
Defined.

Lemma render_index_html_markup_witness :
  occurrences 34 (render_index_html [index_item hostile_article 1; index_item plain_article 2])
  = occurrences 34 (render_index_html [index_item plain_article 1; index_item hostile_article 2]).
Proof.
  apply render_index_html_markup.
  - do 2 apply list_elem_of_further. apply list_elem_of_here.
  - constructor; [split; [vm_compute; reflexivity | vm_compute; split; discriminate]|].
    constructor; [split; [vm_compute; reflexivity | vm_compute; split; discriminate]|].
    constructor.
Defined.


Lemma base_name_collision_witness :
  base_name plain_article 1 = py "20200102_My Trip"
  ∧ base_name plain_article 1 = base_name plain_article 2.
Proof.
  split; [vm_compute; reflexivity|].
  apply base_name_collision.
  - reflexivity.
  - reflexivity.
  - vm_compute. discriminate.
Defined.

Lemma base_name_untitled_witness :
  base_name untitled_article 1 = py "20200102_post_0001"
  ∧ base_name untitled_article 1 ≠ base_name untitled_article 2.
Proof.
  split; [vm_compute; reflexivity|].
  apply base_name_untitled.
  - vm_compute. reflexivity.
  - vm_compute. reflexivity.
  - discriminate.
Defined.

Lemma discover_prefix_witness :
  let cfg := Config no_selectors [] in
  let short := @discover_in reference_library (fun _ => elements) two_link_site listing_url cfg 1 in
  let long := @discover_in reference_library backwards two_link_site listing_url cfg 3 in
  length short = 2%nat ∧ long = reverse short ∧ take (length short) long ≡ₚ short.
Proof.
  intros cfg short long.
  split; [vm_compute; reflexivity|]. split; [vm_compute; reflexivity|].
  apply (@discover_prefix reference_library (fun _ => elements) backwards two_link_site
           listing_url cfg 1 2).
  - intros page links. reflexivity.
  - intros page links. apply reverse_Permutation.
Defined.
